(** * Verification of transsion_twrp_gen_vendor_boot.py

    A shallow embedding of the binary decoding layer of the script:
    the vendor_boot header parser ([VendorBootHeader]), the ramdisk table
    decoder ([get_ramdisk_entries]), the DTB locator ([get_dtb_offset]),
    the cpio "newc" extractor ([extract_cpio]), the selection of the
    recovery ramdisk ([DeviceInfo._extract_from_image]) and the binary
    patcher ([patch_adaptive_ts]).

    Python values are modelled as follows: [int] is [Z] (unbounded),
    [bytes] is [list byte], [str] is the list of its code points,
    exceptions are the [Raise] case of [result], file contents are lists
    of bytes and the effects on the file system are recorded as a trace of
    operations, in the order in which the code performs them. *)

From Stdlib Require Import ZArith List Ascii String Lia DecimalString.
From Stdlib.Strings Require Import Byte.
From stdpp Require Import base list gmap.

Local Open Scope Z_scope.

(* ===================================================================== *)
(** * Python values                                                       *)
(* ===================================================================== *)

Abbreviation bytes := (list byte) (only parsing).

(** A Python [str]: the sequence of its Unicode code points. *)
Abbreviation str := (list Z) (only parsing).

Definition byte_val (b : byte) : Z := Z.of_N (Byte.to_N b).

Definition bytes_lit (s : string) : bytes := list_byte_of_string s.

Definition str_lit (s : string) : str :=
  map (fun a => Z.of_N (N_of_ascii a)) (list_ascii_of_string s).

Definition byte_eqb (a b : byte) : bool := Byte.eqb a b.

Fixpoint bytes_eqb (a b : bytes) : bool :=
  match a, b with
  | [], [] => true
  | x :: a', y :: b' => byte_eqb x y && bytes_eqb a' b'
  | _, _ => false
  end.

Fixpoint str_eqb (a b : str) : bool :=
  match a, b with
  | [], [] => true
  | x :: a', y :: b' => (x =? y) && str_eqb a' b'
  | _, _ => false
  end.

Definition py_len {A} (l : list A) : Z := Z.of_nat (length l).

(** Normalisation of one bound of a slice [l[a:b]] for a sequence of
    length [n]: a negative bound counts from the end, and both bounds are
    clamped to [0..n]. *)
Definition slice_bound (n i : Z) : Z :=
  if i <? 0 then Z.max 0 (i + n) else Z.min i n.

(** [l[a:b]] *)
Definition py_slice {A} (l : list A) (a b : Z) : list A :=
  let n := py_len l in
  let a' := slice_bound n a in
  let b' := slice_bound n b in
  take (Z.to_nat (b' - a')) (drop (Z.to_nat a') l).

(** [l[:b]] and [l[a:]] *)
Definition py_slice_to {A} (l : list A) (b : Z) : list A := py_slice l 0 b.
Definition py_slice_from {A} (l : list A) (a : Z) : list A :=
  py_slice l a (py_len l).

(** Exceptions raised by the modelled code. *)
Inductive exn :=
| ValueError_InvalidMagic (got : bytes)
| ValueError_TruncatedTable (i : Z)
| ValueError_InvalidLiteral
| StructError
| UnicodeDecodeError
| ValueError_ReadLength
| OverflowError
| RuntimeError_NoRecoveryRamdisk
| FileNotFoundError.

Inductive result (A : Type) :=
| Ok (a : A)
| Raise (e : exn).
Arguments Ok {A} a.
Arguments Raise {A} e.

Definition bind {A B} (m : result A) (k : A -> result B) : result B :=
  match m with
  | Ok a => k a
  | Raise e => Raise e
  end.

Notation "'do' x <- m ; k" := (bind m (fun x => k))
  (at level 10, x name, m at level 100, k at level 200).

Definition is_Ok {A} (r : result A) : bool :=
  match r with Ok _ => true | Raise _ => false end.

(** ** struct.unpack *)

(** Little-endian value of a byte string. *)
Fixpoint le_value (bs : bytes) : Z :=
  match bs with
  | [] => 0
  | b :: r => byte_val b + 256 * le_value r
  end.

(** [struct.unpack('<I', bs)[0]]: the buffer must hold exactly 4 bytes. *)
Definition unpack_I (bs : bytes) : result Z :=
  if py_len bs =? 4 then Ok (le_value bs) else Raise StructError.

(** [struct.unpack('<Q', bs)[0]]: the buffer must hold exactly 8 bytes. *)
Definition unpack_Q (bs : bytes) : result Z :=
  if py_len bs =? 8 then Ok (le_value bs) else Raise StructError.

(** ** bytes.rstrip, str.lstrip, bytes.hex *)

Definition is_nil {A} (l : list A) : bool :=
  match l with [] => true | _ => false end.

(** [bs.rstrip(c)] for a single byte [c]. *)
Definition rstrip (c : byte) (bs : bytes) : bytes :=
  fold_right (fun b acc => if byte_eqb b c && is_nil acc then [] else b :: acc)
             [] bs.

(** [s.lstrip(c)] for a single character [c]. *)
Fixpoint lstrip (c : Z) (s : str) : str :=
  match s with
  | x :: r => if x =? c then lstrip c r else s
  | [] => []
  end.

Definition hex_char (d : Z) : Z :=
  if d <? 10 then 48 + d else 87 + d.

(** [bs.hex()]: two lowercase hexadecimal digits for each byte. *)
Definition bytes_hex (bs : bytes) : str :=
  flat_map (fun b => [hex_char (byte_val b / 16); hex_char (byte_val b mod 16)]) bs.

(** [str(n)] for an integer. *)
Definition str_of_int (n : Z) : str :=
  match n with
  | Zneg p => 45 :: str_lit (NilZero.string_of_uint (N.to_uint (Npos p)))
  | _ => str_lit (NilZero.string_of_uint (N.to_uint (Z.to_N n)))
  end.

(** ** bytes.decode *)

(** The [errors] argument of [bytes.decode]. *)
Inductive errors := Strict | Ignore | Replace.

(** What the decoder does with the rest [k] of its output when the error
    handler is called on an ill-formed span: [strict] raises, [ignore]
    resumes after the span and emits nothing, [replace] emits U+FFFD. *)
Definition on_error (h : errors) (k : result str) : result str :=
  match h with
  | Strict => Raise UnicodeDecodeError
  | Ignore => k
  | Replace => do s <- k; Ok (65533 :: s)
  end.

Definition emit (c : Z) (k : result str) : result str :=
  do s <- k; Ok (c :: s).

Definition is_continuation (b : byte) : bool :=
  (128 <=? byte_val b) && (byte_val b <? 192).

(** [bs.decode('utf-8', errors=h)], following CPython's decoder: an
    ill-formed sequence is reported to the error handler as the span of
    its maximal well-formed prefix (at least one byte), and decoding
    resumes right after that span; a sequence cut by the end of the data
    is reported as a span that reaches the end. *)
Fixpoint utf8_decode (h : errors) (bs : bytes) : result str :=
  match bs with
  | [] => Ok []
  | b0 :: r0 =>
    let ch := byte_val b0 in
    if ch <? 128 then emit ch (utf8_decode h r0)
    else if ch <? 194 then on_error h (utf8_decode h r0)
    else if ch <? 224 then
      match r0 with
      | [] => on_error h (Ok [])
      | b1 :: r1 =>
        if is_continuation b1
        then emit (Z.lor (Z.shiftl (Z.land ch 31) 6) (Z.land (byte_val b1) 63))
                  (utf8_decode h r1)
        else on_error h (utf8_decode h r0)
      end
    else if ch <? 240 then
      match r0 with
      | [] => on_error h (Ok [])
      | b1 :: r1 =>
        let ch2 := byte_val b1 in
        if negb (is_continuation b1)
           || (if ch2 <? 160 then ch =? 224 else ch =? 237)
        then on_error h (utf8_decode h r0)
        else
          match r1 with
          | [] => on_error h (Ok [])
          | b2 :: r2 =>
            if is_continuation b2
            then emit (Z.lor (Z.shiftl (Z.land ch 15) 12)
                         (Z.lor (Z.shiftl (Z.land ch2 63) 6)
                                (Z.land (byte_val b2) 63)))
                      (utf8_decode h r2)
            else on_error h (utf8_decode h r1)
          end
      end
    else if ch <? 245 then
      match r0 with
      | [] => on_error h (Ok [])
      | b1 :: r1 =>
        let ch2 := byte_val b1 in
        if negb (is_continuation b1)
           || (if ch2 <? 144 then ch =? 240 else ch =? 244)
        then on_error h (utf8_decode h r0)
        else
          match r1 with
          | [] => on_error h (Ok [])
          | b2 :: r2 =>
            if negb (is_continuation b2)
            then on_error h (utf8_decode h r1)
            else
              match r2 with
              | [] => on_error h (Ok [])
              | b3 :: r3 =>
                if is_continuation b3
                then emit (Z.lor (Z.shiftl (Z.land ch 7) 18)
                             (Z.lor (Z.shiftl (Z.land ch2 63) 12)
                                (Z.lor (Z.shiftl (Z.land (byte_val b2) 63) 6)
                                       (Z.land (byte_val b3) 63))))
                          (utf8_decode h r3)
                else on_error h (utf8_decode h r2)
              end
          end
      end
    else on_error h (utf8_decode h r0)
  end.

(** [bs.decode('ascii')] (strict). *)
Fixpoint ascii_decode (bs : bytes) : result str :=
  match bs with
  | [] => Ok []
  | b :: r =>
    if byte_val b <? 128 then emit (byte_val b) (ascii_decode r)
    else Raise UnicodeDecodeError
  end.

(* ===================================================================== *)
(** * Vendor boot parser                                                  *)
(* ===================================================================== *)

Definition BOOT_MAGIC_VENDOR_BOOT : bytes := bytes_lit "VNDRBOOT".
Definition VENDOR_RAMDISK_CMDLINE_SIZE : Z := 2048.
Definition BOOT_PRODUCT_NAME_SIZE : Z := 64.
Definition VENDOR_RAMDISK_NAME_SIZE : Z := 32.
Definition BOOT_ID_SIZE : Z := 32.

Definition VENDOR_RAMDISK_TYPE_NONE : Z := 0.
Definition VENDOR_RAMDISK_TYPE_PLATFORM : Z := 1.
Definition VENDOR_RAMDISK_TYPE_RECOVERY : Z := 2.
Definition VENDOR_RAMDISK_TYPE_DLKM : Z := 3.

Definition NUL : byte := x00.

Record VendorBootHeader := {
  data : bytes;
  magic : bytes;
  header_version : Z;
  page_size : Z;
  kernel_load_addr : Z;
  ramdisk_load_addr : Z;
  vendor_ramdisk_total_size : Z;
  cmdline : str;
  tags_load_addr : Z;
  product_name : str;
  header_size : Z;
  dtb_size : Z;
  dtb_load_addr : Z;
  vendor_ramdisk_table_size : Z;
  vendor_ramdisk_table_num_entries : Z;
  vendor_bootconfig_size : Z;
  table_offset : Z
}.

(** [VendorBootHeader.__init__] *)
Definition VendorBootHeader_init (data : bytes) : result VendorBootHeader :=
  let offset := 0 in
  let magic := py_slice data offset (offset + 8) in
  if negb (bytes_eqb magic BOOT_MAGIC_VENDOR_BOOT)
  then Raise (ValueError_InvalidMagic magic)
  else
  let offset := offset + 8 in
  do header_version <- unpack_I (py_slice data offset (offset + 4));
  let offset := offset + 4 in
  do page_size <- unpack_I (py_slice data offset (offset + 4));
  let offset := offset + 4 in
  do kernel_load_addr <- unpack_I (py_slice data offset (offset + 4));
  let offset := offset + 4 in
  do ramdisk_load_addr <- unpack_I (py_slice data offset (offset + 4));
  let offset := offset + 4 in
  do vendor_ramdisk_total_size <- unpack_I (py_slice data offset (offset + 4));
  let offset := offset + 4 in
  let cmdline_bytes := py_slice data offset (offset + VENDOR_RAMDISK_CMDLINE_SIZE) in
  do cmdline <- utf8_decode Ignore (rstrip NUL cmdline_bytes);
  let offset := offset + VENDOR_RAMDISK_CMDLINE_SIZE in
  do tags_load_addr <- unpack_I (py_slice data offset (offset + 4));
  let offset := offset + 4 in
  let product_name_bytes := py_slice data offset (offset + BOOT_PRODUCT_NAME_SIZE) in
  do product_name <- utf8_decode Ignore (rstrip NUL product_name_bytes);
  let offset := offset + BOOT_PRODUCT_NAME_SIZE in
  do header_size <- unpack_I (py_slice data offset (offset + 4));
  let offset := offset + 4 in
  do dtb_size <- unpack_I (py_slice data offset (offset + 4));
  let offset := offset + 4 in
  do dtb_load_addr <- unpack_Q (py_slice data offset (offset + 8));
  let offset := offset + 8 in
  do vendor_ramdisk_table_size <- unpack_I (py_slice data offset (offset + 4));
  let offset := offset + 4 in
  do vendor_ramdisk_table_num_entries <- unpack_I (py_slice data offset (offset + 4));
  let offset := offset + 4 in
  do vendor_bootconfig_size <- unpack_I (py_slice data offset (offset + 4));
  let offset := offset + 4 in
  Ok {| data := data;
        magic := magic;
        header_version := header_version;
        page_size := page_size;
        kernel_load_addr := kernel_load_addr;
        ramdisk_load_addr := ramdisk_load_addr;
        vendor_ramdisk_total_size := vendor_ramdisk_total_size;
        cmdline := cmdline;
        tags_load_addr := tags_load_addr;
        product_name := product_name;
        header_size := header_size;
        dtb_size := dtb_size;
        dtb_load_addr := dtb_load_addr;
        vendor_ramdisk_table_size := vendor_ramdisk_table_size;
        vendor_ramdisk_table_num_entries := vendor_ramdisk_table_num_entries;
        vendor_bootconfig_size := vendor_bootconfig_size;
        table_offset := offset |}.

Record VendorRamdiskEntry := {
  size : Z;
  offset : Z;
  type : Z;
  name : str;
  board_id : str;
  type_str : str
}.

(** The dictionary lookup [{...}.get(self.type, f"unknown({self.type})")]. *)
Definition type_str_of (t : Z) : str :=
  if t =? VENDOR_RAMDISK_TYPE_NONE then str_lit "none"
  else if t =? VENDOR_RAMDISK_TYPE_PLATFORM then str_lit "platform"
  else if t =? VENDOR_RAMDISK_TYPE_RECOVERY then str_lit "recovery"
  else if t =? VENDOR_RAMDISK_TYPE_DLKM then str_lit "dlkm"
  else str_lit "unknown(" ++ str_of_int t ++ str_lit ")".

(** [VendorRamdiskEntry.__init__] *)
Definition VendorRamdiskEntry_init (data : bytes) : result VendorRamdiskEntry :=
  do size <- unpack_I (py_slice data 0 4);
  do offset <- unpack_I (py_slice data 4 8);
  do type <- unpack_I (py_slice data 8 12);
  let name_bytes := py_slice data 12 (12 + VENDOR_RAMDISK_NAME_SIZE) in
  do name <- utf8_decode Ignore (rstrip NUL name_bytes);
  let board_id_bytes :=
    py_slice data (12 + VENDOR_RAMDISK_NAME_SIZE)
             (12 + VENDOR_RAMDISK_NAME_SIZE + BOOT_ID_SIZE) in
  Ok {| size := size;
        offset := offset;
        type := type;
        name := name;
        board_id := bytes_hex board_id_bytes;
        type_str := type_str_of type |}.

(** The body of the [for i in range(...)] loop of [get_ramdisk_entries],
    run for the indices [i, i+1, ..., i+n-1]; [entries] is the list built
    so far. *)
Fixpoint get_ramdisk_entries_loop (h : VendorBootHeader) (entry_size : Z)
         (n : nat) (i : Z) (entries : list VendorRamdiskEntry)
  : result (list VendorRamdiskEntry) :=
  match n with
  | O => Ok entries
  | S n' =>
    let start := table_offset h + i * entry_size in
    let end_ := start + entry_size in
    let entry_data := py_slice (data h) start end_ in
    if py_len entry_data <? entry_size
    then Raise (ValueError_TruncatedTable i)
    else
      do entry <- VendorRamdiskEntry_init entry_data;
      get_ramdisk_entries_loop h entry_size n' (i + 1) (entries ++ [entry])
  end.

(** [VendorBootHeader.get_ramdisk_entries] *)
Definition get_ramdisk_entries (h : VendorBootHeader)
  : result (list VendorRamdiskEntry) :=
  if vendor_ramdisk_table_num_entries h =? 0 then Ok []
  else
    let entry_size := 4 + 4 + 4 + VENDOR_RAMDISK_NAME_SIZE + BOOT_ID_SIZE in
    get_ramdisk_entries_loop h entry_size
      (Z.to_nat (vendor_ramdisk_table_num_entries h)) 0 [].

(** [VendorBootHeader.get_dtb_offset] *)
Definition get_dtb_offset (h : VendorBootHeader) : Z :=
  let ramdisk_start := header_size h + vendor_bootconfig_size h in
  let dtb_offset := ramdisk_start + vendor_ramdisk_total_size h in
  if dtb_offset + dtb_size h >? py_len (data h)
  then py_len (data h) - dtb_size h
  else dtb_offset.


(* ===================================================================== *)
(** * Paths (posixpath)                                                   *)
(* ===================================================================== *)

Definition SEP : Z := 47.

Definition startswith_sep (s : str) : bool :=
  match s with c :: _ => c =? SEP | [] => false end.

Definition endswith_sep (s : str) : bool :=
  match last s with Some c => c =? SEP | None => false end.

(** [os.path.join(a, b)] *)
Definition os_path_join (a b : str) : str :=
  if startswith_sep b then b
  else if is_nil a || endswith_sep a then a ++ b
  else a ++ [SEP] ++ b.

(** [p.rfind('/')], the index of the last separator of [s], where [i] is
    the index of the head of [s]. *)
Fixpoint rfind_sep_at (s : str) (i : Z) : Z :=
  match s with
  | [] => -1
  | c :: r =>
    let j := rfind_sep_at r (i + 1) in
    if j =? -1 then (if c =? SEP then i else -1) else j
  end.

Definition str_rstrip (c : Z) (s : str) : str :=
  fold_right (fun x acc => if (x =? c) && is_nil acc then [] else x :: acc) [] s.

(** [os.path.dirname(p)] *)
Definition os_path_dirname (p : str) : str :=
  let i := rfind_sep_at p 0 + 1 in
  let head := py_slice_to p i in
  if negb (is_nil head) && negb (forallb (fun c => c =? SEP) head)
  then str_rstrip SEP head
  else head.

(* ===================================================================== *)
(** * Effects                                                              *)
(* ===================================================================== *)

(** The calls that change the file system. A trace holds them in the
    order of the calls; whether the operating system carries a call out
    or refuses it is not modelled: every call is taken to be carried out.
    Where a call is refused, the code ends with the exception of that
    call, and a trace below agrees with the calls of the code up to that
    call only. Calls that are always refused are those on a path that
    holds NUL, [os.symlink] with an empty target, and the opening for
    writing of a path that names a directory. *)
Inductive fs_op :=
| Makedirs (path : str)                      (* os.makedirs(path, exist_ok=True) *)
| Symlink (target path : str)                (* os.symlink(target, path) *)
| WriteFile (path : str) (content : bytes).  (* open(path, 'wb'), write, close *)

(** The records passed to the logger. *)
Inductive log_record :=
| Warn_UnexpectedCpioMagic (magic : str) (offset : Z)
| Info_ExtractedCpio (dest_dir : str)
| Info_CpioGzipped
| Error_GzipFailed
| Warn_ModuleNotFound (path : str)
| Info_FoundPattern1 (pos : Z)
| Warn_Pattern1NotFound
| Info_FoundPattern2 (pos : Z)
| Warn_Pattern2NotFound
| Warn_SearchStartBeyondEnd
| Info_Patched
| Info_NoModifications
| Info_DtbExtracted
| Warn_NoDedicatedRecovery.

Inductive event :=
| Fs (op : fs_op)
| Log (r : log_record).

Abbreviation trace := (list event) (only parsing).

Definition fs_ops (tr : trace) : list fs_op :=
  flat_map (fun e => match e with Fs op => [op] | Log _ => [] end) tr.

Definition op_path (op : fs_op) : str :=
  match op with
  | Makedirs p => p
  | Symlink _ p => p
  | WriteFile p _ => p
  end.

(* ===================================================================== *)
(** * int(bytes, 16)                                                      *)
(* ===================================================================== *)

(** Py_ISSPACE *)
Definition is_space (b : byte) : bool :=
  let v := byte_val b in (v =? 32) || ((9 <=? v) && (v <=? 13)).

(** The value of a character as a digit; 37 when it is none. *)
Definition digit_value (b : byte) : Z :=
  let v := byte_val b in
  if (48 <=? v) && (v <=? 57) then v - 48
  else if (97 <=? v) && (v <=? 122) then v - 87
  else if (65 <=? v) && (v <=? 90) then v - 55
  else 37.

Definition is_underscore (b : byte) : bool := byte_val b =? 95.

Fixpoint skip_space (s : bytes) : bytes :=
  match s with
  | b :: r => if is_space b then skip_space r else s
  | [] => []
  end.

(** The digits of the literal, among which single underscores may stand;
    [prev_us] tells whether the previous character was an underscore.
    Returns the value and the text that follows, [None] for a doubled or
    trailing underscore. *)
Fixpoint scan_digits (base : Z) (s : bytes) (prev_us : bool) (acc : Z)
  : option (Z * bytes) :=
  match s with
  | b :: r =>
    if is_underscore b
    then (if prev_us then None else scan_digits base r true acc)
    else if digit_value b <? base
    then scan_digits base r false (acc * base + digit_value b)
    else if prev_us then None else Some (acc, s)
  | [] => if prev_us then None else Some (acc, [])
  end.

Definition strip_sign (s : bytes) : Z * bytes :=
  match s with
  | b :: r =>
    if byte_val b =? 43 then (1, r)
    else if byte_val b =? 45 then (-1, r)
    else (1, s)
  | [] => (1, [])
  end.

(** The prefix [0x] or [0X], and one underscore after it. *)
Definition strip_hex_prefix (s : bytes) : bytes :=
  match s with
  | b0 :: b1 :: r =>
    if (byte_val b0 =? 48) && ((byte_val b1 =? 120) || (byte_val b1 =? 88))
    then match r with
         | u :: r' => if is_underscore u then r' else r
         | [] => r
         end
    else s
  | _ => s
  end.

(** [int(s, 16)] for a bytes object [s]: white space around the literal,
    a sign, the prefix [0x] and single underscores between digits are
    accepted; anything else raises [ValueError]. *)
Definition py_int16 (s : bytes) : result Z :=
  let s := skip_space s in
  let '(sign, s) := strip_sign s in
  let s := strip_hex_prefix s in
  match scan_digits 16 s false 0 with
  | None => Raise ValueError_InvalidLiteral
  | Some (v, rest) =>
    if match s with u :: _ => is_underscore u | [] => false end
    then Raise ValueError_InvalidLiteral
    else if Nat.eqb (length rest) (length s)
    then Raise ValueError_InvalidLiteral
    else if is_nil (skip_space rest) then Ok (sign * v)
    else Raise ValueError_InvalidLiteral
  end.

(* ===================================================================== *)
(** * CPIO extraction                                                     *)
(* ===================================================================== *)

(** [f.read(n)] on a binary file with content [content] at position [pos]:
    the bytes read and the new position. [read(-1)] reads to the end of
    the file, a length below -1 raises [ValueError]. *)
Definition f_read (content : bytes) (pos n : Z) : result (bytes * Z) :=
  if n <? -1 then Raise ValueError_ReadLength
  else
    let chunk := if n <? 0 then py_slice_from content pos
                 else py_slice content pos (pos + n) in
    Ok (chunk, pos + py_len chunk).

(** [stat.S_ISDIR] and [stat.S_ISLNK]; the mode is converted to an unsigned
    integer first, which fails on a negative one. *)
Definition S_IFMT (mode : Z) : Z := Z.land mode 61440.

Definition S_ISDIR (mode : Z) : result bool :=
  if mode <? 0 then Raise OverflowError else Ok (S_IFMT mode =? 16384).

Definition S_ISLNK (mode : Z) : result bool :=
  if mode <? 0 then Raise OverflowError else Ok (S_IFMT mode =? 40960).

Record cpio_header := {
  c_inode : Z; c_mode : Z; c_uid : Z; c_gid : Z; c_nlink : Z; c_mtime : Z;
  c_filesize : Z; c_devmajor : Z; c_devminor : Z; c_rdevmajor : Z;
  c_rdevminor : Z; c_namesize : Z; c_check : Z
}.

(** The thirteen [int(header[a:b], 16)] of the loop body, in their order. *)
Definition parse_cpio_fields (header : bytes) : result cpio_header :=
  do inode <- py_int16 (py_slice header 6 14);
  do mode <- py_int16 (py_slice header 14 22);
  do uid <- py_int16 (py_slice header 22 30);
  do gid <- py_int16 (py_slice header 30 38);
  do nlink <- py_int16 (py_slice header 38 46);
  do mtime <- py_int16 (py_slice header 46 54);
  do filesize <- py_int16 (py_slice header 54 62);
  do devmajor <- py_int16 (py_slice header 62 70);
  do devminor <- py_int16 (py_slice header 70 78);
  do rdevmajor <- py_int16 (py_slice header 78 86);
  do rdevminor <- py_int16 (py_slice header 86 94);
  do namesize <- py_int16 (py_slice header 94 102);
  do check <- py_int16 (py_slice header 102 110);
  Ok {| c_inode := inode; c_mode := mode; c_uid := uid; c_gid := gid;
        c_nlink := nlink; c_mtime := mtime; c_filesize := filesize;
        c_devmajor := devmajor; c_devminor := devminor;
        c_rdevmajor := rdevmajor; c_rdevminor := rdevminor;
        c_namesize := namesize; c_check := check |}.

(** [full_path = os.path.join(dest_dir, filename.lstrip('/'))] *)
Definition full_path_of (dest_dir filename : str) : str :=
  os_path_join dest_dir (lstrip SEP filename).

(** The statements of the loop body after [full_path] is known: what is
    created for the entry, and the position of the file afterwards. The
    branch of the symlink is entered with [filesize = 0] only, so that
    its target is empty, a target that [os.symlink] refuses; and a name
    that is empty or ends with a separator gives a [full_path] that
    [open] refuses. Both calls are recorded here as the code issues
    them. *)
Definition materialize (content : bytes) (pos : Z) (mode filesize : Z)
           (full_path : str) : result (Z * trace) :=
  if filesize =? 0 then
    do isdir <- S_ISDIR mode;
    if isdir then Ok (pos, [Fs (Makedirs full_path)])
    else
      do islnk <- S_ISLNK mode;
      if islnk then
        do r <- f_read content pos filesize;
        let '(raw, pos) := r in
        do link_target <- utf8_decode Ignore raw;
        let pad := (4 - (filesize mod 4)) mod 4 in
        do r <- f_read content pos pad;
        let '(_, pos) := r in
        Ok (pos, [Fs (Symlink link_target full_path)])
      else
        Ok (pos, [Fs (Makedirs (os_path_dirname full_path));
                  Fs (WriteFile full_path [])])
  else
    do r <- f_read content pos filesize;
    let '(data, pos) := r in
    let pad := (4 - (filesize mod 4)) mod 4 in
    do r <- f_read content pos pad;
    let '(_, pos) := r in
    Ok (pos, [Fs (Makedirs (os_path_dirname full_path));
              Fs (WriteFile full_path data)]).

(** Why the [while True] loop was left by a [break]. *)
Inductive stop :=
| ShortHeader        (* fewer than 110 bytes were left for a header *)
| UnexpectedMagic    (* the magic is neither 070701 nor 070702 *)
| Trailer.           (* the name is TRAILER!!! *)

(** One iteration of the loop: it goes on at a new position, leaves the
    loop by [break], or is left by an exception; with the events of the
    iteration. *)
Inductive step_result :=
| Continue (pos : Z) (evs : trace)
| Break (why : stop) (evs : trace)
| Abort (e : exn) (evs : trace).

Definition TRAILER : str := str_lit "TRAILER!!!".

(** The part of the loop body that follows the check of the magic. *)
Definition cpio_entry (content : bytes) (dest_dir : str) (header : bytes)
           (pos : Z) : result (stop + Z * trace) :=
  do h <- parse_cpio_fields header;
  let mode := c_mode h in
  let filesize := c_filesize h in
  let namesize := c_namesize h in
  do r <- f_read content pos namesize;
  let '(filename_raw, pos) := r in
  let padding := (4 - (namesize mod 4)) mod 4 in
  do r <- f_read content pos padding;
  let '(_, pos) := r in
  do filename <- utf8_decode Ignore (rstrip NUL filename_raw);
  if str_eqb filename TRAILER then Ok (inl Trailer)
  else
    let full_path := full_path_of dest_dir filename in
    do r <- materialize content pos mode filesize full_path;
    Ok (inr r).

(** The body of the [while True] loop of [extract_cpio]. *)
Definition cpio_step (content : bytes) (dest_dir : str) (pos : Z)
  : step_result :=
  match f_read content pos 110 with
  | Raise e => Abort e []
  | Ok (header, pos) =>
    if py_len header <? 110 then Break ShortHeader []
    else
      match ascii_decode (py_slice header 0 6) with
      | Raise e => Abort e []
      | Ok magic =>
        if negb (str_eqb magic (str_lit "070701")
                 || str_eqb magic (str_lit "070702"))
        then Break UnexpectedMagic
                   [Log (Warn_UnexpectedCpioMagic magic (pos - 110))]
        else
          match cpio_entry content dest_dir header pos with
          | Raise e => Abort e []
          | Ok (inl why) => Break why []
          | Ok (inr (pos, evs)) => Continue pos evs
          end
      end
  end.

(** How the loop ends: by a [break], by an exception, or not within the
    given number of iterations. *)
Inductive loop_outcome :=
| Stopped (why : stop) (tr : trace)
| LoopRaised (e : exn) (tr : trace)
| OutOfFuel.

(** The [while True] loop, for at most [fuel] iterations; [tr] holds the
    events of the iterations already done. *)
Fixpoint cpio_loop (fuel : nat) (content : bytes) (dest_dir : str)
         (pos : Z) (tr : trace) : loop_outcome :=
  match fuel with
  | O => OutOfFuel
  | S fuel' =>
    match cpio_step content dest_dir pos with
    | Continue pos' evs => cpio_loop fuel' content dest_dir pos' (tr ++ evs)
    | Break why evs => Stopped why (tr ++ evs)
    | Abort e evs => LoopRaised e (tr ++ evs)
    end
  end.

(** Every iteration that goes on has read a header of 110 bytes, so one
    more iteration than the file has bytes is never reached. *)
Definition cpio_fuel (content : bytes) : nat := S (length content).

(** How a call returns: normally or by an exception, with its events. *)
Inductive outcome (A : Type) :=
| Returned (a : A) (tr : trace)
| Raised (e : exn) (tr : trace)
| Diverged.
Arguments Returned {A} a tr.
Arguments Raised {A} e tr.
Arguments Diverged {A}.

Definition GZIP_MAGIC : bytes := [x1f; x8b].

Section Extract.

(** [gzip.open(cpio_file, 'rb').read()]: the inflated data, or [None]
    when it raises. *)
Variable gzip_decompress : bytes -> option bytes.

(** The second [with open(cpio_file, 'rb')] block of [extract_cpio] and
    the final log record. *)
Definition extract_cpio_data (content : bytes) (dest_dir : str)
           (tr : trace) : outcome unit :=
  match cpio_loop (cpio_fuel content) content dest_dir 0 tr with
  | Stopped _ tr => Returned tt (tr ++ [Log (Info_ExtractedCpio dest_dir)])
  | LoopRaised e tr => Raised e tr
  | OutOfFuel => Diverged
  end.

(** [extract_cpio(cpio_file, dest_dir)], where [cpio_file] is given by
    the content of the file of that name, [None] when there is no such
    regular file. *)
Definition extract_cpio (cpio_file : option bytes) (dest_dir : str)
  : outcome unit :=
  match cpio_file with
  | None => Raised FileNotFoundError []
  | Some raw =>
    let tr := [Fs (Makedirs dest_dir)] in
    let magic := py_slice raw 0 2 in
    if bytes_eqb magic GZIP_MAGIC then
      let tr := tr ++ [Log Info_CpioGzipped] in
      match gzip_decompress raw with
      | Some data =>
        let temp_cpio :=
          os_path_join (os_path_dirname dest_dir)
                       (str_lit "ramdisk_decompressed.cpio") in
        extract_cpio_data data dest_dir (tr ++ [Fs (WriteFile temp_cpio data)])
      | None => Returned tt (tr ++ [Log Error_GzipFailed])
      end
    else extract_cpio_data raw dest_dir tr
  end.

(** ** DeviceInfo._extract_from_image *)

(** [entry.name or entry.type_str] *)
Definition ramdisk_label (entry : VendorRamdiskEntry) : str :=
  if is_nil (name entry) then type_str entry else name entry.

Definition ramdisk_dir (work_dir : str) (entry : VendorRamdiskEntry) : str :=
  os_path_join work_dir (str_lit "ramdisk_" ++ ramdisk_label entry).

Definition ramdisk_cpio (work_dir : str) (entry : VendorRamdiskEntry) : str :=
  os_path_join work_dir
               (str_lit "ramdisk_" ++ ramdisk_label entry ++ str_lit ".cpio").

(** The truth value of [self.recovery_ramdisk_dir], which is [None] or
    a string. *)
Definition truthy (o : option str) : bool :=
  match o with
  | Some (_ :: _) => true
  | _ => false
  end.

(** The [for entry in self.entries] loop; [recovery_ramdisk_dir] is the
    attribute of that name. The write of the archive is recorded as the
    code issues it; [open] refuses it when the label of the entry holds
    NUL, or a separator after a directory that is not there. *)
Fixpoint extract_entries (work_dir : str) (data : bytes)
         (entries : list VendorRamdiskEntry)
         (recovery_ramdisk_dir : option str) (tr : trace)
  : outcome (option str) :=
  match entries with
  | [] => Returned recovery_ramdisk_dir tr
  | entry :: rest =>
    let cpio_file := ramdisk_cpio work_dir entry in
    let content := py_slice data (offset entry) (offset entry + size entry) in
    let tr := tr ++ [Fs (WriteFile cpio_file content)] in
    let dest_dir := ramdisk_dir work_dir entry in
    match extract_cpio (Some content) dest_dir with
    | Returned _ tr' =>
      extract_entries work_dir data rest
        (if type entry =? VENDOR_RAMDISK_TYPE_RECOVERY
         then Some dest_dir else recovery_ramdisk_dir)
        (tr ++ tr')
    | Raised e tr' => Raised e (tr ++ tr')
    | Diverged => Diverged
    end
  end.

(** [DeviceInfo._extract_from_image], up to the call of [_post_extract];
    the value returned is [self.recovery_ramdisk_dir]. *)
Definition _extract_from_image (work_dir : str) (h : VendorBootHeader)
           (entries : list VendorRamdiskEntry) : outcome str :=
  let tr :=
    if dtb_size h >? 0 then
      let dtb_offset := get_dtb_offset h in
      let dtb_data := py_slice (data h) dtb_offset (dtb_offset + dtb_size h) in
      let dtb_path := os_path_join work_dir (str_lit "dtb.img") in
      [Fs (WriteFile dtb_path dtb_data); Log Info_DtbExtracted]
    else [] in
  match extract_entries work_dir (data h) entries None tr with
  | Returned recovery_ramdisk_dir tr =>
    let '(recovery_ramdisk_dir, tr) :=
      match entries with
      | first :: _ =>
        if negb (truthy recovery_ramdisk_dir)
        then (Some (ramdisk_dir work_dir first),
              tr ++ [Log Warn_NoDedicatedRecovery])
        else (recovery_ramdisk_dir, tr)
      | [] => (recovery_ramdisk_dir, tr)
      end in
    match recovery_ramdisk_dir with
    | Some (c :: d) => Returned (c :: d) tr
    | _ => Raised RuntimeError_NoRecoveryRamdisk tr
    end
  | Raised e tr => Raised e tr
  | Diverged => Diverged
  end.

End Extract.

(* ===================================================================== *)
(** * Touch patch                                                         *)
(* ===================================================================== *)

Fixpoint starts_with (sub s : bytes) : bool :=
  match sub, s with
  | [], _ => true
  | x :: sub', y :: s' => byte_eqb x y && starts_with sub' s'
  | _ :: _, [] => false
  end.

(** The lowest index at which [sub] occurs in [s], where [i] is the index
    of the head of [s]; -1 when there is none. *)
Fixpoint find_at (sub s : bytes) (i : Z) : Z :=
  if starts_with sub s then i
  else match s with
       | [] => -1
       | _ :: r => find_at sub r (i + 1)
       end.

(** [s.find(sub, start)] *)
Definition bytes_find (s sub : bytes) (start : Z) : Z :=
  let start := if start <? 0 then Z.max 0 (start + py_len s) else start in
  if py_len s - start <? py_len sub then -1
  else find_at sub (drop (Z.to_nat start) s) start.

(** The highest index at which [sub] occurs in [s], where [i] is the
    index of the head of [s]; -1 when there is none. *)
Fixpoint rfind_at (sub s : bytes) (i : Z) : Z :=
  match s with
  | [] => if starts_with sub [] then i else -1
  | _ :: r =>
    let j := rfind_at sub r (i + 1) in
    if j =? -1 then (if starts_with sub s then i else -1) else j
  end.

(** [s.rfind(sub)] *)
Definition bytes_rfind (s sub : bytes) : Z := rfind_at sub s 0.

Definition pattern1_old : bytes := [x60; x00; x00; x54; x40; x00].
Definition pattern1_new : bytes := [x60; x00; x00; x54; x00; x00].
Definition pattern2_old : bytes := [x20; x00; x80; x52].
Definition pattern2_new : bytes := [x00; x00; x80; x52].

Record patch_result := {
  new_data : bytes;
  modified : bool;
  patch_log : list log_record
}.

(** The statements of [patch_adaptive_ts] between the reading of the file
    and the test of [modified]. *)
Definition patch_data (data : bytes) : patch_result :=
  let modified := false in
  let new_data := data in
  let last_pos := bytes_rfind new_data pattern1_old in
  let '(new_data, modified, search_start, log1) :=
    if negb (last_pos =? -1) then
      (py_slice_to new_data last_pos ++ pattern1_new
         ++ py_slice_from new_data (last_pos + py_len pattern1_old),
       true,
       last_pos + py_len pattern1_new,
       [Info_FoundPattern1 last_pos])
    else (new_data, modified, 0, [Warn_Pattern1NotFound]) in
  let '(new_data, modified, log2) :=
    if search_start <? py_len new_data then
      let pos2 := bytes_find new_data pattern2_old search_start in
      if negb (pos2 =? -1) then
        (py_slice_to new_data pos2 ++ pattern2_new
           ++ py_slice_from new_data (pos2 + py_len pattern2_old),
         true,
         [Info_FoundPattern2 pos2])
      else (new_data, modified, [Warn_Pattern2NotFound])
    else (new_data, modified, [Warn_SearchStartBeyondEnd]) in
  {| new_data := new_data; modified := modified; patch_log := log1 ++ log2 |}.

(** [patch_adaptive_ts(module_path)] on a store [fs] of regular files:
    the store afterwards and the events. *)
Definition patch_adaptive_ts (fs : gmap str bytes) (module_path : str)
  : gmap str bytes * trace :=
  match fs !! module_path with
  | None => (fs, [Log (Warn_ModuleNotFound module_path)])
  | Some data =>
    let r := patch_data data in
    if modified r then
      (<[module_path := new_data r]> fs,
       map Log (patch_log r)
         ++ [Fs (WriteFile module_path (new_data r)); Log Info_Patched])
    else
      (fs, map Log (patch_log r) ++ [Log Info_NoModifications])
  end.

(* ===================================================================== *)
(** * Vocabulary of the statements                                        *)
(* ===================================================================== *)

(** ** Ramdisk table *)

Definition is_recovery (e : VendorRamdiskEntry) : bool :=
  type e =? VENDOR_RAMDISK_TYPE_RECOVERY.

(** The first entry of type recovery, else the first entry. *)
Definition first_recovery_or_first (entries : list VendorRamdiskEntry)
  : option VendorRamdiskEntry :=
  match find is_recovery entries with
  | Some e => Some e
  | None => head entries
  end.

(** The last entry of type recovery, else the first entry. *)
Definition last_recovery_or_first (entries : list VendorRamdiskEntry)
  : option VendorRamdiskEntry :=
  match find is_recovery (rev entries) with
  | Some e => Some e
  | None => head entries
  end.

(** ** Containment of paths *)

(** [p.split('/')], where [cur] is the component being read. *)
Fixpoint split_sep_from (cur s : str) : list str :=
  match s with
  | [] => [cur]
  | c :: r =>
    if c =? SEP then cur :: split_sep_from [] r
    else split_sep_from (cur ++ [c]) r
  end.

Definition split_sep (s : str) : list str := split_sep_from [] s.

Definition DOT : str := str_lit ".".
Definition DOTDOT : str := str_lit "..".

(** One component in the normalisation of a path, as [os.path.normpath]
    does it: empty components and [.] are dropped, [..] removes the
    component before it, stays at the root of an absolute path, and is
    kept at the start of a relative one. *)
Definition norm_step (absolute : bool) (comps : list str) (comp : str)
  : list str :=
  if str_eqb comp [] || str_eqb comp DOT then comps
  else if negb (str_eqb comp DOTDOT)
          || (negb absolute && is_nil comps)
          || match last comps with
             | Some c => str_eqb c DOTDOT
             | None => false
             end
  then comps ++ [comp]
  else removelast comps.

Definition norm_comps (p : str) : list str :=
  fold_left (norm_step (startswith_sep p)) (split_sep p) [].

Fixpoint comps_prefix (a b : list str) : bool :=
  match a, b with
  | [], _ => true
  | x :: a', y :: b' => str_eqb x y && comps_prefix a' b'
  | _ :: _, [] => false
  end.

(** [p] names [root] or a place below it, once both are normalised. *)
Definition path_inside (root p : str) : bool :=
  Bool.eqb (startswith_sep root) (startswith_sep p)
  && comps_prefix (norm_comps root) (norm_comps p).

(** ** Occurrences of a pattern *)

(** [sub] occurs in [s] at index [i]. *)
Definition occurs_at (sub s : bytes) (i : nat) : Prop :=
  take (length sub) (drop i s) = sub.

Definition last_occurrence (sub s : bytes) (i : nat) : Prop :=
  occurs_at sub s i /\ forall k, (i < k)%nat -> ~ occurs_at sub s k.

Definition first_occurrence_from (sub s : bytes) (cursor i : nat) : Prop :=
  (cursor <= i)%nat /\ occurs_at sub s i /\
  forall k, (cursor <= k < i)%nat -> ~ occurs_at sub s k.

(** The bytes of [s] with those at [i, i + length new) replaced by [new]. *)
Definition replace_at (s : bytes) (i : nat) (new : bytes) : bytes :=
  take i s ++ new ++ drop (i + length new) s.

(** The search cursor of the second step: right after the last occurrence
    of pattern 1, or 0 when there is none. *)
Definition cursor_after_pattern1 (data : bytes) (cursor : nat) : Prop :=
  (exists i, last_occurrence pattern1_old data i
             /\ cursor = (i + length pattern1_new)%nat)
  \/ ((forall i, ~ occurs_at pattern1_old data i) /\ cursor = 0%nat).

(** ** Sample inputs *)

Definition byte_of (v : Z) : byte :=
  match Byte.of_N (Z.to_N (v mod 256)) with
  | Some b => b
  | None => x00
  end.

Definition le32 (v : Z) : bytes :=
  [byte_of v; byte_of (v / 256); byte_of (v / 65536); byte_of (v / 16777216)].

Definition pad_to (n : nat) (bs : bytes) : bytes :=
  bs ++ repeat x00 (n - length bs).

(** A vendor_boot header with the given sizes and texts. *)
Definition sample_header (ramdisk_total hdr_size dtb n_entries bootconfig : Z)
           (cmdline product : bytes) : bytes :=
  BOOT_MAGIC_VENDOR_BOOT ++ le32 4 ++ le32 4096 ++ le32 0 ++ le32 0
    ++ le32 ramdisk_total ++ pad_to 2048 cmdline ++ le32 0
    ++ pad_to 64 product ++ le32 hdr_size ++ le32 dtb ++ le32 0 ++ le32 0
    ++ le32 (n_entries * 76) ++ le32 n_entries ++ le32 bootconfig.

(** An entry of the ramdisk table. *)
Definition sample_entry (size offset type : Z) (name : bytes) : bytes :=
  le32 size ++ le32 offset ++ le32 type ++ pad_to 32 name ++ repeat xab 32.

(** A record of a cpio archive: the header with the given mode, file size
    and name size, then the bytes that follow it. *)
Definition cpio_record (mode filesize namesize : string) (rest : bytes)
  : bytes :=
  bytes_lit "070701" ++ bytes_lit "00000001" ++ bytes_lit mode
    ++ bytes_lit "00000000" ++ bytes_lit "00000000" ++ bytes_lit "00000001"
    ++ bytes_lit "00000000" ++ bytes_lit filesize ++ bytes_lit "00000000"
    ++ bytes_lit "00000000" ++ bytes_lit "00000000" ++ bytes_lit "00000000"
    ++ bytes_lit namesize ++ bytes_lit "00000000" ++ rest.

Definition cpio_trailer : bytes :=
  cpio_record "00000000" "00000000" "0000000B"
              (bytes_lit "TRAILER!!!" ++ [x00; x00]).

(** An image with a table of two recovery ramdisks, [first] and [second],
    both empty. *)
Definition image_two_recovery : bytes :=
  sample_header 0 2172 0 2 0 (bytes_lit "console=ttyS0") (bytes_lit "X6885")
    ++ sample_entry 0 0 2 (bytes_lit "first")
    ++ sample_entry 0 0 2 (bytes_lit "second").

(** An image whose command line holds the ill-formed byte 0xFF. *)
Definition image_bad_cmdline : bytes :=
  sample_header 0 2172 0 0 0 [x61; xff; x62] (bytes_lit "X6885").

(** An image of 2272 bytes whose header places the DTB of 16 bytes at
    offset 2172 + 84, and one that promises more ramdisk bytes than the
    buffer holds. *)
Definition image_dtb_fits : bytes :=
  sample_header 84 2172 16 0 0 [] [] ++ repeat x11 84 ++ repeat x22 16.

Definition image_dtb_clamped : bytes :=
  sample_header 4096 2172 16 0 0 [] [] ++ repeat x11 84 ++ repeat x22 16.

(** An image of 2172 bytes, the header alone, which announces a DTB of
    3000 bytes. *)
Definition image_dtb_too_large : bytes :=
  sample_header 0 2172 3000 0 0 [] [].

(** An image with a table of three entries, and the same without its last
    byte. *)
Definition image_three_entries : bytes :=
  sample_header 0 2172 0 3 0 [] []
    ++ sample_entry 1 0 1 (bytes_lit "platform")
    ++ sample_entry 2 1 2 (bytes_lit "recovery")
    ++ sample_entry 3 3 7 (bytes_lit "other").

Definition image_three_entries_cut : bytes := removelast image_three_entries.

(** An archive with the file [../../etc/passwd], and one with the
    absolute name [/etc/passwd]. *)
Definition archive_dotdot : bytes :=
  cpio_record "000081A4" "00000004" "00000011"
              (bytes_lit "../../etc/passwd" ++ [x00; x00; x00; x00]
               ++ bytes_lit "root")
    ++ cpio_trailer.

Definition archive_absolute : bytes :=
  cpio_record "000081A4" "00000004" "0000000C"
              (bytes_lit "/etc/passwd" ++ [x00] ++ bytes_lit "root")
    ++ cpio_trailer.

(** The archive of the specification: a directory, a file of two bytes, a
    symlink [dir/link] to [hi.txt], and the trailer. *)
Definition archive_with_symlink : bytes :=
  cpio_record "000041ED" "00000000" "00000004" (bytes_lit "dir" ++ [x00])
    ++ cpio_record "000081A4" "00000002" "0000000B"
         (bytes_lit "dir/hi.txt" ++ [x00; x00] ++ bytes_lit "hi" ++ [x00; x00])
    ++ cpio_record "0000A1FF" "00000006" "00000009"
         (bytes_lit "dir/link" ++ [x00; x00; x00; x00]
          ++ bytes_lit "hi.txt" ++ [x00; x00])
    ++ cpio_trailer.

(** An archive whose second record has an unknown magic. *)
Definition archive_bad_magic : bytes :=
  cpio_record "000041ED" "00000000" "00000004" (bytes_lit "dir" ++ [x00])
    ++ bytes_lit "07070X" ++ repeat x30 104.

(** No gzip support is needed for the sample inputs. *)
Definition no_gzip (raw : bytes) : option bytes := None.

(** ** Decoding of text and of archives *)

(** The text of a fixed-width field as the specification words it:
    trailing NUL bytes stripped, ill-formed sequences replaced. *)
Definition text_field_replaced (region : bytes) : result str :=
  utf8_decode Replace (rstrip NUL region).

(** A byte that cannot start a UTF-8 sequence. *)
Definition invalid_start (c : byte) : Prop :=
  128 <= byte_val c < 194 \/ 245 <= byte_val c.

(** The magic tags that [extract_cpio] accepts. *)
Definition recognized_magic (magic : str) : bool :=
  str_eqb magic (str_lit "070701") || str_eqb magic (str_lit "070702").

(** The iterations of the loop of [extract_cpio] that go on: from the
    position [pos], with the events [tr] recorded so far, the loop comes
    to the position [pos'] with the events [tr']. *)
Inductive loop_reaches (content : bytes) (dest_dir : str)
  : Z -> trace -> Z -> trace -> Prop :=
| reaches_here pos tr : loop_reaches content dest_dir pos tr pos tr
| reaches_next pos tr pos1 evs pos' tr' :
    cpio_step content dest_dir pos = Continue pos1 evs ->
    loop_reaches content dest_dir pos1 (tr ++ evs) pos' tr' ->
    loop_reaches content dest_dir pos tr pos' tr'.

(** The name of the record whose header starts at [pos], as the loop
    body gets it: [namesize] bytes after the 110 bytes of the header,
    without their trailing NUL bytes, decoded. *)
Definition record_name (content : bytes) (pos : Z) : result str :=
  do h <- parse_cpio_fields (py_slice content pos (pos + 110));
  do r <- f_read content (pos + 110) (c_namesize h);
  utf8_decode Ignore (rstrip NUL (fst r)).

(** The archive of an entry of the table is extracted without an
    exception. *)
Definition extracts_cleanly (gzip_decompress : bytes -> option bytes)
           (data : bytes) (work_dir : str) (e : VendorRamdiskEntry) : Prop :=
  exists tr,
    extract_cpio gzip_decompress
                 (Some (py_slice data (offset e) (offset e + size e)))
                 (ramdisk_dir work_dir e)
    = Returned tt tr.

Definition is_symlink_op (op : fs_op) : bool :=
  match op with
  | Symlink _ _ => true
  | _ => false
  end.

(** An archive that ends after its only record, without a trailer. *)
Definition archive_no_trailer : bytes :=
  cpio_record "000041ED" "00000000" "00000004" (bytes_lit "dir" ++ [x00]).

(** An archive whose magic holds a byte that is not ASCII. *)
Definition archive_magic_not_ascii : bytes :=
  [x30; x37; x30; x37; x30; xff] ++ repeat x30 104.

(** ** Replaced spans *)

(** [s] with [new] written at the index [o], if there is one. *)
Definition replace_opt (o : option nat) (new s : bytes) : bytes :=
  match o with
  | Some i => replace_at s i new
  | None => s
  end.

(** The index [k] lies in the span of [n] bytes that starts at [o]. *)
Definition in_span (o : option nat) (n k : nat) : Prop :=
  match o with
  | Some i => (i <= k < i + n)%nat
  | None => False
  end.

(** One of the two replacements of [patch_adaptive_ts] takes place on
    [data]: pattern 1 occurs, or pattern 2 occurs at or after the cursor. *)
Definition replacement_occurs (data : bytes) : Prop :=
  (exists i, occurs_at pattern1_old data i)
  \/ (exists cursor j, cursor_after_pattern1 data cursor
                       /\ (cursor <= j)%nat /\ occurs_at pattern2_old data j).

(** A blob with pattern 1 at 1 and at 11 and pattern 2 at 7, 17 and 22. *)
Definition blob_two_pattern1 : bytes :=
  [x01] ++ pattern1_old ++ pattern2_old ++ pattern1_old
        ++ pattern2_old ++ [x02] ++ pattern2_old.

(** A blob without either pattern. *)
Definition blob_plain : bytes := [x7f; x45; x4c; x46; x02; x01; x01; x00].

(** The cursor that follows the replacement of pattern 1 at [o1]. *)
Definition cursor_of (o1 : option nat) : nat :=
  match o1 with
  | Some i => (i + length pattern1_new)%nat
  | None => 0%nat
  end.

(** A store with the blobs above. *)
Definition sample_store : gmap (list Z) (list byte) :=
  <[str_lit "adaptive-ts.ko" := blob_two_pattern1]>
    (<[str_lit "plain.ko" := blob_plain]> ∅).

(* ===================================================================== *)
(** * Further functions of the script                                     *)
(* ===================================================================== *)

(** [parse_vendor_boot(img_path)], where [img_path] is given by the content
    of the file, [None] when it cannot be opened: the header, the entries
    and the data of the dictionary returned. *)
Definition parse_vendor_boot (img_path : option bytes)
  : result (VendorBootHeader * list VendorRamdiskEntry * bytes) :=
  match img_path with
  | None => Raise FileNotFoundError
  | Some data =>
    do header <- VendorBootHeader_init data;
    do entries <- get_ramdisk_entries header;
    Ok (header, entries, data)
  end.

(** ** Vocabulary of the further statements *)

(** A character of [0-9a-f]. *)
Definition is_lower_hex (c : Z) : bool :=
  ((48 <=? c) && (c <=? 57)) || ((97 <=? c) && (c <=? 102)).

(** A byte that is a hexadecimal digit, and the value of a text of such
    digits. *)
Definition is_hex_digit (b : byte) : bool := digit_value b <? 16.

Definition hex_value (s : bytes) : Z :=
  fold_left (fun acc b => acc * 16 + digit_value b) s 0.

(** A Unicode scalar value: a code point that is no surrogate. *)
Definition is_scalar (c : Z) : Prop :=
  0 <= c < 55296 \/ 57344 <= c <= 1114111.

(** [n] rounded up to a multiple of 4, as the padding of [extract_cpio]
    does it. *)
Definition roundup4 (n : Z) : Z := n + (4 - (n mod 4)) mod 4.

(** An image with one recovery ramdisk, at offset 2248, whose archive has
    a magic that is not ASCII. *)
Definition image_bad_ramdisk : bytes :=
  sample_header 110 2172 0 1 0 [] []
    ++ sample_entry 110 2248 2 (bytes_lit "bad")
    ++ archive_magic_not_ascii.

(** [s] with the byte at [i + d] set to NUL, if there is an index [i]. *)
Definition clear_byte (o : option nat) (d : nat) (s : bytes) : bytes :=
  match o with
  | Some i => <[(i + d)%nat := x00]> s
  | None => s
  end.

(* ===================================================================== *)
(** * Property files                                                      *)
(* ===================================================================== *)

(** ** Text *)

(** [c.isspace()] for one character: the white space of Unicode, which
    [str.strip()] removes. *)
Definition isspace (c : Z) : bool :=
  ((9 <=? c) && (c <=? 13)) || ((28 <=? c) && (c <=? 32))
  || (c =? 133) || (c =? 160) || (c =? 5760)
  || ((8192 <=? c) && (c <=? 8202))
  || (c =? 8232) || (c =? 8233) || (c =? 8239) || (c =? 8287)
  || (c =? 12288).

Fixpoint lstrip_ws (s : str) : str :=
  match s with
  | c :: r => if isspace c then lstrip_ws r else s
  | [] => []
  end.

Definition rstrip_ws (s : str) : str :=
  fold_right (fun c acc => if isspace c && is_nil acc then [] else c :: acc)
             [] s.

(** [s.strip()] *)
Definition str_strip (s : str) : str := rstrip_ws (lstrip_ws s).

(** [s.startswith(prefix)] *)
Fixpoint str_startswith (prefix s : str) : bool :=
  match prefix, s with
  | [], _ => true
  | x :: p, y :: r => (x =? y) && str_startswith p r
  | _ :: _, [] => false
  end.

(** [s.endswith(suffix)] *)
Definition str_endswith (suffix s : str) : bool :=
  (length suffix <=? length s)%nat
  && str_eqb (drop (length s - length suffix) s) suffix.

(** [s.split(c, 1)] for a string that holds [c]: the parts before and
    after the first [c]; [None] when [c not in s]. *)
Fixpoint split_first (c : Z) (s : str) : option (str * str) :=
  match s with
  | [] => None
  | x :: r =>
    if x =? c then Some ([], r)
    else match split_first c r with
         | Some (a, b) => Some (x :: a, b)
         | None => None
         end
  end.

Definition LF : Z := 10.
Definition CR : Z := 13.

(** The translation of line ends of a file opened in text mode with the
    default [newline=None]: [\r\n] and [\r] become [\n]. *)
Fixpoint translate_newlines (s : str) : str :=
  match s with
  | [] => []
  | c :: r =>
    if c =? CR then
      LF :: match r with
            | d :: r' => if d =? LF then translate_newlines r'
                         else translate_newlines r
            | [] => []
            end
    else c :: translate_newlines r
  end.

(** The lines that [for line in f] yields: each with its [\n], the last
    one without when the text does not end with [\n]. *)
Fixpoint text_lines (s : str) : list str :=
  match s with
  | [] => []
  | c :: r =>
    if c =? LF then [LF] :: text_lines r
    else match text_lines r with
         | [] => [[c]]
         | l :: ls => (c :: l) :: ls
         end
  end.

(** ** parse_prop_file *)

Definition HASH : Z := 35.
Definition EQUALS : Z := 61.

(** The body of the loop of [parse_prop_file] on one line. *)
Definition prop_line (props : gmap str str) (line : str) : gmap str str :=
  let line := str_strip line in
  if is_nil line || str_startswith [HASH] line then props
  else
    match split_first EQUALS line with
    | Some (key, value) => <[str_strip key := str_strip value]> props
    | None => props
    end.

(** [parse_prop_file(prop_path)], where [prop_path] is given by the
    content of the file, [None] when it is no regular file. *)
Definition parse_prop_file (prop_path : option bytes) : result (gmap str str) :=
  match prop_path with
  | None => Ok ∅
  | Some content =>
    do text <- utf8_decode Ignore content;
    Ok (fold_left prop_line (text_lines (translate_newlines text)) ∅)
  end.

(** ** collect_all_props *)

(** The records that the functions below pass to the logger. *)
Inductive post_log :=
| Info_CollectedProperties (n : Z)
| Info_ManualDeviceName (name : str)
| Error_NoDeviceName.

(** The test on the name of a file in [collect_all_props]. *)
Definition is_prop_name (file : str) : bool :=
  str_endswith (str_lit ".prop") file
  || (str_eqb file (str_lit "build.prop")
      || str_eqb file (str_lit "default.prop")).

Section CollectProps.

(** [read path] is the content of the regular file [path], [None] when
    there is no such regular file. *)
Variable read : str -> option bytes.

(** The loop over the files of one directory. *)
Fixpoint collect_files (root : str) (files : list str)
         (all_props : gmap str str) : result (gmap str str) :=
  match files with
  | [] => Ok all_props
  | file :: rest =>
    if is_prop_name file then
      let path := os_path_join root file in
      do props <- parse_prop_file (read path);
      collect_files root rest (props ∪ all_props)
    else collect_files root rest all_props
  end.

(** The loop over what [os.walk] yields: the directories in the order of
    the walk, each with the names of its files. *)
Fixpoint collect_walk (walk : list (str * list str))
         (all_props : gmap str str) : result (gmap str str) :=
  match walk with
  | [] => Ok all_props
  | (root, files) :: rest =>
    do all_props <- collect_files root files all_props;
    collect_walk rest all_props
  end.

(** [collect_all_props(base_dir)], where [base_dir] is given by what
    [os.walk(base_dir)] yields, [None] when it is no directory. *)
Definition collect_all_props (base_dir : option (list (str * list str)))
  : result (gmap str str * list post_log) :=
  match base_dir with
  | None => Ok (∅, [])
  | Some walk =>
    do all_props <- collect_walk walk ∅;
    Ok (all_props, [Info_CollectedProperties (Z.of_nat (base.size all_props))])
  end.

End CollectProps.

(** ** detect_platform *)

(** [detect_platform(board_name)], where [board_name] is [None] or a
    string. *)
Definition detect_platform (board_name : option str) : str :=
  match board_name with
  | Some (c :: r) =>
    let board_name := c :: r in
    if str_startswith (str_lit "mt") board_name then str_lit "mtk"
    else if str_startswith (str_lit "sdm") board_name
            || str_startswith (str_lit "sm") board_name
         then str_lit "qcom"
         else str_lit "unknown"
  | _ => str_lit "unknown"
  end.

(** ** The names that _post_extract sets *)

(** What ends [_post_extract] before it returns. *)
Inductive post_exn :=
| AttributeError_header_props   (* the object has no attribute header_props *)
| SystemExit (code : Z).

(** The attributes that [_post_extract] sets from the properties. *)
Record naming := {
  device_name : str;
  codename : str;
  board_name : str;
  manufacturer : str;
  platform : str;
  arch : str
}.

Definition DASH : Z := 45.

(** The value of [a or b] when it is [a]: [a] is a string that is not
    empty. *)
Definition nonempty (a : option str) : option str :=
  match a with
  | Some (c :: r) => Some (c :: r)
  | _ => None
  end.

(** [a1 or a2 or ... or None] *)
Fixpoint first_nonempty (l : list (option str)) : option str :=
  match l with
  | [] => None
  | a :: r =>
    match nonempty a with
    | Some s => Some s
    | None => first_nonempty r
    end
  end.

(** [self.header_props.get(key)]; the attribute is set in the directory
    mode only. *)
Definition header_get (header_props : option (gmap str str)) (key : str)
  : post_exn + option str :=
  match header_props with
  | None => inl AttributeError_header_props
  | Some d => inr (d !! key)
  end.

(** The assignment of [self.device_name]: the name given on the
    command line, else the first of four properties that is not empty,
    else the entry [device] of the header properties, else [None]. *)
Definition find_device_name (manual_device_name : option str)
           (props : gmap str str) (header_props : option (gmap str str))
  : list post_log * (post_exn + option str) :=
  match nonempty manual_device_name with
  | Some name => ([Info_ManualDeviceName name], inr (Some name))
  | None =>
    ([],
     match first_nonempty [props !! str_lit "ro.product.system.device";
                           props !! str_lit "ro.product.vendor.device";
                           props !! str_lit "ro.product.device";
                           props !! str_lit "ro.build.product"] with
     | Some s => inr (Some s)
     | None =>
       match header_get header_props (str_lit "device") with
       | inl e => inl e
       | inr v => inr (nonempty v)
       end
     end)
  end.

(** The assignment of [self.board_name]. *)
Definition find_board_name (props : gmap str str)
           (header_props : option (gmap str str)) : post_exn + str :=
  match first_nonempty [props !! str_lit "ro.board.platform";
                        props !! str_lit "ro.product.board"] with
  | Some s => inr s
  | None =>
    match header_get header_props (str_lit "board") with
    | inl e => inl e
    | inr v =>
      inr match nonempty v with
          | Some s => s
          | None => str_lit "mt6789"
          end
    end
  end.

Section PostExtract.

(** [s.lower()] *)
Variable str_lower : str -> str.

(** The assignment of [self.manufacturer]. *)
Definition find_manufacturer (props : gmap str str) (device_name : str)
  : str :=
  str_lower
    match first_nonempty
            [props !! str_lit "ro.product.manufacturer";
             props !! str_lit "ro.product.vendor.manufacturer"] with
    | Some s => s
    | None =>
      match split_first DASH device_name with
      | Some (before, _) => before
      | None => str_lit "transsion"
      end
    end.

(** The statements of [_post_extract] from the test of
    [manual_device_name] to the assignment of [arch]; [props] is what
    [collect_all_props] returned, [header_props] the attribute of that
    name, [None] when it is not set. *)
Definition post_extract_naming (manual_device_name : option str)
           (props : gmap str str) (header_props : option (gmap str str))
  : list post_log * (post_exn + naming) :=
  let '(log1, found) :=
    find_device_name manual_device_name props header_props in
  match found with
  | inl e => (log1, inl e)
  | inr None => (log1 ++ [Error_NoDeviceName], inl (SystemExit 1))
  | inr (Some device_name) =>
    let codename :=
      match split_first DASH device_name with
      | Some (_, after) => after
      | None => device_name
      end in
    match find_board_name props header_props with
    | inl e => (log1, inl e)
    | inr board_name =>
      (log1,
       inr {| device_name := device_name;
              codename := codename;
              board_name := board_name;
              manufacturer := find_manufacturer props device_name;
              platform := detect_platform (Some board_name);
              arch := match props !! str_lit "ro.product.cpu.abi" with
                      | Some s => s
                      | None => str_lit "arm64-v8a"
                      end |})
    end
  end.

End PostExtract.

(** ** Vocabulary and sample inputs *)

(** A string without white space at its ends. *)
Definition stripped (s : str) : Prop :=
  (forall c, head s = Some c -> isspace c = false) /\
  (forall c, last s = Some c -> isspace c = false).

(** [s.lower()] on the letters of ASCII. *)
Definition ascii_lower (s : str) : str :=
  map (fun c => if (65 <=? c) && (c <=? 90) then c + 32 else c) s.

(** A property file with a comment, an empty line, blanks around the
    names and the values and a second assignment of a name. *)
Definition sample_prop_file : bytes :=
  bytes_lit "# build" ++ [x0a; x0d; x0a]
    ++ bytes_lit "  ro.product.device = X6885 " ++ [x0d; x0a]
    ++ bytes_lit "ro.board.platform=mt6789" ++ [x0a]
    ++ bytes_lit "ro.product.device=Infinix-X6885" ++ [x0a]
    ++ bytes_lit "no assignment here".

(** A text of ASCII without line ends and without white space at its
    ends, and the bytes that encode such a text. *)
Definition plain (s : str) : Prop :=
  stripped s /\ Forall (fun c => 0 <= c < 128 /\ c <> LF /\ c <> CR) s.

Definition encode_ascii (s : str) : bytes := map byte_of s.

(** A line of only white space. *)
Definition blank (ws : str) : Prop := Forall (fun c => isspace c = true) ws.

(** A line as the iteration over a file yields it: no [\r], and [\n]
    as its last character only. *)
Definition is_line (l : list Z) : Prop :=
  Forall (fun c => c <> CR) l /\
  forall a b, l = a ++ LF :: b -> b = [].

(** The shape of a name and of a value that [parse_prop_file] stores:
    no white space at the ends, no line end, no [=] in the name, and no
    name that starts with [#]. *)
Definition prop_shape (k v : list Z) : Prop :=
  stripped k /\ stripped v /\
  Forall (fun c => c <> EQUALS /\ c <> LF /\ c <> CR) k /\
  Forall (fun c => c <> LF /\ c <> CR) v /\
  head k <> Some HASH.

(** The paths of the files that end with [.prop], in the order of the
    walk. *)
Definition prop_paths (walk : list (str * list str)) : list str :=
  flat_map (fun d => map (os_path_join (fst d))
                         (List.filter (str_endswith (str_lit ".prop")) (snd d)))
           walk.

(** The value of the name [k] in the last of the files [paths] that
    defines it. *)
Fixpoint last_value (read : str -> option bytes) (k : str)
         (paths : list str) : option str :=
  match paths with
  | [] => None
  | p :: rest =>
    match last_value read k rest with
    | Some v => Some v
    | None =>
      match parse_prop_file (read p) with
      | Ok props => props !! k
      | Raise _ => None
      end
    end
  end.

(** The device name and the board that the properties of the ramdisk
    give, if any. *)
Definition device_of_props (props : gmap str str) : option str :=
  first_nonempty [props !! str_lit "ro.product.system.device";
                  props !! str_lit "ro.product.vendor.device";
                  props !! str_lit "ro.product.device";
                  props !! str_lit "ro.build.product"].

Definition board_of_props (props : gmap str str) : option str :=
  first_nonempty [props !! str_lit "ro.board.platform";
                  props !! str_lit "ro.product.board"].

Definition manufacturer_of_props (props : gmap str str) : option str :=
  first_nonempty [props !! str_lit "ro.product.manufacturer";
                  props !! str_lit "ro.product.vendor.manufacturer"].

(** [a or b] for two values that are [None] or a string, when only its
    truth value or a non-empty value counts. *)
Definition or_else (a b : option str) : option str :=
  match nonempty a with
  | Some s => Some s
  | None => nonempty b
  end.




(* ===================================================================== *)
(** * Slices, decoding and the parser *)
(* ===================================================================== *)

Lemma py_slice_take_drop {A} (l : list A) (a b : Z) :
  0 <= a -> 0 <= b ->
  py_slice l a b = take (Z.to_nat (b - a)) (drop (Z.to_nat a) l).
Proof.
  intros Ha Hb. unfold py_slice, slice_bound, py_len.
  destruct (Z.ltb_spec a 0); [lia|]. destruct (Z.ltb_spec b 0); [lia|].
  destruct (Z.le_gt_cases a (Z.of_nat (length l))) as [Hal|Hal].
  - rewrite (Z.min_l a) by lia.
    destruct (Z.le_gt_cases b (Z.of_nat (length l))) as [Hbl|Hbl].
    + rewrite (Z.min_l b) by lia. reflexivity.
    + rewrite (Z.min_r b) by lia.
      rewrite !take_ge; [reflexivity| |]; rewrite length_drop; lia.
  - rewrite (Z.min_r a) by lia.
    rewrite !drop_ge by lia. rewrite !take_nil. reflexivity.
Qed.

Lemma py_len_slice {A} (l : list A) (a b : Z) :
  0 <= a -> a <= b -> b <= py_len l -> py_len (py_slice l a b) = b - a.
Proof.
  intros. rewrite py_slice_take_drop by lia. unfold py_len in *.
  rewrite length_take, length_drop. lia.
Qed.

Lemma py_len_slice_short {A} (l : list A) (a b : Z) :
  0 <= a -> a < b -> py_len l < b -> py_len (py_slice l a b) < b - a.
Proof.
  intros. rewrite py_slice_take_drop by lia. unfold py_len in *.
  rewrite length_take, length_drop. lia.
Qed.

Lemma py_slice_slice {A} (l : list A) (a n x y : Z) :
  0 <= a -> 0 <= x -> x <= y -> y <= n ->
  py_slice (py_slice l a (a + n)) x y = py_slice l (a + x) (a + y).
Proof.
  intros. rewrite !py_slice_take_drop by lia.
  rewrite skipn_firstn_comm. rewrite take_take. rewrite drop_drop.
  f_equal; [lia|]. f_equal. lia.
Qed.

Lemma bind_Ok {A B} (m : result A) (k : A -> result B) (b : B) :
  bind m k = Ok b -> exists a, m = Ok a /\ k a = Ok b.
Proof. destruct m; simpl; [eauto | discriminate]. Qed.

(** Inversion of a chain of [bind]s that ends in [Ok]. *)
Ltac inv_binds H :=
  repeat (apply bind_Ok in H; destruct H as (? & ? & H)).

(** Evaluation of a parse of a sample image, [E : parse image = Ok h]. *)
Ltac run_parse E := vm_compute in E; injection E as <-.

Lemma emit_Ok c k : (exists s, k = Ok s) -> exists s, emit c k = Ok s.
Proof. intros [s ->]. simpl. eauto. Qed.

Lemma utf8_decode_ignore_total_aux (n : nat) :
  forall bs, (length bs <= n)%nat -> exists s, utf8_decode Ignore bs = Ok s.
Proof.
  induction n as [|n IH]; intros bs Hn.
  - destruct bs; [simpl; eauto | simpl in Hn; lia].
  - destruct bs as [|b0 r0]; [simpl; eauto|].
    simpl in Hn.
    assert (H0 : exists s, utf8_decode Ignore r0 = Ok s) by (apply IH; lia).
    assert (H1 : forall b1 r1, r0 = b1 :: r1 ->
                 exists s, utf8_decode Ignore r1 = Ok s).
    { intros b1 r1 ->. apply IH. simpl in Hn. lia. }
    assert (H2 : forall b1 b2 r2, r0 = b1 :: b2 :: r2 ->
                 exists s, utf8_decode Ignore r2 = Ok s).
    { intros b1 b2 r2 ->. apply IH. simpl in Hn. lia. }
    assert (H3 : forall b1 b2 b3 r3, r0 = b1 :: b2 :: b3 :: r3 ->
                 exists s, utf8_decode Ignore r3 = Ok s).
    { intros b1 b2 b3 r3 ->. apply IH. simpl in Hn. lia. }
    cbn [utf8_decode]. cbv zeta. unfold on_error.
    repeat match goal with
    | |- exists s, emit _ _ = Ok s => apply emit_Ok
    | |- exists s, Ok _ = Ok s => eexists; reflexivity
    | |- exists s, utf8_decode Ignore r0 = Ok s => exact H0
    | |- exists s, utf8_decode Ignore (_ :: _) = Ok s => eauto
    | |- exists s, utf8_decode Ignore _ = Ok s => solve [eauto]
    | |- context [if ?c then _ else _] => destruct c
    | |- context [match ?l with [] => _ | _ :: _ => _ end] => destruct l
    end.
Qed.

Lemma utf8_decode_ignore_total bs : exists s, utf8_decode Ignore bs = Ok s.
Proof. apply (utf8_decode_ignore_total_aux (length bs)); lia. Qed.

Lemma unpack_I_Ok bs v : unpack_I bs = Ok v -> py_len bs = 4 /\ v = le_value bs.
Proof.
  unfold unpack_I. destruct (Z.eqb_spec (py_len bs) 4); [|discriminate].
  intros [= <-]. auto.
Qed.

Lemma unpack_Q_Ok bs v : unpack_Q bs = Ok v -> py_len bs = 8 /\ v = le_value bs.
Proof.
  unfold unpack_Q. destruct (Z.eqb_spec (py_len bs) 8); [|discriminate].
  intros [= <-]. auto.
Qed.

(** Inversion of the [unpack_I] and [unpack_Q] among the hypotheses. *)
Ltac inv_unpacks :=
  repeat match goal with
  | H : unpack_I _ = Ok _ |- _ => apply unpack_I_Ok in H; destruct H as [? ?]
  | H : unpack_Q _ = Ok _ |- _ => apply unpack_Q_Ok in H; destruct H as [? ?]
  end.

Lemma byte_val_range b : 0 <= byte_val b < 256.
Proof.
  unfold byte_val. pose proof (Byte.to_N_bounded b). lia.
Qed.

Lemma le_value_range bs : 0 <= le_value bs < 256 ^ py_len bs.
Proof.
  unfold py_len. induction bs as [|b r IH]; simpl le_value.
  - simpl. lia.
  - pose proof (byte_val_range b).
    replace (Z.of_nat (length (b :: r))) with (Z.succ (Z.of_nat (length r)))
      by (simpl length; lia).
    rewrite Z.pow_succ_r by lia. lia.
Qed.

Lemma bytes_eqb_eq a b : bytes_eqb a b = true <-> a = b.
Proof.
  revert b. induction a as [|x a IH]; intros [|y b]; simpl; try (split; congruence).
  rewrite andb_true_iff, IH. unfold byte_eqb. split.
  - intros [H ->]. apply Byte.byte_dec_bl in H. congruence.
  - intros [= -> ->]. split; [apply Byte.byte_dec_lb|]; reflexivity.
Qed.

Lemma py_len_slice_le {A} (l : list A) (a b : Z) :
  0 <= a -> a <= b -> py_len (py_slice l a b) = b - a -> a < b -> b <= py_len l.
Proof.
  intros Ha Hab Hlen Hlt.
  destruct (Z.le_gt_cases b (py_len l)); [assumption|].
  pose proof (py_len_slice_short l a b Ha Hlt). lia.
Qed.

Lemma VendorBootHeader_init_Ok buf h :
  VendorBootHeader_init buf = Ok h ->
  data h = buf /\ table_offset h = 2172 /\ 2172 <= py_len buf /\
  py_slice buf 0 8 = BOOT_MAGIC_VENDOR_BOOT /\
  vendor_ramdisk_total_size h = le_value (py_slice buf 24 28) /\
  utf8_decode Ignore (rstrip NUL (py_slice buf 28 2076)) = Ok (cmdline h) /\
  utf8_decode Ignore (rstrip NUL (py_slice buf 2080 2144)) = Ok (product_name h) /\
  header_size h = le_value (py_slice buf 2144 2148) /\
  dtb_size h = le_value (py_slice buf 2148 2152) /\
  vendor_ramdisk_table_num_entries h = le_value (py_slice buf 2164 2168) /\
  vendor_bootconfig_size h = le_value (py_slice buf 2168 2172).
Proof.
  unfold VendorBootHeader_init.
  destruct (bytes_eqb (py_slice buf 0 (0 + 8)) BOOT_MAGIC_VENDOR_BOOT) eqn:Hm;
    [|discriminate].
  cbn [negb]. cbv zeta. intros H.
  inv_binds H.
  injection H as <-. cbn [data table_offset vendor_ramdisk_total_size cmdline
    product_name header_size dtb_size vendor_ramdisk_table_num_entries
    vendor_bootconfig_size].
  apply bytes_eqb_eq in Hm. inv_unpacks.
  unfold VENDOR_RAMDISK_CMDLINE_SIZE, BOOT_PRODUCT_NAME_SIZE in *.
  simpl Z.add in *.
  repeat split; try assumption; try reflexivity.
  eapply (py_len_slice_le buf 2168 2172); try lia. assumption.
Qed.

Lemma unpack_I_slice (l : bytes) (a b : Z) :
  0 <= a -> b = a + 4 -> b <= py_len l ->
  unpack_I (py_slice l a b) = Ok (le_value (py_slice l a b)).
Proof.
  intros. unfold unpack_I. rewrite py_len_slice by lia.
  replace (b - a) with 4 by lia. reflexivity.
Qed.

Lemma unpack_Q_slice (l : bytes) (a b : Z) :
  0 <= a -> b = a + 8 -> b <= py_len l ->
  unpack_Q (py_slice l a b) = Ok (le_value (py_slice l a b)).
Proof.
  intros. unfold unpack_Q. rewrite py_len_slice by lia.
  replace (b - a) with 8 by lia. reflexivity.
Qed.

Lemma VendorBootHeader_init_accepts buf :
  py_slice buf 0 8 = BOOT_MAGIC_VENDOR_BOOT -> 2172 <= py_len buf ->
  exists h, VendorBootHeader_init buf = Ok h.
Proof.
  intros Hm Hlen. unfold VendorBootHeader_init.
  replace (0 + 8) with 8 by lia. rewrite Hm.
  replace (bytes_eqb BOOT_MAGIC_VENDOR_BOOT BOOT_MAGIC_VENDOR_BOOT) with true
    by (symmetry; apply bytes_eqb_eq; reflexivity).
  cbn [negb]. cbv zeta.
  unfold VENDOR_RAMDISK_CMDLINE_SIZE, BOOT_PRODUCT_NAME_SIZE.
  repeat first
    [ rewrite unpack_I_slice by lia; cbn [bind]
    | rewrite unpack_Q_slice by lia; cbn [bind]
    | match goal with
      | |- context [utf8_decode Ignore ?bs] =>
        destruct (utf8_decode_ignore_total bs) as [? ->]; cbn [bind]
      end ].
  eexists. reflexivity.
Qed.

Lemma VendorRamdiskEntry_init_Ok bs e :
  VendorRamdiskEntry_init bs = Ok e ->
  size e = le_value (py_slice bs 0 4) /\
  offset e = le_value (py_slice bs 4 8) /\
  type e = le_value (py_slice bs 8 12) /\
  utf8_decode Ignore (rstrip NUL (py_slice bs 12 44)) = Ok (name e) /\
  board_id e = bytes_hex (py_slice bs 44 76) /\
  type_str e = type_str_of (type e).
Proof.
  unfold VendorRamdiskEntry_init. intros H. inv_binds H.
  injection H as <-. cbn [size offset type name board_id type_str].
  inv_unpacks.
  unfold VENDOR_RAMDISK_NAME_SIZE, BOOT_ID_SIZE in *. simpl Z.add in *.
  repeat split; assumption || reflexivity.
Qed.

Lemma VendorRamdiskEntry_init_total bs :
  12 <= py_len bs -> exists e, VendorRamdiskEntry_init bs = Ok e.
Proof.
  intros Hlen. unfold VendorRamdiskEntry_init.
  rewrite (unpack_I_slice bs 0 4) by lia.
  rewrite (unpack_I_slice bs 4 8) by lia.
  rewrite (unpack_I_slice bs 8 12) by lia.
  cbn [bind].
  match goal with
  | |- context [utf8_decode Ignore ?x] =>
    destruct (utf8_decode_ignore_total x) as [? ->]; cbn [bind]
  end.
  eexists. reflexivity.
Qed.

Lemma get_ramdisk_entries_loop_ok h (n : nat) :
  forall i acc,
    0 <= table_offset h -> 0 <= i ->
    table_offset h + (i + Z.of_nat n) * 76 <= py_len (data h) ->
    exists es,
      get_ramdisk_entries_loop h 76 n i acc = Ok (acc ++ es) /\
      length es = n /\
      forall (k : nat) e, es !! k = Some e ->
        VendorRamdiskEntry_init
          (py_slice (data h) (table_offset h + (i + Z.of_nat k) * 76)
                    (table_offset h + (i + Z.of_nat k) * 76 + 76)) = Ok e.
Proof.
  induction n as [|n IH]; intros i acc Hoff Hi Hlen.
  - exists []. simpl. rewrite app_nil_r. split; [reflexivity|]. split; [reflexivity|].
    intros k e Hk. discriminate.
  - cbn [get_ramdisk_entries_loop]. cbv zeta.
    rewrite py_len_slice by lia.
    replace (table_offset h + i * 76 + 76 - (table_offset h + i * 76)) with 76 by lia.
    rewrite Z.ltb_irrefl.
    destruct (VendorRamdiskEntry_init_total
                (py_slice (data h) (table_offset h + i * 76)
                          (table_offset h + i * 76 + 76))) as [e He].
    { rewrite py_len_slice by lia. lia. }
    rewrite He. cbn [bind].
    destruct (IH (i + 1) (acc ++ [e]) Hoff ltac:(lia) ltac:(lia))
      as (es & Hes & Hl & Hk).
    exists (e :: es). rewrite Hes. rewrite <- app_assoc. split; [reflexivity|].
    split; [simpl; lia|].
    intros [|k] e' Hlook.
    + simpl in Hlook. injection Hlook as <-.
      replace (i + Z.of_nat 0) with i by lia. exact He.
    + simpl in Hlook. apply Hk in Hlook.
      replace (i + Z.of_nat (S k)) with (i + 1 + Z.of_nat k) by lia. exact Hlook.
Qed.

Lemma get_ramdisk_entries_loop_truncated h (n : nat) :
  forall i acc,
    0 <= table_offset h -> 0 <= i ->
    table_offset h + i * 76 <= py_len (data h) ->
    py_len (data h) < table_offset h + (i + Z.of_nat n) * 76 ->
    exists j, i <= j < i + Z.of_nat n /\
      get_ramdisk_entries_loop h 76 n i acc = Raise (ValueError_TruncatedTable j).
Proof.
  induction n as [|n IH]; intros i acc Hoff Hi Hfit Hshort.
  - lia.
  - cbn [get_ramdisk_entries_loop]. cbv zeta.
    destruct (Z.le_gt_cases (table_offset h + (i + 1) * 76) (py_len (data h)))
      as [Hle|Hgt].
    + rewrite py_len_slice by lia.
      replace (table_offset h + i * 76 + 76 - (table_offset h + i * 76)) with 76 by lia.
      rewrite Z.ltb_irrefl.
      destruct (VendorRamdiskEntry_init_total
                  (py_slice (data h) (table_offset h + i * 76)
                            (table_offset h + i * 76 + 76))) as [e He].
      { rewrite py_len_slice by lia. lia. }
      rewrite He. cbn [bind].
      destruct (IH (i + 1) (acc ++ [e]) Hoff ltac:(lia) Hle ltac:(lia))
        as (j & Hj & ->).
      exists j. split; [lia | reflexivity].
    + exists i. split; [lia|].
      pose proof (py_len_slice_short (data h) (table_offset h + i * 76)
                    (table_offset h + i * 76 + 76) ltac:(lia) ltac:(lia) ltac:(lia)) as Hs.
      replace (table_offset h + i * 76 + 76 - (table_offset h + i * 76)) with 76 in Hs by lia.
      destruct (Z.ltb_spec (py_len (py_slice (data h) (table_offset h + i * 76)
                                             (table_offset h + i * 76 + 76))) 76);
        [reflexivity | lia].
Qed.

(* ===================================================================== *)
(** * DTB offset and ramdisk table *)
(* ===================================================================== *)

(** C4, as amended. For every buffer that the parser accepts,
    [get_dtb_offset] returns
    header_size + vendor_bootconfig_size + vendor_ramdisk_total_size
    whenever that value plus dtb_size is at most the length of the buffer,
    and the length of the buffer minus dtb_size otherwise. In the second
    case the bytes sliced at the offset returned are the last dtb_size
    bytes of the buffer when the buffer holds dtb_size bytes at all; when
    it does not, the offset is negative and counts from the end, and the
    slice is an end of the buffer of fewer than dtb_size bytes. *)
Theorem get_dtb_offset_clamp (buf : bytes) (h : VendorBootHeader) :
  VendorBootHeader_init buf = Ok h ->
  let primary :=
    header_size h + vendor_bootconfig_size h + vendor_ramdisk_total_size h in
  (primary + dtb_size h <= py_len buf -> get_dtb_offset h = primary) /\
  (py_len buf < primary + dtb_size h ->
   get_dtb_offset h = py_len buf - dtb_size h /\
   (dtb_size h <= py_len buf ->
    py_slice buf (get_dtb_offset h) (get_dtb_offset h + dtb_size h)
    = drop (length buf - Z.to_nat (dtb_size h)) buf /\
    py_len (py_slice buf (get_dtb_offset h) (get_dtb_offset h + dtb_size h))
    = dtb_size h) /\
   (py_len buf < dtb_size h ->
    get_dtb_offset h < 0 /\
    py_slice buf (get_dtb_offset h) (get_dtb_offset h + dtb_size h)
    = drop (Z.to_nat (2 * py_len buf - dtb_size h)) buf /\
    py_len (py_slice buf (get_dtb_offset h) (get_dtb_offset h + dtb_size h))
    < dtb_size h)).
Proof.
  intros Hparse primary.
  destruct (VendorBootHeader_init_Ok _ _ Hparse)
    as (Hdata & _ & _ & _ & _ & _ & _ & _ & Hdtb & _).
  assert (Hd0 : 0 <= dtb_size h).
  { rewrite Hdtb. apply le_value_range. }
  unfold get_dtb_offset. cbv zeta. rewrite Hdata. fold primary.
  split.
  - intros Hfit. destruct (Z.gtb_spec (primary + dtb_size h) (py_len buf)); [lia | reflexivity].
  - intros Hover.
    destruct (Z.gtb_spec (primary + dtb_size h) (py_len buf)); [|lia].
    split; [reflexivity|]. split.
    + intros Hle. split.
      * rewrite py_slice_take_drop by lia.
        unfold py_len in *.
        replace (Z.to_nat (Z.of_nat (length buf) - dtb_size h))
          with (length buf - Z.to_nat (dtb_size h))%nat by lia.
        apply take_ge. rewrite length_drop. lia.
      * rewrite py_len_slice by lia. lia.
    + intros Hbig. split; [lia|].
      unfold py_slice, slice_bound.
      destruct (Z.ltb_spec (py_len buf - dtb_size h) 0); [|lia].
      destruct (Z.ltb_spec (py_len buf - dtb_size h + dtb_size h) 0);
        [unfold py_len in *; lia|].
      replace (py_len buf - dtb_size h + dtb_size h) with (py_len buf) by lia.
      rewrite Z.min_id.
      replace (py_len buf - dtb_size h + py_len buf)
        with (2 * py_len buf - dtb_size h) by lia.
      destruct (Z.le_gt_cases 0 (2 * py_len buf - dtb_size h)).
      * rewrite Z.max_r by lia.
        split; [apply take_ge; rewrite length_drop; unfold py_len; lia|].
        unfold py_len. rewrite length_take, length_drop. unfold py_len in *. lia.
      * rewrite Z.max_l by lia.
        replace (Z.to_nat (2 * py_len buf - dtb_size h)) with 0%nat by lia.
        simpl Z.to_nat. rewrite !drop_0.
        split; [apply take_ge; unfold py_len; lia|].
        unfold py_len. rewrite length_take. unfold py_len in *. lia.
Qed.

(** C4 on two images of 2272 bytes with a DTB of 16 bytes: one whose
    sections add up, one whose header announces 4096 bytes of ramdisk. *)
Lemma get_dtb_offset_clamp_witness :
  (exists h, VendorBootHeader_init image_dtb_fits = Ok h /\ get_dtb_offset h = 2256)
  /\ (exists h, VendorBootHeader_init image_dtb_clamped = Ok h
                /\ get_dtb_offset h = 2256
                /\ py_slice image_dtb_clamped (get_dtb_offset h)
                            (get_dtb_offset h + dtb_size h) = repeat x22 16).
Proof.
  split.
  - destruct (VendorBootHeader_init image_dtb_fits) as [h|e] eqn:E;
      [|vm_compute in E; discriminate E].
    exists h. split; [reflexivity|].
    destruct (get_dtb_offset_clamp image_dtb_fits h E) as [Hfit _].
    rewrite Hfit.
    + run_parse E. reflexivity.
    + run_parse E. vm_compute. discriminate.
  - destruct (VendorBootHeader_init image_dtb_clamped) as [h|e] eqn:E;
      [|vm_compute in E; discriminate E].
    exists h.
    destruct (get_dtb_offset_clamp image_dtb_clamped h E) as [_ Hclamp].
    assert (Hover : py_len image_dtb_clamped
                    < header_size h + vendor_bootconfig_size h
                      + vendor_ramdisk_total_size h + dtb_size h).
    { run_parse E. vm_compute. reflexivity. }
    destruct (Hclamp Hover) as (Hoff & Hblob & _).
    split; [reflexivity|]. split.
    + rewrite Hoff. run_parse E. reflexivity.
    + destruct Hblob as [Hblob _].
      * run_parse E. vm_compute. discriminate.
      * rewrite Hblob. run_parse E. vm_compute. reflexivity.
Defined.

(** C4 as stated fails: when the header announces a DTB of 3000 bytes in
    a buffer of 2172, the offset returned is -828, and the slice taken
    there is not the final [dtb_size] bytes of the buffer, which has not
    that many, but its last 828 bytes. *)
Lemma get_dtb_offset_blob_shorter :
  exists h,
    VendorBootHeader_init image_dtb_too_large = Ok h /\
    py_len image_dtb_too_large
    < header_size h + vendor_bootconfig_size h + vendor_ramdisk_total_size h
      + dtb_size h /\
    dtb_size h = 3000 /\
    get_dtb_offset h = -828 /\
    py_len (py_slice image_dtb_too_large (get_dtb_offset h)
                     (get_dtb_offset h + dtb_size h)) = 828.
Proof.
  destruct (VendorBootHeader_init image_dtb_too_large) as [h|e] eqn:E;
    [|vm_compute in E; discriminate E].
  exists h. run_parse E. split; [reflexivity|].
  split; [vm_compute; reflexivity|]. split; [reflexivity|].
  split; vm_compute; reflexivity.
Qed.

(** C6. For every buffer that the parser accepts, with [n] the number of
    entries of its header: when [n * 76] bytes are there from
    [table_offset] on, [get_ramdisk_entries] returns [n] entries, the one
    of index [i] decoded from the 76 bytes at [table_offset + i * 76]
    (size, offset and type of 4 bytes each, 32 bytes of name, 32 bytes of
    board id); when the buffer ends before, it raises the error of a
    truncated table. *)
Theorem get_ramdisk_entries_table (buf : bytes) (h : VendorBootHeader) :
  VendorBootHeader_init buf = Ok h ->
  let n := vendor_ramdisk_table_num_entries h in
  let entry_at (i : nat) := table_offset h + Z.of_nat i * 76 in
  (table_offset h + n * 76 <= py_len buf ->
   exists es,
     get_ramdisk_entries h = Ok es /\ py_len es = n /\
     forall (i : nat) e, es !! i = Some e ->
       VendorRamdiskEntry_init (py_slice buf (entry_at i) (entry_at i + 76))
       = Ok e /\
       size e = le_value (py_slice buf (entry_at i) (entry_at i + 4)) /\
       offset e = le_value (py_slice buf (entry_at i + 4) (entry_at i + 8)) /\
       type e = le_value (py_slice buf (entry_at i + 8) (entry_at i + 12)) /\
       utf8_decode Ignore
         (rstrip NUL (py_slice buf (entry_at i + 12) (entry_at i + 44)))
       = Ok (name e) /\
       board_id e = bytes_hex (py_slice buf (entry_at i + 44) (entry_at i + 76)))
  /\
  (py_len buf < table_offset h + n * 76 ->
   exists i, 0 <= i < n /\
     get_ramdisk_entries h = Raise (ValueError_TruncatedTable i)).
Proof.
  intros Hparse n entry_at.
  destruct (VendorBootHeader_init_Ok _ _ Hparse)
    as (Hdata & Hoff & Hlen & _ & _ & _ & _ & _ & _ & Hn & _).
  assert (Hn0 : 0 <= n).
  { subst n. rewrite Hn. apply le_value_range. }
  unfold get_ramdisk_entries.
  unfold VENDOR_RAMDISK_NAME_SIZE, BOOT_ID_SIZE. simpl (4 + 4 + 4 + 32 + 32).
  fold n. split.
  - intros Hfit. destruct (Z.eqb_spec n 0) as [Hz|Hnz].
    + exists []. split; [reflexivity|]. split; [unfold py_len; simpl; lia|].
      intros i e Hl. discriminate.
    + destruct (get_ramdisk_entries_loop_ok h (Z.to_nat n) 0 [])
        as (es & Hes & Hl & Hk).
      * lia.
      * lia.
      * rewrite Hdata. lia.
      * exists es. split; [exact Hes|]. split; [unfold py_len; lia|].
        intros i e Hi. specialize (Hk i e Hi). rewrite Hdata in Hk.
        replace (table_offset h + (0 + Z.of_nat i) * 76) with (entry_at i) in Hk
          by (unfold entry_at; lia).
        split; [exact Hk|].
        apply lookup_lt_Some in Hi.
        destruct (VendorRamdiskEntry_init_Ok _ _ Hk) as (H1 & H2 & H3 & H4 & H5 & _).
        assert (Hea : 0 <= entry_at i) by (unfold entry_at; lia).
        rewrite (py_slice_slice buf (entry_at i) 76 0 4) in H1 by lia.
        rewrite (py_slice_slice buf (entry_at i) 76 4 8) in H2 by lia.
        rewrite (py_slice_slice buf (entry_at i) 76 8 12) in H3 by lia.
        rewrite (py_slice_slice buf (entry_at i) 76 12 44) in H4 by lia.
        rewrite (py_slice_slice buf (entry_at i) 76 44 76) in H5 by lia.
        rewrite Z.add_0_r in H1. auto.
  - intros Hshort. destruct (Z.eqb_spec n 0) as [Hz|Hnz]; [lia|].
    destruct (get_ramdisk_entries_loop_truncated h (Z.to_nat n) 0 [])
      as (j & Hj & Hr).
    + lia.
    + lia.
    + rewrite Hdata. lia.
    + rewrite Hdata. lia.
    + exists j. split; [lia | exact Hr].
Qed.

(** C6 on a table of three entries, whole and with its last byte cut. *)
Lemma get_ramdisk_entries_table_witness :
  (exists h es, VendorBootHeader_init image_three_entries = Ok h /\
     get_ramdisk_entries h = Ok es /\ py_len es = 3 /\
     map name es = [str_lit "platform"; str_lit "recovery"; str_lit "other"])
  /\
  (exists h i, VendorBootHeader_init image_three_entries_cut = Ok h /\
     get_ramdisk_entries h = Raise (ValueError_TruncatedTable i)).
Proof.
  split.
  - destruct (VendorBootHeader_init image_three_entries) as [h|e] eqn:E;
      [|vm_compute in E; discriminate E].
    destruct (get_ramdisk_entries_table image_three_entries h E) as [Hfit _].
    destruct Hfit as (es & Hes & Hl & _).
    { run_parse E. vm_compute. discriminate. }
    exists h, es. split; [reflexivity|]. split; [exact Hes|]. split.
    + rewrite Hl. run_parse E. reflexivity.
    + run_parse E. vm_compute in Hes.
      injection Hes as <-. reflexivity.
  - destruct (VendorBootHeader_init image_three_entries_cut) as [h|e] eqn:E;
      [|vm_compute in E; discriminate E].
    destruct (get_ramdisk_entries_table image_three_entries_cut h E) as [_ Hcut].
    destruct Hcut as (i & _ & Hr).
    { run_parse E. vm_compute. reflexivity. }
    exists h, i. split; [reflexivity | exact Hr].
Defined.

(* ===================================================================== *)
(** * Lenient decoding *)
(* ===================================================================== *)

Lemma emit_Ok_inv c k s : emit c k = Ok s -> exists s', k = Ok s' /\ s = c :: s'.
Proof. destruct k; simpl; [intros [= <-]; eauto | discriminate]. Qed.

Lemma utf8_decode_ignore_app_strict_aux (n : nat) :
  forall a b sa, (length a <= n)%nat ->
    utf8_decode Strict a = Ok sa ->
    utf8_decode Ignore (a ++ b) = do sb <- utf8_decode Ignore b; Ok (sa ++ sb).
Proof.
  induction n as [|n IH]; intros a b sa Hn Hs.
  - destruct a; [|simpl in Hn; lia]. simpl in Hs. injection Hs as <-.
    simpl. destruct (utf8_decode Ignore b); reflexivity.
  - destruct a as [|b0 r0].
    { simpl in Hs. injection Hs as <-.
      simpl. destruct (utf8_decode Ignore b); reflexivity. }
    simpl in Hn. simpl app. cbn [utf8_decode] in *. cbv zeta in *.
    repeat match goal with
    | H : on_error Strict _ = Ok _ |- _ => discriminate H
    | H : emit _ _ = Ok _ |- _ =>
      apply emit_Ok_inv in H; destruct H as (? & ? & ->)
    | H : context [if ?c then _ else _] |- _ => destruct c eqn:?
    | H : context [match ?l with [] => _ | _ :: _ => _ end] |- _ =>
      destruct l; simpl app in *; simpl length in *
    end;
    repeat match goal with
    | H : ?c = true |- context [?c] => rewrite H
    | H : ?c = false |- context [?c] => rewrite H
    end;
    cbn [negb orb];
    repeat match goal with
    | H : ?c = true |- context [?c] => rewrite H
    | H : ?c = false |- context [?c] => rewrite H
    end;
    match goal with
    | H : utf8_decode Strict ?r = Ok ?s |- context [utf8_decode Ignore (?r ++ b)] =>
      rewrite (IH r b s) by (simpl; lia || assumption);
      destruct (utf8_decode Ignore b); reflexivity
    end.
Qed.

Lemma utf8_decode_ignore_app_strict a b sa :
  utf8_decode Strict a = Ok sa ->
  utf8_decode Ignore (a ++ b) = do sb <- utf8_decode Ignore b; Ok (sa ++ sb).
Proof. apply (utf8_decode_ignore_app_strict_aux (length a)). lia. Qed.

Lemma utf8_decode_invalid_start h c b :
  invalid_start c ->
  utf8_decode h (c :: b) = on_error h (utf8_decode h b).
Proof.
  intros Hc. cbn [utf8_decode]. cbv zeta. unfold invalid_start in Hc.
  destruct (Z.ltb_spec (byte_val c) 128); [lia|].
  destruct (Z.ltb_spec (byte_val c) 194); [reflexivity|].
  destruct (Z.ltb_spec (byte_val c) 224); [lia|].
  destruct (Z.ltb_spec (byte_val c) 240); [lia|].
  destruct (Z.ltb_spec (byte_val c) 245); [lia|]. reflexivity.
Qed.

(* ===================================================================== *)
(** * Text fields of the header *)
(* ===================================================================== *)

(** ** rstrip *)
Lemma rstrip_spec c bs :
  exists k, bs = rstrip c bs ++ repeat c k /\ last (rstrip c bs) <> Some c.
Proof.
  induction bs as [|b r (k & Hr & Hlast)]; [exists 0%nat; split; [reflexivity|discriminate]|].
  unfold rstrip in *. cbn [fold_right].
  set (t := fold_right _ [] r) in *.
  destruct (byte_eqb b c) eqn:Hb; cbn [andb].
  - apply Byte.byte_dec_bl in Hb. subst b.
    destruct t as [|x t'] eqn:Ht; cbn [is_nil].
    + exists (S k). split; [simpl; simpl in Hr; congruence | discriminate].
    + exists k. split; [rewrite Hr at 1; reflexivity|].
      rewrite last_cons. destruct (last (x :: t')) eqn:Hl; [exact Hlast|].
      apply last_None in Hl. discriminate.
  - exists k. split; [rewrite Hr at 1; reflexivity|].
    rewrite last_cons. destruct (last t) eqn:Hl; [exact Hlast|].
    intros [= ->]. unfold byte_eqb in Hb.
    rewrite (Byte.byte_dec_lb eq_refl) in Hb. discriminate.
Qed.

(** C7, as amended. A buffer is accepted whenever it starts with the magic
    and holds the 2172 bytes of the header, whatever its text fields hold.
    [cmdline] and [product_name] are the regions of 2048 bytes at 28 and
    of 64 bytes at 2080, without their trailing NUL bytes, decoded with
    ill-formed sequences dropped: after a well-formed text, a byte that
    cannot start a sequence adds nothing to the result. Both fields may be
    empty. *)
Theorem header_text_fields_drop_ill_formed :
  (forall buf,
      py_slice buf 0 8 = BOOT_MAGIC_VENDOR_BOOT -> 2172 <= py_len buf ->
      exists h, VendorBootHeader_init buf = Ok h)
  /\
  (forall buf h,
      VendorBootHeader_init buf = Ok h ->
      exists c p kc kp,
        py_slice buf 28 2076 = c ++ repeat NUL kc /\ last c <> Some NUL /\
        py_slice buf 2080 2144 = p ++ repeat NUL kp /\ last p <> Some NUL /\
        utf8_decode Ignore c = Ok (cmdline h) /\
        utf8_decode Ignore p = Ok (product_name h))
  /\
  (forall a bad b sa,
      utf8_decode Strict a = Ok sa -> invalid_start bad ->
      utf8_decode Ignore (a ++ bad :: b)
      = do sb <- utf8_decode Ignore b; Ok (sa ++ sb))
  /\
  (exists buf h,
      VendorBootHeader_init buf = Ok h /\ cmdline h = [] /\ product_name h = []).
Proof.
  split; [exact VendorBootHeader_init_accepts|]. split; [|split].
  - intros buf h Hparse.
    destruct (VendorBootHeader_init_Ok _ _ Hparse)
      as (_ & _ & _ & _ & _ & Hc & Hp & _).
    destruct (rstrip_spec NUL (py_slice buf 28 2076)) as (kc & Hkc & Hlc).
    destruct (rstrip_spec NUL (py_slice buf 2080 2144)) as (kp & Hkp & Hlp).
    exists (rstrip NUL (py_slice buf 28 2076)),
           (rstrip NUL (py_slice buf 2080 2144)), kc, kp.
    auto 10.
  - intros a bad b sa Ha Hbad.
    rewrite (utf8_decode_ignore_app_strict a (bad :: b) sa Ha).
    rewrite (utf8_decode_invalid_start Ignore bad b Hbad). reflexivity.
  - exists image_dtb_fits.
    destruct (VendorBootHeader_init image_dtb_fits) as [h|e] eqn:E;
      [|vm_compute in E; discriminate E].
    exists h. run_parse E. auto.
Qed.

(** C7 on a command line that holds the bytes 0x61 0xFF 0x62. *)
Lemma header_text_fields_drop_ill_formed_witness :
  exists h, VendorBootHeader_init image_bad_cmdline = Ok h /\
            cmdline h = str_lit "ab" /\ product_name h = str_lit "X6885".
Proof.
  destruct header_text_fields_drop_ill_formed as (Hacc & Hfields & Hdrop & _).
  destruct (Hacc image_bad_cmdline) as [h Hh].
  - vm_compute. reflexivity.
  - vm_compute. discriminate.
  - exists h. split; [exact Hh|].
    destruct (Hfields image_bad_cmdline h Hh) as (c & p & kc & kp & _).
    vm_compute in Hh. injection Hh as <-. split; reflexivity.
Defined.

(** C7 as stated fails: the byte 0xFF of the command line is dropped,
    where a decoder that replaces ill-formed sequences yields U+FFFD. *)
Lemma header_cmdline_not_replaced :
  exists h, VendorBootHeader_init image_bad_cmdline = Ok h /\
            cmdline h = str_lit "ab" /\
            text_field_replaced (py_slice image_bad_cmdline 28 2076)
            = Ok [97; 65533; 98] /\
            text_field_replaced (py_slice image_bad_cmdline 28 2076)
            <> Ok (cmdline h).
Proof.
  destruct (VendorBootHeader_init image_bad_cmdline) as [h|e] eqn:E;
    [|vm_compute in E; discriminate E].
  exists h. run_parse E.
  split; [reflexivity|]. split; [reflexivity|]. split; [reflexivity|].
  vm_compute. discriminate.
Qed.

(* ===================================================================== *)
(** * Progress of the cpio loop *)
(* ===================================================================== *)

Lemma py_len_nonneg {A} (l : list A) : 0 <= py_len l.
Proof. unfold py_len. lia. Qed.

Lemma py_len_slice_bound {A} (l : list A) (a b : Z) :
  0 <= a <= py_len l -> 0 <= b ->
  py_len (py_slice l a b) <= py_len l - a /\
  py_len (py_slice l a b) <= Z.max 0 (b - a).
Proof.
  intros Ha Hb. rewrite py_slice_take_drop by lia. unfold py_len in *.
  rewrite length_take, length_drop. lia.
Qed.

Lemma f_read_pos content pos n chunk pos' :
  f_read content pos n = Ok (chunk, pos') ->
  0 <= pos <= py_len content ->
  pos' = pos + py_len chunk /\ pos <= pos' <= py_len content /\
  (0 <= n -> py_len chunk <= n).
Proof.
  unfold f_read. intros H Hpos.
  destruct (n <? -1); [discriminate|].
  injection H as <- <-.
  split; [reflexivity|].
  destruct (Z.ltb_spec n 0).
  - unfold py_slice_from.
    pose proof (py_len_slice_bound content pos (py_len content) Hpos (py_len_nonneg _)).
    pose proof (py_len_nonneg (py_slice content pos (py_len content))). lia.
  - pose proof (py_len_slice_bound content pos (pos + n) Hpos ltac:(lia)).
    pose proof (py_len_nonneg (py_slice content pos (pos + n))). lia.
Qed.

Lemma materialize_pos content pos mode filesize full_path pos' evs :
  materialize content pos mode filesize full_path = Ok (pos', evs) ->
  0 <= pos <= py_len content ->
  pos <= pos' <= py_len content.
Proof.
  unfold materialize. intros H Hpos.
  destruct (filesize =? 0).
  - apply bind_Ok in H. destruct H as (isdir & _ & H).
    destruct isdir; [injection H as <- _; lia|].
    apply bind_Ok in H. destruct H as (islnk & _ & H).
    destruct islnk; [|injection H as <- _; lia].
    apply bind_Ok in H. destruct H as ([raw p1] & Hr1 & H).
    apply bind_Ok in H. destruct H as (lt & _ & H).
    apply bind_Ok in H. destruct H as ([pad p2] & Hr2 & H).
    injection H as <- _.
    apply f_read_pos in Hr1; [|lia]. apply f_read_pos in Hr2; lia.
  - apply bind_Ok in H. destruct H as ([raw p1] & Hr1 & H).
    apply bind_Ok in H. destruct H as ([pad p2] & Hr2 & H).
    injection H as <- _.
    apply f_read_pos in Hr1; [|lia]. apply f_read_pos in Hr2; lia.
Qed.

Lemma cpio_entry_pos content dest header pos pos' evs :
  cpio_entry content dest header pos = Ok (inr (pos', evs)) ->
  0 <= pos <= py_len content ->
  pos <= pos' <= py_len content.
Proof.
  unfold cpio_entry. intros H Hpos.
  apply bind_Ok in H. destruct H as (hd & _ & H). cbv zeta in H.
  apply bind_Ok in H. destruct H as ([raw p1] & Hr1 & H).
  apply bind_Ok in H. destruct H as ([pad p2] & Hr2 & H).
  apply bind_Ok in H. destruct H as (filename & _ & H).
  destruct (str_eqb filename TRAILER); [discriminate|].
  apply bind_Ok in H. destruct H as ([p3 evs3] & Hm & H).
  injection H as <- <-.
  apply f_read_pos in Hr1; [|lia]. apply f_read_pos in Hr2; [|lia].
  apply materialize_pos in Hm; lia.
Qed.

Lemma cpio_step_progress content dest pos pos' evs :
  cpio_step content dest pos = Continue pos' evs ->
  0 <= pos <= py_len content ->
  pos + 110 <= pos' <= py_len content.
Proof.
  unfold cpio_step. intros H Hpos.
  destruct (f_read content pos 110) as [[header p1]|] eqn:Hr; [|discriminate].
  destruct (Z.ltb_spec (py_len header) 110); [discriminate|].
  destruct (ascii_decode (py_slice header 0 6)); [|discriminate].
  destruct (negb _); [discriminate|].
  destruct (cpio_entry content dest header p1) as [[why|[p2 evs2]]|] eqn:He;
    try discriminate.
  injection H as <- <-.
  apply f_read_pos in Hr; [|lia].
  apply cpio_entry_pos in He; lia.
Qed.

Lemma cpio_loop_fuel (fuel : nat) :
  forall content dest pos tr,
    0 <= pos <= py_len content ->
    py_len content - pos < 110 * Z.of_nat fuel ->
    cpio_loop fuel content dest pos tr <> OutOfFuel.
Proof.
  induction fuel as [|fuel IH]; intros content dest pos tr Hpos Hfuel.
  - lia.
  - cbn [cpio_loop].
    destruct (cpio_step content dest pos) as [pos' evs|why evs|e evs] eqn:Hs;
      try discriminate.
    apply cpio_step_progress in Hs; [|lia].
    apply IH; lia.
Qed.

Lemma cpio_loop_total content dest tr :
  cpio_loop (cpio_fuel content) content dest 0 tr <> OutOfFuel.
Proof.
  apply cpio_loop_fuel; unfold cpio_fuel, py_len; lia.
Qed.

(** A loop that stops was left by the [break] of an iteration. *)
Lemma cpio_loop_stopped_by_break (fuel : nat) :
  forall content dest pos tr why tr',
    0 <= pos <= py_len content ->
    cpio_loop fuel content dest pos tr = Stopped why tr' ->
    exists pos' evs,
      0 <= pos' <= py_len content /\
      cpio_step content dest pos' = Break why evs.
Proof.
  induction fuel as [|fuel IH]; intros content dest pos tr why tr' Hpos Hl;
    [discriminate|].
  cbn [cpio_loop] in Hl.
  destruct (cpio_step content dest pos) as [pos1 evs|why1 evs|e evs] eqn:Hs.
  - apply cpio_step_progress in Hs; [|lia].
    eapply IH; [|exact Hl]. lia.
  - injection Hl as <- _. eauto.
  - discriminate.
Qed.

(** The events already recorded are kept. *)
Lemma cpio_loop_trace (fuel : nat) :
  forall content dest pos tr,
    match cpio_loop fuel content dest pos tr with
    | Stopped _ tr' | LoopRaised _ tr' => exists evs, tr' = tr ++ evs
    | OutOfFuel => True
    end.
Proof.
  induction fuel as [|fuel IH]; intros content dest pos tr; [exact I|].
  cbn [cpio_loop].
  destruct (cpio_step content dest pos) as [pos' evs|why evs|e evs].
  - specialize (IH content dest pos' (tr ++ evs)).
    destruct (cpio_loop fuel content dest pos' (tr ++ evs)); try exact I;
      destruct IH as [evs' ->]; exists (evs ++ evs'); symmetry; apply app_assoc.
  - eauto.
  - eauto.
Qed.

(* ===================================================================== *)
(** * Stop conditions of the cpio loop *)
(* ===================================================================== *)

Lemma f_read_header content pos :
  0 <= pos -> pos + 110 <= py_len content ->
  f_read content pos 110
  = Ok (py_slice content pos (pos + 110), pos + 110).
Proof.
  intros. unfold f_read. change (110 <? -1) with false. change (110 <? 0) with false.
  cbv beta iota zeta.
  rewrite py_len_slice by lia. do 2 f_equal. lia.
Qed.

Lemma f_read_short content pos header pos' :
  0 <= pos -> py_len content < pos + 110 ->
  f_read content pos 110 = Ok (header, pos') -> py_len header < 110.
Proof.
  intros Hpos Hshort. unfold f_read. change (110 <? -1) with false. change (110 <? 0) with false.
  cbv beta iota zeta.
  intros [= <- <-].
  pose proof (py_len_slice_short content pos (pos + 110) Hpos ltac:(lia) Hshort).
  lia.
Qed.

Lemma cpio_step_short content dest pos :
  0 <= pos -> py_len content < pos + 110 ->
  cpio_step content dest pos = Break ShortHeader [].
Proof.
  intros Hpos Hshort. unfold cpio_step.
  destruct (f_read content pos 110) as [[header p1]|] eqn:Hr.
  - apply f_read_short in Hr; [|lia|lia].
    destruct (Z.ltb_spec (py_len header) 110); [reflexivity | lia].
  - unfold f_read in Hr. simpl in Hr. discriminate.
Qed.

Lemma cpio_step_full content dest pos :
  0 <= pos -> pos + 110 <= py_len content ->
  cpio_step content dest pos =
  match ascii_decode (py_slice content pos (pos + 6)) with
  | Raise e => Abort e []
  | Ok magic =>
    if negb (recognized_magic magic)
    then Break UnexpectedMagic [Log (Warn_UnexpectedCpioMagic magic pos)]
    else
      match cpio_entry content dest (py_slice content pos (pos + 110))
                       (pos + 110) with
      | Raise e => Abort e []
      | Ok (inl why) => Break why []
      | Ok (inr (pos', evs)) => Continue pos' evs
      end
  end.
Proof.
  intros Hpos Hfit. unfold cpio_step. rewrite f_read_header by lia.
  rewrite py_len_slice by lia.
  replace (pos + 110 - pos) with 110 by lia. rewrite Z.ltb_irrefl.
  rewrite (py_slice_slice content pos 110 0 6) by lia.
  rewrite Z.add_0_r.
  replace (pos + 110 - 110) with pos by lia.
  reflexivity.
Qed.

Lemma cpio_entry_Trailer content dest header pos why :
  cpio_entry content dest header pos = Ok (inl why) -> why = Trailer.
Proof.
  unfold cpio_entry. intros H.
  repeat (apply bind_Ok in H; destruct H as (? & ? & H); cbv zeta in H;
          try match type of H with
              | context [let '(_, _) := ?p in _] => destruct p
              end).
  destruct (str_eqb _ TRAILER); [injection H as <-; reflexivity|].
  apply bind_Ok in H. destruct H as (? & ? & H). discriminate.
Qed.

Lemma str_eqb_true a b : str_eqb a b = true -> a = b.
Proof.
  revert b. induction a as [|x a IH]; intros [|y b]; cbn [str_eqb];
    try discriminate; [reflexivity|].
  intros H. apply andb_prop in H. destruct H as [Hx Ha].
  apply Z.eqb_eq in Hx. rewrite Hx, (IH b Ha). reflexivity.
Qed.

(** The events recorded before are kept. *)
Lemma loop_reaches_trace content dest pos tr pos' tr' :
  loop_reaches content dest pos tr pos' tr' -> exists evs, tr' = tr ++ evs.
Proof.
  induction 1 as [pos tr|pos tr pos1 evs pos' tr' _ _ [evs' ->]].
  - exists []. symmetry. apply app_nil_r.
  - exists (evs ++ evs'). symmetry. apply app_assoc.
Qed.

(** A loop that ends ends in the iteration it has come to. *)
Lemma cpio_loop_reaches (fuel : nat) :
  forall content dest pos tr,
    0 <= pos <= py_len content ->
    match cpio_loop fuel content dest pos tr with
    | Stopped why t =>
      exists pos' tr' evs,
        loop_reaches content dest pos tr pos' tr' /\
        0 <= pos' <= py_len content /\
        cpio_step content dest pos' = Break why evs /\ t = tr' ++ evs
    | LoopRaised e t =>
      exists pos' tr' evs,
        loop_reaches content dest pos tr pos' tr' /\
        0 <= pos' <= py_len content /\
        cpio_step content dest pos' = Abort e evs /\ t = tr' ++ evs
    | OutOfFuel => True
    end.
Proof.
  induction fuel as [|fuel IH]; intros content dest pos tr Hpos; [exact I|].
  cbn [cpio_loop].
  destruct (cpio_step content dest pos) as [pos1 evs|why evs|e evs] eqn:Hs.
  - pose proof (cpio_step_progress _ _ _ _ _ Hs ltac:(lia)) as Hp.
    specialize (IH content dest pos1 (tr ++ evs) ltac:(lia)).
    destruct (cpio_loop fuel content dest pos1 (tr ++ evs)) as [why t|e t|];
      [| |exact I];
      destruct IH as (pos' & tr' & evs' & Hr & Hpos' & Hstep & Ht);
      exists pos', tr', evs';
      (split; [exact (reaches_next _ _ _ _ _ _ _ _ Hs Hr)|auto]).
  - exists pos, tr, evs. split; [constructor|auto].
  - exists pos, tr, evs. split; [constructor|auto].
Qed.

Lemma f_read_small content pos n :
  0 <= n -> exists chunk pos', f_read content pos n = Ok (chunk, pos').
Proof.
  intros Hn. unfold f_read.
  destruct (Z.ltb_spec n (-1)); [lia|]. eauto.
Qed.

(** The iteration ends at the trailer exactly when the name of its record
    is the trailer. *)
Lemma cpio_entry_trailer_iff content dest pos :
  cpio_entry content dest (py_slice content pos (pos + 110)) (pos + 110)
  = Ok (inl Trailer)
  <-> record_name content pos = Ok TRAILER.
Proof.
  unfold cpio_entry, record_name. cbv zeta.
  destruct (parse_cpio_fields (py_slice content pos (pos + 110))) as [h|e];
    cbn [bind]; [|split; discriminate].
  destruct (f_read content (pos + 110) (c_namesize h)) as [[raw p1]|e];
    cbn [bind fst]; [|split; discriminate].
  destruct (f_read_small content p1 ((4 - c_namesize h mod 4) mod 4))
    as (pad & p2 & Hpad).
  { pose proof (Z.mod_pos_bound (4 - c_namesize h mod 4) 4 ltac:(lia)). lia. }
  rewrite Hpad. cbn [bind].
  destruct (utf8_decode Ignore (rstrip NUL raw)) as [filename|e];
    cbn [bind]; [|split; discriminate].
  destruct (str_eqb filename TRAILER) eqn:E.
  - apply str_eqb_true in E. subst filename. split; reflexivity.
  - split.
    + destruct (materialize content p2 (c_mode h) (c_filesize h)
                            (full_path_of dest filename)); discriminate.
    + intros [= ->]. vm_compute in E. discriminate E.
Qed.

(** More iterations than the loop needs change nothing. *)
Lemma cpio_loop_more_fuel (f1 : nat) :
  forall f2 content dest pos tr,
    (f1 <= f2)%nat ->
    cpio_loop f1 content dest pos tr <> OutOfFuel ->
    cpio_loop f2 content dest pos tr = cpio_loop f1 content dest pos tr.
Proof.
  induction f1 as [|f1 IH]; intros f2 content dest pos tr Hle Hno;
    [cbn [cpio_loop] in Hno; congruence|].
  destruct f2 as [|f2]; [lia|].
  cbn [cpio_loop] in *.
  destruct (cpio_step content dest pos) as [pos1 evs|why evs|e evs];
    try reflexivity.
  apply IH; [lia|exact Hno].
Qed.

(** C5, as amended. The loop of [extract_cpio] always ends, in the
    iteration that it has come to from the start of the data through the
    iterations that went on, by the [break] of that iteration or by an
    exception in it, and with the events recorded before; after a [break]
    [extract_cpio] goes on to its last record and returns. An iteration
    breaks in exactly three cases: fewer than 110 bytes are left for a
    header; the six bytes of the magic are ASCII but neither 070701 nor
    070702; or the magic is one of the two and the name of the record is
    the trailer. On an unknown ASCII magic the loop stops in that very
    iteration, adds one warning to the events recorded so far, and raises
    nothing. The number of iterations allowed for is enough: with more of
    them the loop ends the same way. *)
Theorem cpio_loop_stop_conditions (content : bytes) (dest_dir : str) :
  (forall tr,
      exists pos tr',
        loop_reaches content dest_dir 0 tr pos tr' /\
        0 <= pos <= py_len content /\
        (exists evs0, tr' = tr ++ evs0) /\
        ((exists why evs,
             cpio_step content dest_dir pos = Break why evs /\
             cpio_loop (cpio_fuel content) content dest_dir 0 tr
             = Stopped why (tr' ++ evs) /\
             extract_cpio_data content dest_dir tr
             = Returned tt ((tr' ++ evs) ++ [Log (Info_ExtractedCpio dest_dir)]))
         \/ (exists e evs,
                cpio_step content dest_dir pos = Abort e evs /\
                cpio_loop (cpio_fuel content) content dest_dir 0 tr
                = LoopRaised e (tr' ++ evs) /\
                extract_cpio_data content dest_dir tr
                = Raised e (tr' ++ evs))))
  /\
  (forall pos why evs,
      0 <= pos ->
      cpio_step content dest_dir pos = Break why evs
      <->
      match why with
      | ShortHeader => py_len content < pos + 110 /\ evs = []
      | UnexpectedMagic =>
        exists magic,
          pos + 110 <= py_len content /\
          ascii_decode (py_slice content pos (pos + 6)) = Ok magic /\
          recognized_magic magic = false /\
          evs = [Log (Warn_UnexpectedCpioMagic magic pos)]
      | Trailer =>
        exists magic,
          pos + 110 <= py_len content /\
          ascii_decode (py_slice content pos (pos + 6)) = Ok magic /\
          recognized_magic magic = true /\
          record_name content pos = Ok TRAILER /\ evs = []
      end)
  /\
  (forall fuel pos tr magic,
      0 <= pos -> pos + 110 <= py_len content ->
      ascii_decode (py_slice content pos (pos + 6)) = Ok magic ->
      recognized_magic magic = false ->
      cpio_loop (S fuel) content dest_dir pos tr
      = Stopped UnexpectedMagic
                (tr ++ [Log (Warn_UnexpectedCpioMagic magic pos)]))
  /\
  (forall fuel pos tr,
      0 <= pos -> py_len content < pos + 110 ->
      cpio_loop (S fuel) content dest_dir pos tr = Stopped ShortHeader tr)
  /\
  (forall fuel tr,
      (cpio_fuel content <= fuel)%nat ->
      cpio_loop fuel content dest_dir 0 tr
      = cpio_loop (cpio_fuel content) content dest_dir 0 tr).
Proof.
  split; [|split; [|split; [|split]]].
  - intros tr.
    pose proof (cpio_loop_total content dest_dir tr) as Htot.
    pose proof (cpio_loop_reaches (cpio_fuel content) content dest_dir 0 tr
                  ltac:(pose proof (py_len_nonneg content); lia)) as Hr.
    unfold extract_cpio_data.
    destruct (cpio_loop (cpio_fuel content) content dest_dir 0 tr)
      as [why t|e t|]; [| |congruence];
      destruct Hr as (pos & tr' & evs & Hreach & Hpos & Hstep & ->);
      exists pos, tr'; (split; [exact Hreach|]); (split; [exact Hpos|]);
      (split; [exact (loop_reaches_trace _ _ _ _ _ _ Hreach)|]).
    + left. exists why, evs. auto.
    + right. exists e, evs. auto.
  - intros pos why evs Hpos.
    destruct (Z.le_gt_cases (pos + 110) (py_len content)) as [Hfit|Hshort].
    + rewrite cpio_step_full by lia.
      pose proof (cpio_entry_trailer_iff content dest_dir pos) as Htr.
      destruct (ascii_decode (py_slice content pos (pos + 6))) as [magic|] eqn:Hm.
      * destruct (recognized_magic magic) eqn:Hrec; cbn [negb].
        -- destruct (cpio_entry content dest_dir (py_slice content pos (pos + 110))
                                (pos + 110)) as [[w|[p e]]|] eqn:He.
           ++ pose proof (cpio_entry_Trailer _ _ _ _ _ He). subst w.
              split.
              ** intros [= <- <-]. exists magic.
                 repeat (split; [assumption || reflexivity|]).
                 split; [apply Htr; reflexivity|reflexivity].
              ** destruct why.
                 --- intros [? _]. lia.
                 --- intros (m & _ & [= <-] & Hf & _). congruence.
                 --- intros (m & _ & _ & _ & _ & ->). reflexivity.
           ++ split; [discriminate|].
              destruct why.
              ** intros [? _]. lia.
              ** intros (m & _ & [= <-] & Hf & _). congruence.
              ** intros (m & _ & _ & _ & Hn & _). apply Htr in Hn. discriminate Hn.
           ++ split; [discriminate|].
              destruct why.
              ** intros [? _]. lia.
              ** intros (m & _ & [= <-] & Hf & _). congruence.
              ** intros (m & _ & _ & _ & Hn & _). apply Htr in Hn. discriminate Hn.
        -- split.
           ++ intros [= <- <-]. exists magic. auto.
           ++ destruct why.
              ** intros [? _]. lia.
              ** intros (m & _ & [= <-] & _ & ->). reflexivity.
              ** intros (m & _ & [= <-] & Ht & _). congruence.
      * split; [discriminate|].
        destruct why.
        -- intros [? _]. lia.
        -- intros (m & _ & Hd & _). discriminate Hd.
        -- intros (m & _ & Hd & _). discriminate Hd.
    + rewrite cpio_step_short by lia. split.
      * intros [= <- <-]. split; [lia|reflexivity].
      * destruct why.
        -- intros [_ ->]. reflexivity.
        -- intros (m & ? & _). lia.
        -- intros (m & ? & _). lia.
  - intros fuel pos tr magic Hpos Hfit Hm Hrec.
    cbn [cpio_loop]. rewrite cpio_step_full by lia. rewrite Hm, Hrec.
    reflexivity.
  - intros fuel pos tr Hpos Hshort.
    cbn [cpio_loop]. rewrite cpio_step_short by lia.
    rewrite app_nil_r. reflexivity.
  - intros fuel tr Hfuel.
    apply cpio_loop_more_fuel; [exact Hfuel|apply cpio_loop_total].
Qed.

(** C5 on the archive that ends with the trailer, and on an archive
    whose second record, at offset 114, has the magic 07070X. *)
Lemma cpio_loop_stop_conditions_witness :
  (exists pos tr,
      loop_reaches archive_with_symlink (str_lit "/tmp/out") 0 [] pos tr /\
      record_name archive_with_symlink pos = Ok TRAILER /\
      cpio_loop (cpio_fuel archive_with_symlink) archive_with_symlink
                (str_lit "/tmp/out") 0 []
      = Stopped Trailer tr)
  /\
  cpio_loop 1 archive_bad_magic (str_lit "/tmp/out") 114
            [Fs (Makedirs (str_lit "/tmp/out/dir"))]
  = Stopped UnexpectedMagic
            [Fs (Makedirs (str_lit "/tmp/out/dir"));
             Log (Warn_UnexpectedCpioMagic (str_lit "07070X") 114)].
Proof.
  split.
  - destruct (cpio_loop_stop_conditions archive_with_symlink (str_lit "/tmp/out"))
      as (Hend & Hwhy & _).
    destruct (Hend []) as (pos & tr & Hreach & Hpos & _ & Hcase).
    exists pos, tr. split; [exact Hreach|].
    destruct (cpio_loop (cpio_fuel archive_with_symlink) archive_with_symlink
                        (str_lit "/tmp/out") 0 []) as [w t|e t|] eqn:Hloop;
      try (vm_compute in Hloop; discriminate Hloop).
    assert (Hw : w = Trailer).
    { vm_compute in Hloop. injection Hloop as <- _. reflexivity. }
    subst w.
    destruct Hcase as [(why & evs & Hstep & Hl & _)|(e & evs & _ & Hl & _)];
      [|discriminate Hl].
    injection Hl as <- ->.
    apply (Hwhy pos Trailer evs (proj1 Hpos)) in Hstep.
    destruct Hstep as (magic & _ & _ & _ & Hname & ->).
    split; [exact Hname|]. rewrite app_nil_r. reflexivity.
  - destruct (cpio_loop_stop_conditions archive_bad_magic (str_lit "/tmp/out"))
      as (_ & _ & Hmagic & _).
    apply (Hmagic 0%nat 114 [Fs (Makedirs (str_lit "/tmp/out/dir"))]
                  (str_lit "07070X")).
    + lia.
    + vm_compute. discriminate.
    + vm_compute. reflexivity.
    + vm_compute. reflexivity.
Defined.

(** C5 as stated fails: on an archive that ends after its only record
    the loop stops although it has seen neither the trailer nor an unknown
    magic. *)
Lemma cpio_loop_stops_at_end_of_data :
  cpio_loop (cpio_fuel archive_no_trailer) archive_no_trailer
            (str_lit "/tmp/out") 0 []
  = Stopped ShortHeader [Fs (Makedirs (str_lit "/tmp/out/dir"))].
Proof. vm_compute. reflexivity. Qed.

(** A magic with a byte above 0x7F is not reported as unknown: decoding
    it raises. *)
Lemma cpio_loop_raises_on_non_ascii_magic :
  cpio_loop (cpio_fuel archive_magic_not_ascii) archive_magic_not_ascii
            (str_lit "/tmp/out") 0 []
  = LoopRaised UnicodeDecodeError [].
Proof. vm_compute. reflexivity. Qed.

(* ===================================================================== *)
(** * Selection of the recovery ramdisk *)
(* ===================================================================== *)

Section ExtractFromImage.

Variable gzip_decompress : bytes -> option bytes.

Lemma extract_cpio_data_returns content dest tr :
  extract_cpio_data content dest tr <> Diverged.
Proof.
  unfold extract_cpio_data.
  pose proof (cpio_loop_total content dest tr).
  destruct (cpio_loop (cpio_fuel content) content dest 0 tr);
    congruence.
Qed.

Lemma extract_cpio_returns file dest :
  extract_cpio gzip_decompress file dest <> Diverged.
Proof.
  unfold extract_cpio. destruct file as [raw|]; [|discriminate].
  destruct (bytes_eqb (py_slice raw 0 2) GZIP_MAGIC).
  - destruct (gzip_decompress raw); [apply extract_cpio_data_returns|discriminate].
  - apply extract_cpio_data_returns.
Qed.

Lemma ramdisk_dir_not_empty work_dir e : ramdisk_dir work_dir e <> [].
Proof.
  unfold ramdisk_dir, os_path_join.
  change (str_lit "ramdisk_" ++ ramdisk_label e)
    with (114 :: (str_lit "amdisk_" ++ ramdisk_label e)).
  cbn [startswith_sep]. change (114 =? SEP) with false. cbv iota.
  destruct (is_nil work_dir || endswith_sep work_dir);
    destruct work_dir; discriminate.
Qed.

Lemma find_snoc {A} (f : A -> bool) (l : list A) (x : A) :
  find f (l ++ [x]) =
  match find f l with
  | Some y => Some y
  | None => if f x then Some x else None
  end.
Proof.
  induction l as [|y l IH]; simpl; [reflexivity|].
  destruct (f y); [reflexivity | exact IH].
Qed.

Lemma extract_entries_returns work_dir data entries :
  Forall (extracts_cleanly gzip_decompress data work_dir) entries ->
  forall recovery tr,
  exists tr',
    extract_entries gzip_decompress work_dir data entries recovery tr
    = Returned
        (match find is_recovery (rev entries) with
         | Some e => Some (ramdisk_dir work_dir e)
         | None => recovery
         end) tr'.
Proof.
  induction 1 as [|e rest [tre He] _ IH]; intros recovery tr.
  - simpl. eauto.
  - cbn [extract_entries]. cbv zeta. rewrite He.
    match goal with
    | |- context [extract_entries _ _ _ rest ?r ?t] =>
      destruct (IH r t) as [tr' ->]
    end.
    exists tr'. f_equal. cbn [rev]. rewrite find_snoc.
    destruct (find is_recovery (rev rest)); [reflexivity|].
    unfold is_recovery. destruct (type e =? VENDOR_RAMDISK_TYPE_RECOVERY);
      reflexivity.
Qed.

(** C3, as amended. When the table is not empty and every archive of it
    is extracted without an exception, [_extract_from_image] sets
    [recovery_ramdisk_dir] to the directory of the last entry of type
    recovery, in the order of the table, and to the directory of the
    first entry when there is none. *)
Theorem extract_from_image_selects_last_recovery
        (work_dir : str) (h : VendorBootHeader)
        (entries : list VendorRamdiskEntry) :
  entries <> [] ->
  Forall (extracts_cleanly gzip_decompress (data h) work_dir) entries ->
  exists e tr,
    last_recovery_or_first entries = Some e /\
    _extract_from_image gzip_decompress work_dir h entries
    = Returned (ramdisk_dir work_dir e) tr.
Proof.
  intros Hne Hclean. unfold _extract_from_image.
  match goal with
  | |- context [extract_entries _ _ _ _ None ?t] =>
    destruct (extract_entries_returns work_dir (data h) entries Hclean None t)
      as [tr' ->]
  end.
  unfold last_recovery_or_first.
  destruct entries as [|first rest]; [congruence|].
  destruct (find is_recovery (rev (first :: rest))) as [e|].
  - exists e.
    pose proof (ramdisk_dir_not_empty work_dir e) as Hd.
    destruct (ramdisk_dir work_dir e) as [|c d] eqn:Hdir; [congruence|].
    cbn [truthy negb]. eauto.
  - exists first. cbn [truthy negb head].
    pose proof (ramdisk_dir_not_empty work_dir first) as Hd.
    destruct (ramdisk_dir work_dir first) as [|c d] eqn:Hdir; [congruence|].
    eauto.
Qed.

End ExtractFromImage.

(** C3 on an image whose table has the recovery ramdisks [first] and
    [second]. *)
Lemma extract_from_image_selects_last_recovery_witness :
  exists h es e tr,
    VendorBootHeader_init image_two_recovery = Ok h /\
    get_ramdisk_entries h = Ok es /\
    name e = str_lit "second" /\
    _extract_from_image no_gzip (str_lit "work") h es
    = Returned (str_lit "work/ramdisk_second") tr.
Proof.
  destruct (VendorBootHeader_init image_two_recovery) as [h|x] eqn:E;
    [|vm_compute in E; discriminate E].
  destruct (get_ramdisk_entries h) as [es|x] eqn:Ees;
    [|run_parse E; vm_compute in Ees; discriminate Ees].
  destruct (extract_from_image_selects_last_recovery no_gzip (str_lit "work") h es)
    as (e & tr & He & Hr).
  - run_parse E. vm_compute in Ees. injection Ees as <-.
    discriminate.
  - run_parse E. vm_compute in Ees. injection Ees as <-.
    repeat constructor; eexists; vm_compute; reflexivity.
  - exists h, es, e, tr. split; [reflexivity|]. split; [exact Ees|].
    run_parse E. vm_compute in Ees. injection Ees as <-.
    vm_compute in He. injection He as <-. split; [reflexivity|].
    rewrite Hr. reflexivity.
Defined.

(** C3 as stated fails: of two recovery entries the first one is not the
    one chosen. *)
Lemma extract_from_image_not_first_recovery :
  exists h es e tr,
    VendorBootHeader_init image_two_recovery = Ok h /\
    get_ramdisk_entries h = Ok es /\
    first_recovery_or_first es = Some e /\
    name e = str_lit "first" /\
    _extract_from_image no_gzip (str_lit "work") h es
    = Returned (str_lit "work/ramdisk_second") tr /\
    ramdisk_dir (str_lit "work") e <> str_lit "work/ramdisk_second".
Proof.
  destruct (VendorBootHeader_init image_two_recovery) as [h|x] eqn:E;
    [|vm_compute in E; discriminate E].
  run_parse E.
  eexists. eexists. eexists. eexists.
  split; [reflexivity|].
  split; [vm_compute; reflexivity|].
  split; [vm_compute; reflexivity|].
  split; [reflexivity|].
  split; [vm_compute; reflexivity|].
  vm_compute. discriminate.
Qed.

(* ===================================================================== *)
(** * Symlinks and containment *)
(* ===================================================================== *)

(** ** Symlinks *)

Lemma pad_range n : 0 <= (4 - n mod 4) mod 4 < 4.
Proof. apply Z.mod_pos_bound. lia. Qed.

Lemma f_read_nonneg content pos n :
  0 <= n ->
  f_read content pos n
  = Ok (py_slice content pos (pos + n),
        pos + py_len (py_slice content pos (pos + n))).
Proof.
  intros Hn. unfold f_read.
  destruct (Z.ltb_spec n (-1)); [lia|].
  destruct (Z.ltb_spec n 0); [lia|]. reflexivity.
Qed.

(** An entry with content is written as a regular file, whatever its
    mode says. *)
Lemma materialize_with_content content pos mode filesize full_path :
  0 < filesize ->
  exists pos',
    materialize content pos mode filesize full_path
    = Ok (pos', [Fs (Makedirs (os_path_dirname full_path));
                 Fs (WriteFile full_path
                               (py_slice content pos (pos + filesize)))]).
Proof.
  intros Hfs. unfold materialize.
  destruct (Z.eqb_spec filesize 0); [lia|].
  rewrite f_read_nonneg by lia. cbn [bind].
  rewrite f_read_nonneg by apply pad_range. cbn [bind].
  eexists. reflexivity.
Qed.

(** The symlink branch is taken for an empty link target only. *)
Lemma materialize_symlink content pos mode full_path :
  S_ISLNK mode = Ok true ->
  materialize content pos mode 0 full_path
  = Ok (pos, [Fs (Symlink [] full_path)]).
Proof.
  intros Hl. unfold materialize. change (0 =? 0) with true. cbv iota.
  unfold S_ISLNK, S_ISDIR in *.
  destruct (mode <? 0); [discriminate|]. injection Hl as Hl.
  apply Z.eqb_eq in Hl. rewrite Hl.
  change (40960 =? 16384) with false. change (40960 =? 40960) with true.
  cbn [bind]. rewrite f_read_nonneg by lia. cbn [bind].
  replace (pos + 0) with pos by lia.
  assert (Hs : forall p, py_slice content p p = []).
  { intros p. unfold py_slice. rewrite Z.sub_diag. reflexivity. }
  rewrite Hs. cbn [utf8_decode bind].
  change ((4 - 0 mod 4) mod 4) with 0.
  rewrite f_read_nonneg by lia. cbn [bind].
  unfold py_len at 1 2 3. cbn [length Z.of_nat]. rewrite !Z.add_0_r.
  rewrite Hs. unfold py_len. cbn [length Z.of_nat]. rewrite Z.add_0_r.
  reflexivity.
Qed.

(** C2 fails on the code: the entry [dir/link] of the sample archive has
    the mode of a symlink and the target [hi.txt]; it is written as a
    regular file that holds [hi.txt], and no symlink is created. *)
Theorem extract_cpio_symlink_written_as_file :
  exists tr,
    extract_cpio no_gzip (Some archive_with_symlink) (str_lit "/tmp/out")
    = Returned tt tr /\
    fs_ops tr
    = [Makedirs (str_lit "/tmp/out");
       Makedirs (str_lit "/tmp/out/dir");
       Makedirs (str_lit "/tmp/out/dir");
       WriteFile (str_lit "/tmp/out/dir/hi.txt") (bytes_lit "hi");
       Makedirs (str_lit "/tmp/out/dir");
       WriteFile (str_lit "/tmp/out/dir/link") (bytes_lit "hi.txt")] /\
    existsb is_symlink_op (fs_ops tr) = false.
Proof.
  eexists. split; [vm_compute; reflexivity|].
  split; vm_compute; reflexivity.
Qed.

(** ** Containment *)

Lemma str_eqb_eq a b : str_eqb a b = true <-> a = b.
Proof.
  revert b. induction a as [|x a IH]; intros [|y b]; simpl; try (split; congruence).
  rewrite andb_true_iff, IH, Z.eqb_eq. split; [intros [-> ->]|intros [= -> ->]]; auto.
Qed.

Lemma split_sep_from_app cur a b :
  split_sep_from cur (a ++ SEP :: b) = split_sep_from cur a ++ split_sep b.
Proof.
  revert cur. induction a as [|c a IH]; intros cur; simpl.
  - reflexivity.
  - destruct (c =? SEP); simpl; rewrite IH; reflexivity.
Qed.

Lemma split_sep_app a b :
  split_sep (a ++ SEP :: b) = split_sep a ++ split_sep b.
Proof. apply split_sep_from_app. Qed.

Lemma comps_prefix_snoc base comps x :
  comps_prefix base comps = true -> comps_prefix base (comps ++ [x]) = true.
Proof.
  revert comps. induction base as [|y base IH]; intros comps; [reflexivity|].
  destruct comps as [|z comps]; simpl; [discriminate|].
  rewrite !andb_true_iff. intros [? ?]. auto.
Qed.

Lemma norm_step_keeps_prefix absolute base comps comp :
  str_eqb comp DOTDOT = false ->
  comps_prefix base comps = true ->
  comps_prefix base (norm_step absolute comps comp) = true.
Proof.
  intros Hdd Hp. unfold norm_step. rewrite Hdd. cbn [negb orb].
  destruct (str_eqb comp [] || str_eqb comp DOT); [assumption|].
  apply comps_prefix_snoc. assumption.
Qed.

Lemma fold_norm_step_keeps_prefix absolute base l :
  forall comps,
    Forall (fun c => str_eqb c DOTDOT = false) l ->
    comps_prefix base comps = true ->
    comps_prefix base (fold_left (norm_step absolute) l comps) = true.
Proof.
  induction l as [|c l IH]; intros comps Hl Hp; [assumption|].
  inversion Hl; subst. simpl. apply IH; [assumption|].
  apply norm_step_keeps_prefix; assumption.
Qed.

Lemma comps_prefix_refl l : comps_prefix l l = true.
Proof.
  induction l as [|x l IH]; [reflexivity|]. simpl. rewrite IH.
  rewrite andb_true_r. apply str_eqb_eq. reflexivity.
Qed.

Lemma lstrip_not_sep s : startswith_sep (lstrip SEP s) = false.
Proof.
  induction s as [|c s IH]; [reflexivity|]. simpl.
  destruct (c =? SEP) eqn:Hc; [exact IH|]. simpl. exact Hc.
Qed.

Lemma split_sep_lstrip s :
  Forall (fun c => str_eqb c DOTDOT = false) (split_sep s) ->
  Forall (fun c => str_eqb c DOTDOT = false) (split_sep (lstrip SEP s)).
Proof.
  induction s as [|c s IH]; intros H; [exact H|]. simpl.
  destruct (c =? SEP) eqn:Hc; [|exact H].
  apply IH. unfold split_sep in H. simpl in H. rewrite Hc in H.
  inversion H; assumption.
Qed.

Lemma endswith_sep_snoc s :
  endswith_sep s = true -> exists s', s = s' ++ [SEP].
Proof.
  unfold endswith_sep. destruct (last s) as [c|] eqn:Hl; [|discriminate].
  intros Hc. apply Z.eqb_eq in Hc. subst c.
  apply last_Some in Hl. exact Hl.
Qed.

Lemma startswith_sep_app a b :
  a <> [] -> startswith_sep (a ++ b) = startswith_sep a.
Proof. destruct a; [congruence | reflexivity]. Qed.

(** A name without [..] among its components is created below the
    destination directory. *)
Lemma full_path_inside dest_dir filename :
  Forall (fun c => str_eqb c DOTDOT = false) (split_sep filename) ->
  path_inside dest_dir (full_path_of dest_dir filename) = true.
Proof.
  intros Hdd. apply split_sep_lstrip in Hdd.
  pose proof (lstrip_not_sep filename) as Hrel.
  unfold full_path_of, os_path_join. rewrite Hrel.
  set (rest := lstrip SEP filename) in *.
  unfold path_inside. apply andb_true_iff.
  destruct dest_dir as [|d0 dest'] eqn:Hdest.
  - cbn [is_nil orb app]. rewrite Hrel. split; [reflexivity|].
    reflexivity.
  - rewrite <- Hdest in *.
    assert (Hne : dest_dir <> []) by (rewrite Hdest; discriminate).
    replace (is_nil dest_dir) with false by (rewrite Hdest; reflexivity).
    cbn [orb].
    destruct (endswith_sep dest_dir) eqn:He.
    + destruct (endswith_sep_snoc _ He) as [d' Hd'].
      rewrite startswith_sep_app by assumption.
      split; [destruct (startswith_sep dest_dir); reflexivity|].
      unfold norm_comps. rewrite startswith_sep_app by assumption.
      rewrite Hd'. rewrite <- app_assoc. cbn [app].
      rewrite !split_sep_app. rewrite !fold_left_app.
      change (split_sep []) with [[] : str]. cbn [fold_left].
      change (norm_step (startswith_sep (d' ++ [SEP]))
                (fold_left (norm_step (startswith_sep (d' ++ [SEP])))
                           (split_sep d') []) [])
        with (fold_left (norm_step (startswith_sep (d' ++ [SEP])))
                        (split_sep d') []).
      apply fold_norm_step_keeps_prefix; [assumption|apply comps_prefix_refl].
    + rewrite startswith_sep_app by assumption.
      split; [destruct (startswith_sep dest_dir); reflexivity|].
      unfold norm_comps. rewrite startswith_sep_app by assumption.
      cbn [app]. rewrite split_sep_app. rewrite fold_left_app.
      apply fold_norm_step_keeps_prefix; [assumption|apply comps_prefix_refl].
Qed.

(** Leading separators are stripped: an absolute name is created below
    the destination directory. *)
Lemma full_path_of_absolute dest_dir filename :
  full_path_of dest_dir (SEP :: filename) = full_path_of dest_dir filename.
Proof. reflexivity. Qed.

Lemma extract_cpio_absolute_name :
  exists tr,
    extract_cpio no_gzip (Some archive_absolute) (str_lit "/tmp/out")
    = Returned tt tr /\
    fs_ops tr
    = [Makedirs (str_lit "/tmp/out");
       Makedirs (str_lit "/tmp/out/etc");
       WriteFile (str_lit "/tmp/out/etc/passwd") (bytes_lit "root")] /\
    forallb (fun op => path_inside (str_lit "/tmp/out") (op_path op))
            (fs_ops tr) = true.
Proof.
  eexists. split; [vm_compute; reflexivity|].
  split; vm_compute; reflexivity.
Qed.

(** C1 fails on the code: the entry [../../etc/passwd], extracted to
    [/tmp/out], is written to [/tmp/out/../../etc/passwd], which is
    [/etc/passwd]. *)
Theorem extract_cpio_escapes_dest_dir :
  exists tr,
    extract_cpio no_gzip (Some archive_dotdot) (str_lit "/tmp/out")
    = Returned tt tr /\
    fs_ops tr
    = [Makedirs (str_lit "/tmp/out");
       Makedirs (str_lit "/tmp/out/../../etc");
       WriteFile (str_lit "/tmp/out/../../etc/passwd") (bytes_lit "root")] /\
    norm_comps (str_lit "/tmp/out/../../etc/passwd")
    = [str_lit "etc"; str_lit "passwd"] /\
    forallb (fun op => path_inside (str_lit "/tmp/out") (op_path op))
            (fs_ops tr) = false.
Proof.
  eexists. split; [vm_compute; reflexivity|].
  split; [vm_compute; reflexivity|].
  split; vm_compute; reflexivity.
Qed.

(* ===================================================================== *)
(** * Search and replacement *)
(* ===================================================================== *)

Lemma byte_eqb_eq a b : byte_eqb a b = true <-> a = b.
Proof.
  unfold byte_eqb. split; [apply Byte.byte_dec_bl | apply Byte.byte_dec_lb].
Qed.

Lemma starts_with_spec sub s :
  starts_with sub s = true <-> take (length sub) s = sub.
Proof.
  revert s. induction sub as [|x sub IH]; intros s.
  - simpl. rewrite take_0. destruct s; split; reflexivity.
  - destruct s as [|y s]; simpl; [split; discriminate|].
    rewrite andb_true_iff, IH, byte_eqb_eq. split.
    + intros [-> ->]. reflexivity.
    + intros [= -> Ht]. auto.
Qed.

Lemma occurs_at_0 sub s : occurs_at sub s 0 <-> starts_with sub s = true.
Proof. unfold occurs_at. rewrite drop_0. symmetry. apply starts_with_spec. Qed.

Lemma occurs_at_S sub c s k : occurs_at sub (c :: s) (S k) <-> occurs_at sub s k.
Proof. unfold occurs_at. reflexivity. Qed.

Lemma occurs_at_nil sub k : sub <> [] -> ~ occurs_at sub [] k.
Proof.
  unfold occurs_at. intros Hne H. rewrite drop_nil, take_nil in H. congruence.
Qed.

Lemma occurs_at_bound sub s k :
  sub <> [] -> occurs_at sub s k -> (k + length sub <= length s)%nat.
Proof.
  unfold occurs_at. intros Hne H.
  assert (Hl : length (take (length sub) (drop k s)) = length sub) by (rewrite H; reflexivity).
  rewrite length_take, length_drop in Hl.
  destruct sub; [congruence|]. cbn [length] in *. lia.
Qed.

Lemma occurs_at_drop sub s c k :
  occurs_at sub (drop c s) k <-> occurs_at sub s (c + k).
Proof. unfold occurs_at. rewrite drop_drop. reflexivity. Qed.

Lemma find_at_cases sub s :
  forall i, 0 <= i ->
    (find_at sub s i = -1 /\ forall k, ~ occurs_at sub s k)
    \/ (exists k, find_at sub s i = i + Z.of_nat k /\ occurs_at sub s k /\
                  forall k', (k' < k)%nat -> ~ occurs_at sub s k').
Proof.
  induction s as [|c r IH]; intros i Hi.
  - cbn [find_at]. destruct (starts_with sub []) eqn:Hs.
    + right. exists 0%nat. split; [lia|]. split; [apply occurs_at_0; assumption|].
      intros k' Hk'. lia.
    + left. split; [reflexivity|]. intros k Hk.
      destruct sub; [discriminate|]. eapply occurs_at_nil; [|exact Hk]. discriminate.
  - cbn [find_at]. destruct (starts_with sub (c :: r)) eqn:Hs.
    + right. exists 0%nat. split; [lia|]. split; [apply occurs_at_0; assumption|].
      intros k' Hk'. lia.
    + destruct (IH (i + 1) ltac:(lia)) as [[Hf Hno]|(k & Hf & Hocc & Hfirst)].
      * left. split; [assumption|]. intros [|k] Hk.
        -- apply occurs_at_0 in Hk. congruence.
        -- apply occurs_at_S in Hk. exact (Hno k Hk).
      * right. exists (S k). split; [lia|]. split; [apply occurs_at_S; assumption|].
        intros [|k'] Hk' Hk.
        -- apply occurs_at_0 in Hk. congruence.
        -- apply occurs_at_S in Hk. apply (Hfirst k'); [lia | assumption].
Qed.

Lemma rfind_at_cases sub s :
  sub <> [] ->
  forall i, 0 <= i ->
    (rfind_at sub s i = -1 /\ forall k, ~ occurs_at sub s k)
    \/ (exists k, rfind_at sub s i = i + Z.of_nat k /\ occurs_at sub s k /\
                  forall k', (k < k')%nat -> ~ occurs_at sub s k').
Proof.
  intros Hne. induction s as [|c r IH]; intros i Hi.
  - left. cbn [rfind_at]. destruct sub; [congruence|]. cbn [starts_with].
    split; [reflexivity|]. intros k. apply occurs_at_nil. discriminate.
  - cbn [rfind_at]. cbv zeta.
    destruct (IH (i + 1) ltac:(lia)) as [[Hf Hno]|(k & Hf & Hocc & Hlast)].
    + rewrite Hf. change (-1 =? -1) with true. cbv iota.
      destruct (starts_with sub (c :: r)) eqn:Hs.
      * right. exists 0%nat. split; [lia|]. split; [apply occurs_at_0; assumption|].
        intros [|k'] Hk' Hk; [lia|]. apply occurs_at_S in Hk. exact (Hno k' Hk).
      * left. split; [reflexivity|]. intros [|k] Hk.
        -- apply occurs_at_0 in Hk. congruence.
        -- apply occurs_at_S in Hk. exact (Hno k Hk).
    + rewrite Hf. destruct (Z.eqb_spec (i + 1 + Z.of_nat k) (-1)); [lia|].
      right. exists (S k). split; [lia|]. split; [apply occurs_at_S; assumption|].
      intros [|k'] Hk' Hk; [lia|]. apply occurs_at_S in Hk.
      apply (Hlast k'); [lia | assumption].
Qed.

Lemma py_slice_to_take {A} (l : list A) (i : nat) :
  py_slice_to l (Z.of_nat i) = take i l.
Proof.
  unfold py_slice_to. rewrite py_slice_take_drop by lia.
  rewrite drop_0. f_equal. lia.
Qed.

Lemma py_slice_from_drop {A} (l : list A) (i : nat) :
  py_slice_from l (Z.of_nat i) = drop i l.
Proof.
  unfold py_slice_from. rewrite py_slice_take_drop by (unfold py_len; lia).
  rewrite Nat2Z.id. apply take_ge. rewrite length_drop. unfold py_len. lia.
Qed.

Lemma splice_replace_at (s new : bytes) (i : nat) (n : Z) :
  n = py_len new ->
  py_slice_to s (Z.of_nat i) ++ new ++ py_slice_from s (Z.of_nat i + n)
  = replace_at s i new.
Proof.
  intros ->. unfold replace_at, py_len.
  rewrite py_slice_to_take. rewrite <- Nat2Z.inj_add. rewrite py_slice_from_drop.
  reflexivity.
Qed.

Lemma length_replace_at (s new : bytes) (i : nat) :
  (i + length new <= length s)%nat -> length (replace_at s i new) = length s.
Proof.
  intros H. unfold replace_at. rewrite !length_app, length_take, length_drop. lia.
Qed.

Lemma drop_replace_at (s new : bytes) (i : nat) :
  (i + length new <= length s)%nat ->
  drop (i + length new) (replace_at s i new) = drop (i + length new) s.
Proof.
  intros H. unfold replace_at. rewrite app_assoc.
  rewrite drop_app_length'; [reflexivity|].
  rewrite length_app, length_take. lia.
Qed.

Lemma lookup_replace_at_outside (s new : list byte) (i k : nat) :
  (i + length new <= length s)%nat ->
  (k < i \/ i + length new <= k)%nat ->
  replace_at s i new !! k = s !! k.
Proof.
  intros Hb Hk. unfold replace_at. destruct Hk as [Hk|Hk].
  - rewrite lookup_app_l by (rewrite length_take; lia).
    apply lookup_take_lt. lia.
  - rewrite app_assoc. rewrite lookup_app_r by (rewrite length_app, length_take; lia).
    rewrite length_app, length_take. rewrite lookup_drop. f_equal. lia.
Qed.

Lemma lookup_replace_at_inside (s new : list byte) (i k : nat) :
  (i + length new <= length s)%nat -> (k < length new)%nat ->
  replace_at s i new !! (i + k)%nat = new !! k.
Proof.
  intros Hb Hk. unfold replace_at.
  rewrite lookup_app_r by (rewrite length_take; lia).
  rewrite length_take. rewrite lookup_app_l by lia. f_equal. lia.
Qed.

Lemma lookup_occurs_at (sub s : list byte) i k :
  occurs_at sub s i -> (k < length sub)%nat -> s !! (i + k)%nat = sub !! k.
Proof.
  unfold occurs_at. intros H Hk.
  transitivity (take (length sub) (drop i s) !! k); [|rewrite H; reflexivity].
  rewrite lookup_take_lt by lia. rewrite lookup_drop. reflexivity.
Qed.

(* ===================================================================== *)
(** * The patcher *)
(* ===================================================================== *)

Lemma bytes_find_cases (s sub : list byte) (c : nat) :
  sub <> [] ->
  (bytes_find s sub (Z.of_nat c) = -1 /\
   forall j, (c <= j)%nat -> ~ occurs_at sub s j)
  \/ (exists j, bytes_find s sub (Z.of_nat c) = Z.of_nat j /\
                first_occurrence_from sub s c j).
Proof.
  intros Hne. unfold bytes_find.
  destruct (Z.ltb_spec (Z.of_nat c) 0); [lia|]. rewrite Nat2Z.id.
  destruct (Z.ltb_spec (py_len s - Z.of_nat c) (py_len sub)) as [Hshort|Hroom].
  - left. split; [reflexivity|]. intros j Hj Hocc.
    apply occurs_at_bound in Hocc; [|assumption]. unfold py_len in Hshort. lia.
  - destruct (find_at_cases sub (drop c s) (Z.of_nat c) ltac:(lia))
      as [[Hf Hno]|(k & Hf & Hocc & Hfirst)].
    + left. split; [assumption|]. intros j Hj Hocc.
      apply (Hno (j - c)%nat). apply occurs_at_drop.
      replace (c + (j - c))%nat with j by lia. assumption.
    + right. exists (c + k)%nat. split; [lia|]. split; [lia|]. split.
      * apply occurs_at_drop. assumption.
      * intros k' Hk' Hocc'. apply (Hfirst (k' - c)%nat); [lia|].
        apply occurs_at_drop. replace (c + (k' - c))%nat with k' by lia.
        assumption.
Qed.

Lemma occurs_at_same_tail (sub a b : list byte) (c j : nat) :
  drop c a = drop c b -> (c <= j)%nat ->
  occurs_at sub a j <-> occurs_at sub b j.
Proof.
  intros Hd Hj. replace j with (c + (j - c))%nat by lia.
  rewrite <- !occurs_at_drop. rewrite Hd. reflexivity.
Qed.

(** What [patch_data] does, by the index [o1] at which pattern 1 is
    replaced and the index [o2] at which pattern 2 is. *)
Lemma patch_data_spec (data : list byte) :
  exists o1 o2 : option nat,
    match o1 with
    | Some i => last_occurrence pattern1_old data i
    | None => forall i, ~ occurs_at pattern1_old data i
    end /\
    match o2 with
    | Some j => first_occurrence_from pattern2_old data (cursor_of o1) j
    | None => forall j, (cursor_of o1 <= j)%nat -> ~ occurs_at pattern2_old data j
    end /\
    new_data (patch_data data)
    = replace_opt o2 pattern2_new (replace_opt o1 pattern1_new data) /\
    modified (patch_data data)
    = match o1, o2 with None, None => false | _, _ => true end /\
    patch_log (patch_data data)
    = [match o1 with
       | Some i => Info_FoundPattern1 (Z.of_nat i)
       | None => Warn_Pattern1NotFound
       end;
       match o2 with
       | Some j => Info_FoundPattern2 (Z.of_nat j)
       | None => if Z.of_nat (cursor_of o1) <? py_len data
                 then Warn_Pattern2NotFound
                 else Warn_SearchStartBeyondEnd
       end].
Proof.
  assert (Hstep2 : forall (mid : list byte) (cz : Z) (c : nat) (m : bool) l1,
    cz = Z.of_nat c ->
    length mid = length data -> drop c mid = drop c data ->
    exists o2 : option nat,
      match o2 with
      | Some j => first_occurrence_from pattern2_old data c j
      | None => forall j, (c <= j)%nat -> ~ occurs_at pattern2_old data j
      end /\
      (let '(new_data, modified, log2) :=
         if cz <? py_len mid then
           let pos2 := bytes_find mid pattern2_old cz in
           if negb (pos2 =? -1) then
             (py_slice_to mid pos2 ++ pattern2_new
                ++ py_slice_from mid (pos2 + py_len pattern2_old),
              true, [Info_FoundPattern2 pos2])
           else (mid, m, [Warn_Pattern2NotFound])
         else (mid, m, [Warn_SearchStartBeyondEnd]) in
       {| new_data := new_data; modified := modified; patch_log := l1 ++ log2 |})
      = {| new_data := replace_opt o2 pattern2_new mid;
           modified := match o2 with Some _ => true | None => m end;
           patch_log := l1 ++ match o2 with
                              | Some j => [Info_FoundPattern2 (Z.of_nat j)]
                              | None => if cz <? py_len mid
                                        then [Warn_Pattern2NotFound]
                                        else [Warn_SearchStartBeyondEnd]
                              end |}).
  { intros mid cz c m l1 -> Hlen Htail.
    destruct (Z.ltb_spec (Z.of_nat c) (py_len mid)) as [Hin|Hout].
    - destruct (bytes_find_cases mid pattern2_old c ltac:(discriminate))
        as [[Hf Hno]|(j & Hf & Hc & Hocc & Hfirst)].
      + exists None. split.
        * intros j Hj Hocc. apply (Hno j Hj).
          apply (occurs_at_same_tail _ mid data c j); assumption.
        * cbv zeta. rewrite Hf. reflexivity.
      + exists (Some j). split.
        * split; [assumption|]. split.
          -- apply (occurs_at_same_tail _ mid data c j); assumption.
          -- intros k Hk Hocck. apply (Hfirst k Hk).
             apply (occurs_at_same_tail _ mid data c k); [assumption|lia|assumption].
        * cbv zeta. rewrite Hf.
          destruct (Z.eqb_spec (Z.of_nat j) (-1)); [lia|]. cbn [negb].
          rewrite splice_replace_at by reflexivity. reflexivity.
    - exists None. split.
      + intros j Hj Hocc. apply occurs_at_bound in Hocc; [|discriminate].
        unfold py_len in Hout. simpl in Hocc. lia.
      + reflexivity. }
  unfold patch_data, bytes_rfind.
  destruct (rfind_at_cases pattern1_old data ltac:(discriminate) 0 ltac:(lia))
    as [[Hr Hno]|(i & Hr & Hocc & Hlast)].
  - rewrite Hr.
    destruct (Hstep2 data 0 0%nat false [Warn_Pattern1NotFound]
                     eq_refl eq_refl eq_refl) as (o2 & Ho2 & Heq).
    exists None, o2. split; [assumption|]. split; [assumption|].
    match goal with
    | |- new_data ?X = _ /\ _ =>
      let T := type of Heq in
      match T with _ = ?R => assert (HX : X = R) by exact Heq; rewrite HX end
    end.
    cbn [cursor_of replace_opt new_data modified patch_log].
    split; [reflexivity|]. split; [destruct o2; reflexivity|].
    destruct o2; [reflexivity|].
    change (Z.of_nat 0) with 0. destruct (0 <? py_len data); reflexivity.
  - rewrite Z.add_0_l in Hr. rewrite Hr.
    destruct (Z.eqb_spec (Z.of_nat i) (-1)) as [|Hne]; [lia|].
    pose proof (occurs_at_bound pattern1_old data i ltac:(discriminate) Hocc) as Hb.
    change (length pattern1_old) with (length pattern1_new) in Hb.
    pose proof (splice_replace_at data pattern1_new i (py_len pattern1_old)
                                  eq_refl) as Hmid.
    destruct (Hstep2 (py_slice_to data (Z.of_nat i) ++ pattern1_new
                        ++ py_slice_from data (Z.of_nat i + py_len pattern1_old))
                     (Z.of_nat i + py_len pattern1_new)
                     (i + length pattern1_new)%nat
                     true [Info_FoundPattern1 (Z.of_nat i)])
      as (o2 & Ho2 & Heq).
    + unfold py_len. lia.
    + rewrite Hmid. apply length_replace_at. assumption.
    + rewrite Hmid. apply drop_replace_at. assumption.
    + exists (Some i), o2. split; [split; assumption|]. split; [assumption|].
      match goal with
      | |- new_data ?X = _ /\ _ =>
        let T := type of Heq in
        match T with _ = ?R => assert (HX : X = R) by exact Heq; rewrite HX end
      end.
      cbn [cursor_of replace_opt new_data modified patch_log]. rewrite Hmid.
      split; [reflexivity|]. split; [destruct o2; reflexivity|].
      replace (py_len (replace_at data i pattern1_new)) with (py_len data)
        by (unfold py_len; rewrite length_replace_at by assumption; reflexivity).
      destruct o2; [reflexivity|].
      replace (Z.of_nat (i + length pattern1_new))
        with (Z.of_nat i + py_len pattern1_new) by (unfold py_len; lia).
      destruct (Z.of_nat i + py_len pattern1_new <? py_len data); reflexivity.
Qed.

(* ===================================================================== *)
(** * Claims on the patcher *)
(* ===================================================================== *)

(** C8. [patch_data] replaces the last occurrence of the old bytes of
    pattern 1 and sets the cursor right after it, or leaves the blob and
    sets the cursor to 0 when there is none; then it replaces the first
    occurrence of the old bytes of pattern 2 at or after the cursor, or
    nothing when there is none there. Each of the four combinations is
    possible, and no occurrence before the cursor is touched. *)
Theorem patch_data_last_then_first (data : list byte) :
  exists (cursor : nat) (mid : list byte),
    ((exists i, last_occurrence pattern1_old data i /\
                cursor = (i + length pattern1_new)%nat /\
                mid = replace_at data i pattern1_new)
     \/ ((forall i, ~ occurs_at pattern1_old data i) /\
         cursor = 0%nat /\ mid = data))
    /\
    ((exists j, first_occurrence_from pattern2_old data cursor j /\
                new_data (patch_data data) = replace_at mid j pattern2_new)
     \/ ((forall j, (cursor <= j)%nat -> ~ occurs_at pattern2_old data j) /\
         new_data (patch_data data) = mid)).
Proof.
  destruct (patch_data_spec data) as (o1 & o2 & H1 & H2 & Hnew & _ & _).
  exists (cursor_of o1), (replace_opt o1 pattern1_new data). split.
  - destruct o1 as [i|]; [left; exists i; auto | right; auto].
  - destruct o2 as [j|]; [left; exists j; auto | right; auto].
Qed.

(** Of two occurrences of pattern 1 only the second one is patched, and
    the occurrence of pattern 2 before it is left alone. *)
Lemma patch_data_last_then_first_example :
  new_data (patch_data blob_two_pattern1)
  = [x01] ++ pattern1_old ++ pattern2_old ++ pattern1_new
          ++ pattern2_new ++ [x02] ++ pattern2_old.
Proof. vm_compute. reflexivity. Qed.

Lemma fs_ops_app (a b : list event) : fs_ops (a ++ b) = fs_ops a ++ fs_ops b.
Proof. unfold fs_ops. apply flat_map_app. Qed.

Lemma fs_ops_logs (l : list log_record) : fs_ops (map Log l) = [].
Proof. induction l; [reflexivity | assumption]. Qed.

Lemma modified_iff_replacement (data : list byte) :
  modified (patch_data data) = true <-> replacement_occurs data.
Proof.
  destruct (patch_data_spec data) as (o1 & o2 & H1 & H2 & _ & Hmod & _).
  rewrite Hmod. unfold replacement_occurs, cursor_after_pattern1. split.
  - destruct o1 as [i|].
    + intros _. left. exists i. apply H1.
    + destruct o2 as [j|]; [|discriminate]. intros _. right.
      destruct H2 as (Hc & Hocc & _). exists 0%nat, j. split; [right; auto|].
      split; [lia | assumption].
  - intros [[i Hi]|(c & j & [(i & Hi & ->)|[Hno ->]] & Hj & Hocc)].
    + destruct o1; [reflexivity|]. exfalso. exact (H1 i Hi).
    + destruct o1; [reflexivity|]. exfalso. exact (H1 i (proj1 Hi)).
    + destruct o1 as [i|]; [reflexivity|]. destruct o2; [reflexivity|].
      exfalso. exact (H2 j ltac:(simpl; lia) Hocc).
Qed.

Lemma patch_data_changes (data : list byte) :
  modified (patch_data data) = true -> new_data (patch_data data) <> data.
Proof.
  destruct (patch_data_spec data) as (o1 & o2 & H1 & H2 & Hnew & Hmod & _).
  rewrite Hmod, Hnew. intros Hm Heq.
  destruct o1 as [i|].
  - destruct H1 as [Hocc _].
    pose proof (occurs_at_bound pattern1_old data i ltac:(discriminate) Hocc) as Hb.
    assert (Hl : replace_opt o2 pattern2_new
                   (replace_opt (Some i) pattern1_new data) !! (i + 4)%nat
                 = Some x00).
    { cbn [replace_opt]. destruct o2 as [j|].
      - destruct H2 as (Hc & Hocc2 & _).
        pose proof (occurs_at_bound pattern2_old data j ltac:(discriminate) Hocc2).
        cbn [replace_opt]. simpl in Hc.
        rewrite lookup_replace_at_outside.
        + apply (lookup_replace_at_inside data pattern1_new i 4); simpl; lia.
        + rewrite length_replace_at by (simpl; simpl in Hb; lia).
          simpl in *. lia.
        + lia.
      - cbn [replace_opt].
        apply (lookup_replace_at_inside data pattern1_new i 4); simpl; simpl in Hb; lia. }
    rewrite Heq in Hl.
    rewrite (lookup_occurs_at pattern1_old data i 4 Hocc) in Hl by (simpl; lia).
    discriminate Hl.
  - destruct o2 as [j|]; [|discriminate].
    destruct H2 as (_ & Hocc2 & _).
    pose proof (occurs_at_bound pattern2_old data j ltac:(discriminate) Hocc2) as Hb.
    cbn [replace_opt] in Heq.
    assert (Hl : replace_at data j pattern2_new !! (j + 0)%nat = Some x20).
    { rewrite Heq. apply (lookup_occurs_at pattern2_old data j 0 Hocc2). simpl. lia. }
    rewrite (lookup_replace_at_inside data pattern2_new j 0) in Hl
      by (simpl; simpl in Hb; lia).
    discriminate Hl.
Qed.

(** C9. For a file that exists, [patch_adaptive_ts] writes it if and only
    if one of the two replacements takes place, and then it writes the
    patched blob, which differs from the original; when neither pattern
    is found the store is left as it was and nothing is written. *)
Theorem patch_adaptive_ts_writes_iff_replaced
        (fs : gmap (list Z) (list byte)) (module_path : list Z)
        (data : list byte) :
  fs !! module_path = Some data ->
  let fs' := fst (patch_adaptive_ts fs module_path) in
  let tr := snd (patch_adaptive_ts fs module_path) in
  ((exists d, In (WriteFile module_path d) (fs_ops tr))
   <-> replacement_occurs data)
  /\
  (replacement_occurs data ->
   fs' = <[module_path := new_data (patch_data data)]> fs /\
   fs_ops tr = [WriteFile module_path (new_data (patch_data data))] /\
   new_data (patch_data data) <> data)
  /\
  (~ replacement_occurs data -> fs' = fs /\ fs_ops tr = []).
Proof.
  intros Hfile fs' tr. subst fs' tr. unfold patch_adaptive_ts. rewrite Hfile.
  pose proof (modified_iff_replacement data) as Hiff.
  pose proof (patch_data_changes data) as Hch.
  destruct (modified (patch_data data)) eqn:Hm; cbn [fst snd].
  - rewrite fs_ops_app, fs_ops_logs. cbn [app fs_ops flat_map].
    split; [|split].
    + split; [intros _; apply Hiff; reflexivity|].
      intros _. eexists. left. reflexivity.
    + intros _. auto.
    + intros Hno. exfalso. apply Hno. apply Hiff. reflexivity.
  - rewrite fs_ops_app, fs_ops_logs. cbn [app fs_ops flat_map].
    split; [|split].
    + split; [intros [d []]|]. intros Hr. apply Hiff in Hr. discriminate.
    + intros Hr. apply Hiff in Hr. discriminate.
    + intros _. auto.
Qed.

(** C9 on a file without either pattern. *)
Lemma patch_adaptive_ts_writes_iff_replaced_witness :
  fst (patch_adaptive_ts sample_store (str_lit "plain.ko")) = sample_store /\
  fs_ops (snd (patch_adaptive_ts sample_store (str_lit "plain.ko"))) = [].
Proof.
  destruct (patch_adaptive_ts_writes_iff_replaced
              sample_store (str_lit "plain.ko") blob_plain) as (Hiff & _ & Hno).
  - vm_compute. reflexivity.
  - apply Hno. intros Hr. apply modified_iff_replacement in Hr.
    vm_compute in Hr. discriminate Hr.
Defined.

(** C10. The old and the new bytes of pattern 1 are 6 bytes long, those of
    pattern 2 are 4 bytes long; the patched blob is as long as the
    original, and outside the span of 6 bytes replaced for pattern 1 and
    the span of 4 bytes replaced for pattern 2, which start at the offsets
    that the log reports, every byte is the one of the original. *)
Theorem patch_data_frame (data : list byte) :
  length pattern1_old = 6%nat /\ length pattern1_new = 6%nat /\
  length pattern2_old = 4%nat /\ length pattern2_new = 4%nat /\
  length (new_data (patch_data data)) = length data /\
  exists o1 o2 : option nat,
    new_data (patch_data data)
    = replace_opt o2 pattern2_new (replace_opt o1 pattern1_new data) /\
    (forall i, o1 = Some i ->
               occurs_at pattern1_old data i /\
               In (Info_FoundPattern1 (Z.of_nat i)) (patch_log (patch_data data))) /\
    (forall j, o2 = Some j ->
               occurs_at pattern2_old data j /\
               In (Info_FoundPattern2 (Z.of_nat j)) (patch_log (patch_data data))) /\
    forall k : nat,
      ~ in_span o1 6 k -> ~ in_span o2 4 k ->
      new_data (patch_data data) !! k = data !! k.
Proof.
  do 4 (split; [reflexivity|]).
  destruct (patch_data_spec data) as (o1 & o2 & H1 & H2 & Hnew & _ & Hlog).
  assert (Hlen1 : length (replace_opt o1 pattern1_new data) = length data).
  { destruct o1 as [i|]; [|reflexivity]. destruct H1 as [Hocc _].
    apply occurs_at_bound in Hocc; [|discriminate].
    apply length_replace_at. exact Hocc. }
  assert (Hb2 : forall j, o2 = Some j ->
                  occurs_at pattern2_old data j /\
                  (j + length pattern2_new <= length data)%nat).
  { intros j ->. destruct H2 as (_ & Hocc & _). split; [assumption|].
    apply occurs_at_bound in Hocc; [|discriminate]. exact Hocc. }
  split.
  - rewrite Hnew. destruct o2 as [j|]; [|exact Hlen1]. cbn [replace_opt].
    rewrite length_replace_at; [exact Hlen1|].
    rewrite Hlen1. apply (Hb2 j eq_refl).
  - exists o1, o2. split; [exact Hnew|]. split; [|split].
    + intros i ->. split; [apply H1|]. rewrite Hlog. left. reflexivity.
    + intros j Hj. split; [apply (Hb2 j Hj)|]. rewrite Hlog. subst o2.
      right. left. reflexivity.
    + intros k Hk1 Hk2. rewrite Hnew.
      transitivity (replace_opt o1 pattern1_new data !! k).
      * destruct o2 as [j|]; [|reflexivity]. cbn [replace_opt].
        apply lookup_replace_at_outside.
        -- rewrite Hlen1. apply (Hb2 j eq_refl).
        -- cbn [in_span] in Hk2. simpl. lia.
      * destruct o1 as [i|]; [|reflexivity]. cbn [replace_opt].
        destruct H1 as [Hocc _].
        apply occurs_at_bound in Hocc; [|discriminate].
        apply lookup_replace_at_outside; [exact Hocc|].
        cbn [in_span] in Hk1. simpl. lia.
Qed.

(** C10 on the byte of index 7 of the sample blob, where pattern 2 occurs
    before the cursor: the log reports the offsets 11 and 17. *)
Lemma patch_data_frame_witness :
  new_data (patch_data blob_two_pattern1) !! 7%nat
  = blob_two_pattern1 !! 7%nat.
Proof.
  destruct (patch_data_frame blob_two_pattern1)
    as (_ & _ & _ & _ & _ & o1 & o2 & _ & H1 & H2 & Hframe).
  assert (Hlog : patch_log (patch_data blob_two_pattern1)
                 = [Info_FoundPattern1 11; Info_FoundPattern2 17])
    by (vm_compute; reflexivity).
  apply Hframe.
  - destruct o1 as [i|]; [|intros []]. cbn [in_span]. intros Hk.
    destruct (H1 i eq_refl) as [_ Hin]. rewrite Hlog in Hin. cbn [In] in Hin.
    destruct Hin as [Hin|[Hin|[]]]; [|discriminate Hin].
    injection Hin as Hin. lia.
  - destruct o2 as [j|]; [|intros []]. cbn [in_span]. intros Hk.
    destruct (H2 j eq_refl) as [_ Hin]. rewrite Hlog in Hin. cbn [In] in Hin.
    destruct Hin as [Hin|[Hin|[]]]; [discriminate Hin|].
    injection Hin as Hin. lia.
Defined.

(** Without the file the patcher does nothing but warn. *)
Lemma patch_adaptive_ts_missing_file
      (fs : gmap (list Z) (list byte)) (module_path : list Z) :
  fs !! module_path = None ->
  patch_adaptive_ts fs module_path
  = (fs, [Log (Warn_ModuleNotFound module_path)]).
Proof. intros H. unfold patch_adaptive_ts. rewrite H. reflexivity. Qed.

(* ===================================================================== *)
(** * Outcome and layout of the header *)
(* ===================================================================== *)

Lemma unpack_I_short (l : list byte) (a b : Z) :
  0 <= a -> b = a + 4 -> py_len l < b ->
  unpack_I (py_slice l a b) = Raise StructError.
Proof.
  intros Ha -> Hs. unfold unpack_I.
  pose proof (py_len_slice_short l a (a + 4) Ha ltac:(lia) Hs).
  destruct (Z.eqb_spec (py_len (py_slice l a (a + 4))) 4); [lia | reflexivity].
Qed.

Lemma unpack_Q_short (l : list byte) (a b : Z) :
  0 <= a -> b = a + 8 -> py_len l < b ->
  unpack_Q (py_slice l a b) = Raise StructError.
Proof.
  intros Ha -> Hs. unfold unpack_Q.
  pose proof (py_len_slice_short l a (a + 8) Ha ltac:(lia) Hs).
  destruct (Z.eqb_spec (py_len (py_slice l a (a + 8))) 8); [lia | reflexivity].
Qed.

(** A header of fewer than 2172 bytes with the right magic is refused by
    [struct]. *)
Lemma VendorBootHeader_init_short buf :
  py_slice buf 0 8 = BOOT_MAGIC_VENDOR_BOOT -> py_len buf < 2172 ->
  VendorBootHeader_init buf = Raise StructError.
Proof.
  intros Hm Hlen. unfold VendorBootHeader_init.
  replace (0 + 8) with 8 by lia. rewrite Hm.
  replace (bytes_eqb BOOT_MAGIC_VENDOR_BOOT BOOT_MAGIC_VENDOR_BOOT) with true
    by (symmetry; apply bytes_eqb_eq; reflexivity).
  cbn [negb]. cbv zeta.
  unfold VENDOR_RAMDISK_CMDLINE_SIZE, BOOT_PRODUCT_NAME_SIZE.
  repeat first
    [ match goal with
      | |- bind (unpack_I (py_slice buf ?a ?b)) _ = _ =>
        destruct (Z.le_gt_cases b (py_len buf));
        [ rewrite (unpack_I_slice buf a b) by lia; cbn [bind]
        | rewrite (unpack_I_short buf a b) by lia; reflexivity ]
      | |- bind (unpack_Q (py_slice buf ?a ?b)) _ = _ =>
        destruct (Z.le_gt_cases b (py_len buf));
        [ rewrite (unpack_Q_slice buf a b) by lia; cbn [bind]
        | rewrite (unpack_Q_short buf a b) by lia; reflexivity ]
      | |- bind (utf8_decode Ignore ?x) _ = _ =>
        destruct (utf8_decode_ignore_total x) as [? ->]; cbn [bind]
      end ].
  lia.
Qed.

(** X1. [VendorBootHeader.__init__] checks the magic before anything else:
    a buffer whose first 8 bytes are not the magic raises the error of an
    invalid magic, whatever its length; with the magic, a buffer shorter
    than the 2172 bytes of the header raises the error of [struct], and
    every other buffer is accepted, with [table_offset] at 2172. *)
Theorem VendorBootHeader_init_outcome (buf : list byte) :
  (py_slice buf 0 8 <> BOOT_MAGIC_VENDOR_BOOT ->
   VendorBootHeader_init buf
   = Raise (ValueError_InvalidMagic (py_slice buf 0 8)))
  /\
  (py_slice buf 0 8 = BOOT_MAGIC_VENDOR_BOOT -> py_len buf < 2172 ->
   VendorBootHeader_init buf = Raise StructError)
  /\
  (py_slice buf 0 8 = BOOT_MAGIC_VENDOR_BOOT -> 2172 <= py_len buf ->
   exists h, VendorBootHeader_init buf = Ok h /\
             data h = buf /\ table_offset h = 2172).
Proof.
  split; [|split].
  - intros Hm. unfold VendorBootHeader_init. replace (0 + 8) with 8 by lia.
    destruct (bytes_eqb (py_slice buf 0 8) BOOT_MAGIC_VENDOR_BOOT) eqn:E.
    + apply bytes_eqb_eq in E. contradiction.
    + reflexivity.
  - apply VendorBootHeader_init_short.
  - intros Hm Hlen.
    destruct (VendorBootHeader_init_accepts buf Hm Hlen) as [h Hh].
    exists h. split; [exact Hh|].
    destruct (VendorBootHeader_init_Ok buf h Hh) as (Hd & Ho & _). auto.
Qed.

(** X1 on the empty buffer, on the magic alone and on a whole header. *)
Lemma VendorBootHeader_init_outcome_witness :
  VendorBootHeader_init [] = Raise (ValueError_InvalidMagic []) /\
  VendorBootHeader_init BOOT_MAGIC_VENDOR_BOOT = Raise StructError /\
  exists h, VendorBootHeader_init image_dtb_fits = Ok h /\ table_offset h = 2172.
Proof.
  split; [|split].
  - apply (proj1 (VendorBootHeader_init_outcome [])). vm_compute. discriminate.
  - apply (proj1 (proj2 (VendorBootHeader_init_outcome BOOT_MAGIC_VENDOR_BOOT))).
    + reflexivity.
    + vm_compute. reflexivity.
  - destruct (proj2 (proj2 (VendorBootHeader_init_outcome image_dtb_fits)))
      as (h & Hh & _ & Ho).
    + vm_compute. reflexivity.
    + vm_compute. discriminate.
    + exists h. auto.
Defined.

(** X2. The fields of an accepted header are the little-endian values of
    the bytes at fixed offsets: the 32-bit fields lie in [0, 2^32) and
    [dtb_load_addr], read from 8 bytes, in [0, 2^64). *)
Theorem VendorBootHeader_init_layout (buf : list byte) (h : VendorBootHeader) :
  VendorBootHeader_init buf = Ok h ->
  magic h = BOOT_MAGIC_VENDOR_BOOT /\
  header_version h = le_value (py_slice buf 8 12) /\
  page_size h = le_value (py_slice buf 12 16) /\
  kernel_load_addr h = le_value (py_slice buf 16 20) /\
  ramdisk_load_addr h = le_value (py_slice buf 20 24) /\
  vendor_ramdisk_total_size h = le_value (py_slice buf 24 28) /\
  tags_load_addr h = le_value (py_slice buf 2076 2080) /\
  header_size h = le_value (py_slice buf 2144 2148) /\
  dtb_size h = le_value (py_slice buf 2148 2152) /\
  dtb_load_addr h = le_value (py_slice buf 2152 2160) /\
  vendor_ramdisk_table_size h = le_value (py_slice buf 2160 2164) /\
  vendor_ramdisk_table_num_entries h = le_value (py_slice buf 2164 2168) /\
  vendor_bootconfig_size h = le_value (py_slice buf 2168 2172) /\
  Forall (fun v => 0 <= v < 2 ^ 32)
         [header_version h; page_size h; kernel_load_addr h;
          ramdisk_load_addr h; vendor_ramdisk_total_size h; tags_load_addr h;
          header_size h; dtb_size h; vendor_ramdisk_table_size h;
          vendor_ramdisk_table_num_entries h; vendor_bootconfig_size h] /\
  0 <= dtb_load_addr h < 2 ^ 64.
Proof.
  unfold VendorBootHeader_init.
  destruct (bytes_eqb (py_slice buf 0 (0 + 8)) BOOT_MAGIC_VENDOR_BOOT) eqn:Hm;
    [|discriminate].
  cbn [negb]. cbv zeta. intros H. inv_binds H.
  injection H as <-.
  cbn [magic header_version page_size kernel_load_addr ramdisk_load_addr
       vendor_ramdisk_total_size tags_load_addr header_size dtb_size
       dtb_load_addr vendor_ramdisk_table_size
       vendor_ramdisk_table_num_entries vendor_bootconfig_size].
  apply bytes_eqb_eq in Hm. inv_unpacks.
  unfold VENDOR_RAMDISK_CMDLINE_SIZE, BOOT_PRODUCT_NAME_SIZE in *.
  simpl Z.add in *.
  repeat match goal with
  | H : py_len ?s = 4 |- _ =>
    let R := fresh "R" in
    pose proof (le_value_range s) as R; rewrite H in R;
    change (256 ^ 4) with (2 ^ 32) in R; clear H
  | H : py_len ?s = 8 |- _ =>
    let R := fresh "R" in
    pose proof (le_value_range s) as R; rewrite H in R;
    change (256 ^ 8) with (2 ^ 64) in R; clear H
  end.
  subst.
  repeat apply conj; try assumption; try reflexivity; try lia.
  repeat (constructor; [assumption|]). constructor.
Qed.

(** X2 on a sample image. *)
Lemma VendorBootHeader_init_layout_witness :
  exists h, VendorBootHeader_init image_dtb_fits = Ok h /\
            header_size h = 2172 /\ dtb_size h = 16 /\ page_size h = 4096.
Proof.
  destruct (VendorBootHeader_init image_dtb_fits) as [h|e] eqn:E;
    [|vm_compute in E; discriminate E].
  exists h. split; [reflexivity|].
  destruct (VendorBootHeader_init_layout image_dtb_fits h E)
    as (_ & _ & Hp & _ & _ & _ & _ & Hs & Hd & _).
  rewrite Hs, Hd, Hp. vm_compute. auto.
Defined.

(* ===================================================================== *)
(** * Entries of the table and parse_vendor_boot *)
(* ===================================================================== *)

Lemma hex_char_lower d : 0 <= d < 16 -> is_lower_hex (hex_char d) = true.
Proof.
  intros Hd. unfold is_lower_hex, hex_char.
  destruct (Z.ltb_spec d 10).
  - apply orb_true_iff. left. apply andb_true_iff. split; apply Z.leb_le; lia.
  - apply orb_true_iff. right. apply andb_true_iff. split; apply Z.leb_le; lia.
Qed.

Lemma bytes_hex_shape (bs : list byte) :
  length (bytes_hex bs) = (2 * length bs)%nat /\
  Forall (fun c => is_lower_hex c = true) (bytes_hex bs).
Proof.
  unfold bytes_hex. induction bs as [|b r [IHl IHf]]; [split; [reflexivity|constructor]|].
  cbn [flat_map app length]. split; [rewrite IHl; lia|].
  pose proof (byte_val_range b).
  constructor; [|constructor; [|exact IHf]]; apply hex_char_lower.
  - split; [apply Z.div_pos; lia | apply Z.div_lt_upper_bound; lia].
  - apply Z.mod_pos_bound. lia.
Qed.

(** X3. [VendorRamdiskEntry.__init__] accepts every 76 bytes: size, offset
    and type lie in [0, 2^32); the types 0 to 3 are named none, platform,
    recovery and dlkm, and every other type [t] is named unknown(t), never
    refused; the board id is rendered as 64 characters of [0-9a-f]. *)
Theorem VendorRamdiskEntry_init_shape (bs : list byte) :
  py_len bs = 76 ->
  exists e,
    VendorRamdiskEntry_init bs = Ok e /\
    0 <= size e < 2 ^ 32 /\ 0 <= offset e < 2 ^ 32 /\ 0 <= type e < 2 ^ 32 /\
    type_str e
    = (if type e =? 0 then str_lit "none"
       else if type e =? 1 then str_lit "platform"
       else if type e =? 2 then str_lit "recovery"
       else if type e =? 3 then str_lit "dlkm"
       else str_lit "unknown(" ++ str_of_int (type e) ++ str_lit ")") /\
    length (board_id e) = 64%nat /\
    Forall (fun c => is_lower_hex c = true) (board_id e).
Proof.
  intros Hlen.
  destruct (VendorRamdiskEntry_init_total bs ltac:(lia)) as [e He].
  exists e. split; [exact He|].
  destruct (VendorRamdiskEntry_init_Ok bs e He) as (Hs & Ho & Ht & _ & Hb & Hts).
  assert (Hr : forall a, 0 <= a -> a + 4 <= 76 ->
                 0 <= le_value (py_slice bs a (a + 4)) < 2 ^ 32).
  { intros a Ha Hb4. pose proof (le_value_range (py_slice bs a (a + 4))) as R.
    rewrite py_len_slice in R by lia.
    replace (a + 4 - a) with 4 in R by lia. exact R. }
  rewrite Hs, Ho, Ht.
  split; [apply (Hr 0); lia|]. split; [apply (Hr 4); lia|].
  split; [apply (Hr 8); lia|].
  split; [rewrite Hts, Ht; reflexivity|].
  rewrite Hb. destruct (bytes_hex_shape (py_slice bs 44 76)) as [Hl Hf].
  split; [|exact Hf]. rewrite Hl.
  pose proof (py_len_slice bs 44 76 ltac:(lia) ltac:(lia) ltac:(lia)) as Hsl.
  unfold py_len in Hsl. lia.
Qed.

(** X3 on an entry of type 7. *)
Lemma VendorRamdiskEntry_init_shape_witness :
  exists e,
    VendorRamdiskEntry_init (sample_entry 3 3 7 (bytes_lit "other")) = Ok e /\
    type_str e = str_lit "unknown(7)" /\ length (board_id e) = 64%nat.
Proof.
  destruct (VendorRamdiskEntry_init_shape (sample_entry 3 3 7 (bytes_lit "other")))
    as (e & He & _ & _ & _ & Hts & Hl & _).
  - vm_compute. reflexivity.
  - exists e. split; [exact He|]. split; [|exact Hl].
    rewrite Hts. vm_compute in He. injection He as <-. reflexivity.
Defined.

(** The two outcomes of [get_ramdisk_entries] on an accepted header. *)
Lemma get_ramdisk_entries_outcome (buf : list byte) (h : VendorBootHeader) :
  VendorBootHeader_init buf = Ok h ->
  let n := le_value (py_slice buf 2164 2168) in
  0 <= n /\
  (2172 + n * 76 <= py_len buf ->
   exists es, get_ramdisk_entries h = Ok es /\ py_len es = n) /\
  (py_len buf < 2172 + n * 76 ->
   exists i, 0 <= i < n /\
     get_ramdisk_entries h = Raise (ValueError_TruncatedTable i)).
Proof.
  intros Hh n.
  destruct (VendorBootHeader_init_Ok buf h Hh)
    as (Hd & Ho & Hl & _ & _ & _ & _ & _ & _ & Hne & _).
  assert (Hn0 : 0 <= n) by (subst n; apply le_value_range).
  split; [exact Hn0|].
  unfold get_ramdisk_entries.
  unfold VENDOR_RAMDISK_NAME_SIZE, BOOT_ID_SIZE. simpl (4 + 4 + 4 + 32 + 32).
  rewrite Hne. fold n. split.
  - intros Hfit. destruct (Z.eqb_spec n 0) as [Hz|Hnz].
    + exists []. split; [reflexivity|]. unfold py_len. simpl. lia.
    + destruct (get_ramdisk_entries_loop_ok h (Z.to_nat n) 0 [])
        as (es & Hes & Hlen & _).
      * lia.
      * lia.
      * rewrite Hd, Ho. lia.
      * exists es. split; [exact Hes|]. unfold py_len. lia.
  - intros Hcut. destruct (Z.eqb_spec n 0) as [Hz|Hnz]; [lia|].
    destruct (get_ramdisk_entries_loop_truncated h (Z.to_nat n) 0 [])
      as (j & Hj & Hr).
    + lia.
    + lia.
    + rewrite Hd, Ho. lia.
    + rewrite Hd, Ho. lia.
    + exists j. split; [lia | exact Hr].
Qed.

(** X4. [parse_vendor_boot] returns if and only if the file starts with
    the magic and holds the header and the [n] entries of 76 bytes that
    the header announces at offset 2164; it then returns the whole data
    and [n] entries. Otherwise it raises, the error of the magic before
    that of a short header, and that before the error of a truncated
    table. *)
Theorem parse_vendor_boot_outcome (buf : list byte) :
  let n := le_value (py_slice buf 2164 2168) in
  (py_slice buf 0 8 <> BOOT_MAGIC_VENDOR_BOOT ->
   parse_vendor_boot (Some buf)
   = Raise (ValueError_InvalidMagic (py_slice buf 0 8)))
  /\
  (py_slice buf 0 8 = BOOT_MAGIC_VENDOR_BOOT -> py_len buf < 2172 ->
   parse_vendor_boot (Some buf) = Raise StructError)
  /\
  (py_slice buf 0 8 = BOOT_MAGIC_VENDOR_BOOT -> 2172 <= py_len buf ->
   py_len buf < 2172 + n * 76 ->
   exists i, 0 <= i < n /\
     parse_vendor_boot (Some buf) = Raise (ValueError_TruncatedTable i))
  /\
  (py_slice buf 0 8 = BOOT_MAGIC_VENDOR_BOOT -> 2172 + n * 76 <= py_len buf ->
   exists h es,
     parse_vendor_boot (Some buf) = Ok (h, es, buf) /\
     VendorBootHeader_init buf = Ok h /\ py_len es = n).
Proof.
  intros n. unfold parse_vendor_boot. split; [|split; [|split]].
  - intros Hm. unfold VendorBootHeader_init. replace (0 + 8) with 8 by lia.
    destruct (bytes_eqb (py_slice buf 0 8) BOOT_MAGIC_VENDOR_BOOT) eqn:E.
    + apply bytes_eqb_eq in E. contradiction.
    + reflexivity.
  - intros Hm Hl. rewrite (VendorBootHeader_init_short buf Hm Hl). reflexivity.
  - intros Hm Hl Hcut.
    destruct (VendorBootHeader_init_accepts buf Hm Hl) as [h Hh].
    rewrite Hh. cbn [bind].
    destruct (get_ramdisk_entries_outcome buf h Hh) as (_ & _ & Hc).
    destruct (Hc Hcut) as (i & Hi & Hr). exists i. split; [exact Hi|].
    rewrite Hr. reflexivity.
  - intros Hm Hfit.
    assert (Hl : 2172 <= py_len buf).
    { destruct (Z.le_gt_cases 2172 (py_len buf)) as [|Hlt]; [assumption|].
      pose proof (le_value_range (py_slice buf 2164 2168)) as R.
      fold n in R. nia. }
    destruct (VendorBootHeader_init_accepts buf Hm Hl) as [h Hh].
    rewrite Hh. cbn [bind].
    destruct (get_ramdisk_entries_outcome buf h Hh) as (_ & Hf & _).
    destruct (Hf Hfit) as (es & Hes & Hlen).
    exists h, es. rewrite Hes. cbn [bind]. auto.
Qed.

(** X4 on the image of three entries, whole and cut. *)
Lemma parse_vendor_boot_outcome_witness :
  (exists h es, parse_vendor_boot (Some image_three_entries)
                = Ok (h, es, image_three_entries) /\ py_len es = 3)
  /\ (exists i, parse_vendor_boot (Some image_three_entries_cut)
                = Raise (ValueError_TruncatedTable i)).
Proof.
  split.
  - destruct (parse_vendor_boot_outcome image_three_entries)
      as (_ & _ & _ & Hok).
    destruct Hok as (h & es & Hp & _ & Hl).
    + vm_compute. reflexivity.
    + vm_compute. discriminate.
    + exists h, es. split; [exact Hp|]. rewrite Hl. vm_compute. reflexivity.
  - destruct (parse_vendor_boot_outcome image_three_entries_cut)
      as (_ & _ & Hcut & _).
    destruct Hcut as (i & _ & Hr).
    + vm_compute. reflexivity.
    + vm_compute. discriminate.
    + vm_compute. reflexivity.
    + exists i. exact Hr.
Defined.

(* ===================================================================== *)
(** * The DTB written by the extraction from an image *)
(* ===================================================================== *)

Section ExtractFromImageEffects.

Variable gzip_decompress : list byte -> option (list byte).

(** The loop over the entries keeps the events recorded before it, and
    ends. *)
Lemma extract_entries_trace work_dir data entries :
  forall recovery tr,
    match extract_entries gzip_decompress work_dir data entries recovery tr with
    | Returned _ tr' | Raised _ tr' => exists evs, tr' = tr ++ evs
    | Diverged => False
    end.
Proof.
  induction entries as [|e rest IH]; intros recovery tr.
  - simpl. exists []. symmetry. apply app_nil_r.
  - cbn [extract_entries]. cbv zeta.
    pose proof (extract_cpio_returns gzip_decompress
                  (Some (py_slice data (offset e) (offset e + size e)))
                  (ramdisk_dir work_dir e)) as Hret.
    destruct (extract_cpio gzip_decompress
                (Some (py_slice data (offset e) (offset e + size e)))
                (ramdisk_dir work_dir e)) as [u tr'|x tr'|]; [| |congruence].
    + match goal with
      | |- match extract_entries _ _ _ rest ?r ?t with _ => _ end =>
        specialize (IH r t);
        destruct (extract_entries gzip_decompress work_dir data rest r t)
      end; try exact IH; destruct IH as [evs ->];
        eexists; rewrite <- !app_assoc; reflexivity.
    + eexists. rewrite <- app_assoc. reflexivity.
Qed.

(** The entries before the first one whose archive raises are extracted;
    that exception ends the loop, after the archive was written. *)
Lemma extract_entries_raises work_dir data pre e post x tre :
  Forall (extracts_cleanly gzip_decompress data work_dir) pre ->
  extract_cpio gzip_decompress
               (Some (py_slice data (offset e) (offset e + size e)))
               (ramdisk_dir work_dir e) = Raised x tre ->
  forall recovery tr,
  exists tr',
    extract_entries gzip_decompress work_dir data (pre ++ e :: post) recovery tr
    = Raised x tr' /\
    In (Fs (WriteFile (ramdisk_cpio work_dir e)
                      (py_slice data (offset e) (offset e + size e)))) tr'.
Proof.
  intros Hpre He. induction Hpre as [|p pre [trp Hp] _ IH]; intros recovery tr.
  - cbn [app extract_entries]. cbv zeta. rewrite He.
    eexists. split; [reflexivity|].
    apply in_or_app. left. apply in_or_app. right. left. reflexivity.
  - cbn [app extract_entries]. cbv zeta. rewrite Hp. apply IH.
Qed.

(** X5. When the header of an accepted image gives a DTB size above 0,
    [_extract_from_image] first writes [dtb.img], whatever happens to the
    ramdisks afterwards. If the image holds that many bytes, the file has
    exactly [dtb_size] bytes, taken from the image at an offset inside it;
    if the image is shorter than [dtb_size], the file is the end of the
    image from index [2 * length - dtb_size] on (from 0 when that is
    negative), which is shorter than [dtb_size]. *)
Theorem extract_from_image_dtb (work_dir : list Z) (buf : list byte)
        (h : VendorBootHeader) (entries : list VendorRamdiskEntry) :
  VendorBootHeader_init buf = Ok h ->
  0 < dtb_size h ->
  exists blob rest,
    match _extract_from_image gzip_decompress work_dir h entries with
    | Returned _ tr | Raised _ tr =>
      tr = Fs (WriteFile (os_path_join work_dir (str_lit "dtb.img")) blob)
              :: Log Info_DtbExtracted :: rest
    | Diverged => False
    end /\
    (dtb_size h <= py_len buf ->
     py_len blob = dtb_size h /\
     0 <= get_dtb_offset h /\ get_dtb_offset h + dtb_size h <= py_len buf /\
     blob = py_slice buf (get_dtb_offset h) (get_dtb_offset h + dtb_size h)) /\
    (py_len buf < dtb_size h ->
     blob = drop (Z.to_nat (2 * py_len buf - dtb_size h)) buf /\
     py_len blob < dtb_size h).
Proof.
  intros Hh Hdtb.
  destruct (VendorBootHeader_init_Ok buf h Hh)
    as (Hd & _ & Hlen & _ & Hts & _ & _ & Hhs & Hds & _ & Hbc).
  pose proof (le_value_range (py_slice buf 24 28)) as R1. rewrite <- Hts in R1.
  pose proof (le_value_range (py_slice buf 2144 2148)) as R2. rewrite <- Hhs in R2.
  pose proof (le_value_range (py_slice buf 2168 2172)) as R3. rewrite <- Hbc in R3.
  pose proof (py_len_nonneg buf) as Hl0.
  set (dtb_path := os_path_join work_dir (str_lit "dtb.img")).
  set (blob := py_slice buf (get_dtb_offset h) (get_dtb_offset h + dtb_size h)).
  assert (Hoff : get_dtb_offset h
                 = if header_size h + vendor_bootconfig_size h
                      + vendor_ramdisk_total_size h + dtb_size h >? py_len buf
                   then py_len buf - dtb_size h
                   else header_size h + vendor_bootconfig_size h
                        + vendor_ramdisk_total_size h).
  { unfold get_dtb_offset. rewrite Hd. reflexivity. }
  assert (Hblob :
    (dtb_size h <= py_len buf ->
     py_len blob = dtb_size h /\
     0 <= get_dtb_offset h /\ get_dtb_offset h + dtb_size h <= py_len buf /\
     blob = py_slice buf (get_dtb_offset h) (get_dtb_offset h + dtb_size h)) /\
    (py_len buf < dtb_size h ->
     blob = drop (Z.to_nat (2 * py_len buf - dtb_size h)) buf /\
     py_len blob < dtb_size h)).
  { subst blob. split.
    - intros Hfit.
      assert (Ho : 0 <= get_dtb_offset h /\
                   get_dtb_offset h + dtb_size h <= py_len buf).
      { rewrite Hoff.
        destruct (Z.gtb_spec (header_size h + vendor_bootconfig_size h
                              + vendor_ramdisk_total_size h + dtb_size h)
                             (py_len buf)); lia. }
      split; [rewrite py_len_slice by lia; lia|].
      split; [lia|]. split; [lia|reflexivity].
    - intros Hbig.
      assert (Ho : get_dtb_offset h = py_len buf - dtb_size h).
      { rewrite Hoff.
        destruct (Z.gtb_spec (header_size h + vendor_bootconfig_size h
                              + vendor_ramdisk_total_size h + dtb_size h)
                             (py_len buf)); lia. }
      rewrite Ho. unfold py_slice, slice_bound.
      destruct (Z.ltb_spec (py_len buf - dtb_size h) 0); [|lia].
      destruct (Z.ltb_spec (py_len buf - dtb_size h + dtb_size h) 0); [lia|].
      replace (py_len buf - dtb_size h + dtb_size h) with (py_len buf) by lia.
      rewrite Z.min_id.
      replace (py_len buf - dtb_size h + py_len buf)
        with (2 * py_len buf - dtb_size h) by lia.
      destruct (Z.le_gt_cases 0 (2 * py_len buf - dtb_size h)).
      + rewrite Z.max_r by lia.
        split; [apply take_ge; rewrite length_drop; unfold py_len; lia|].
        unfold py_len. rewrite length_take, length_drop. unfold py_len in *. lia.
      + rewrite Z.max_l by lia.
        replace (Z.to_nat (2 * py_len buf - dtb_size h)) with 0%nat by lia.
        simpl Z.to_nat. rewrite !drop_0.
        split; [apply take_ge; unfold py_len; lia|].
        unfold py_len. rewrite length_take. unfold py_len in *. lia. }
  exists blob.
  assert (Htrace : exists rest,
    match _extract_from_image gzip_decompress work_dir h entries with
    | Returned _ tr | Raised _ tr =>
      tr = Fs (WriteFile dtb_path blob) :: Log Info_DtbExtracted :: rest
    | Diverged => False
    end).
  { unfold _extract_from_image.
    destruct (Z.gtb_spec (dtb_size h) 0) as [_|]; [|lia].
    rewrite Hd. fold blob. fold dtb_path.
    match goal with
    | |- context [extract_entries _ _ _ _ None ?t] =>
      pose proof (extract_entries_trace work_dir buf entries None t) as Htr;
      destruct (extract_entries gzip_decompress work_dir buf entries None t)
        as [r tr'|x tr'|]
    end; [| |contradiction].
    - destruct Htr as [evs ->].
      destruct entries as [|first rest'].
      + exists evs. destruct r as [[|c d]|]; reflexivity.
      + destruct (negb (truthy r)).
        * exists (evs ++ [Log Warn_NoDedicatedRecovery]).
          destruct (ramdisk_dir work_dir first); reflexivity.
        * exists evs. destruct r as [[|c d]|]; reflexivity.
    - destruct Htr as [evs ->]. exists evs. reflexivity. }
  destruct Htrace as [rest Htrace]. exists rest.
  split; [exact Htrace | exact Hblob].
Qed.

End ExtractFromImageEffects.

(** X5 on the image with a clamped DTB, without ramdisks. *)
Lemma extract_from_image_dtb_witness :
  exists h rest,
    VendorBootHeader_init image_dtb_clamped = Ok h /\
    _extract_from_image no_gzip (str_lit "work") h []
    = Raised RuntimeError_NoRecoveryRamdisk
             (Fs (WriteFile (str_lit "work/dtb.img") (repeat x22 16))
                 :: Log Info_DtbExtracted :: rest).
Proof.
  destruct (VendorBootHeader_init image_dtb_clamped) as [h|e] eqn:E;
    [|vm_compute in E; discriminate E].
  destruct (extract_from_image_dtb no_gzip (str_lit "work") image_dtb_clamped h [] E)
    as (blob & rest & Htr & Hfit & _).
  - run_parse E. reflexivity.
  - exists h, rest. split; [reflexivity|].
    destruct Hfit as (_ & _ & _ & Hb).
    { run_parse E. vm_compute. discriminate. }
    run_parse E.
    vm_compute in Hb. subst blob.
    vm_compute in Htr. vm_compute. rewrite Htr. reflexivity.
Defined.

(* ===================================================================== *)
(** * Failures, directory names and containment *)
(* ===================================================================== *)

Section ExtractFromImageFailure.

Variable gzip_decompress : list byte -> option (list byte).

(** X6. [_extract_from_image] is not transactional and has no fallback for
    a failing archive: with an empty table it raises the error of a
    missing recovery ramdisk; and when the archive of an entry raises
    while those of the entries before it are extracted, that exception
    ends the call, after the archive of the entry was written to the
    work directory. *)
Theorem extract_from_image_failure (work_dir : list Z) (h : VendorBootHeader) :
  (exists tr,
      _extract_from_image gzip_decompress work_dir h []
      = Raised RuntimeError_NoRecoveryRamdisk tr)
  /\
  (forall pre e post x tre,
      Forall (extracts_cleanly gzip_decompress (data h) work_dir) pre ->
      extract_cpio gzip_decompress
                   (Some (py_slice (data h) (offset e) (offset e + size e)))
                   (ramdisk_dir work_dir e) = Raised x tre ->
      exists tr,
        _extract_from_image gzip_decompress work_dir h (pre ++ e :: post)
        = Raised x tr /\
        In (Fs (WriteFile (ramdisk_cpio work_dir e)
                          (py_slice (data h) (offset e) (offset e + size e))))
           tr).
Proof.
  split.
  - unfold _extract_from_image. cbn [extract_entries]. eexists. reflexivity.
  - intros pre e post x tre Hpre He. unfold _extract_from_image.
    match goal with
    | |- context [extract_entries _ _ _ _ None ?t] =>
      destruct (extract_entries_raises gzip_decompress work_dir (data h)
                  pre e post x tre Hpre He None t) as (tr' & -> & Hin)
    end.
    exists tr'. split; [reflexivity | exact Hin].
Qed.

End ExtractFromImageFailure.

(** X6 on an image whose only ramdisk has a magic that is not ASCII. *)
Lemma extract_from_image_failure_witness :
  match parse_vendor_boot (Some image_bad_ramdisk) with
  | Ok (h, es, _) =>
    exists tr,
      _extract_from_image no_gzip (str_lit "work") h es
      = Raised UnicodeDecodeError tr /\
      In (Fs (WriteFile (str_lit "work/ramdisk_bad.cpio")
                        archive_magic_not_ascii)) tr
  | Raise _ => False
  end.
Proof.
  destruct (parse_vendor_boot (Some image_bad_ramdisk)) as [[[h es] d]|x] eqn:E;
    vm_compute in E; [injection E as <- <- <- | discriminate E].
  match goal with
  | |- exists tr, _extract_from_image _ _ ?H (?e0 :: ?rest) = _ /\ _ =>
    destruct (proj2 (extract_from_image_failure no_gzip (str_lit "work") H)
                    [] e0 rest UnicodeDecodeError
                    [Fs (Makedirs (str_lit "work/ramdisk_bad"))])
      as (tr & Htr & Hin)
  end.
  - constructor.
  - vm_compute. reflexivity.
  - exists tr. split; [exact Htr | exact Hin].
Defined.

(** ** Containment of the names without [..] *)

Lemma lstrip_repeat_sep (k : nat) (s : list Z) :
  lstrip SEP (repeat SEP k ++ s) = lstrip SEP s.
Proof. induction k as [|k IH]; [reflexivity|]. simpl. exact IH. Qed.

(** X8. [extract_cpio] strips every leading separator of a name before it
    joins it to the destination, and a name none of whose components is
    [..] is created at a path that lies, once normalised, in the
    destination directory. *)
Theorem full_path_of_contained (dest_dir filename : list Z) (k : nat) :
  Forall (fun c => str_eqb c DOTDOT = false) (split_sep filename) ->
  full_path_of dest_dir (repeat SEP k ++ filename)
  = full_path_of dest_dir filename /\
  path_inside dest_dir (full_path_of dest_dir (repeat SEP k ++ filename)) = true.
Proof.
  intros Hdd.
  assert (He : full_path_of dest_dir (repeat SEP k ++ filename)
               = full_path_of dest_dir filename).
  { unfold full_path_of. rewrite lstrip_repeat_sep. reflexivity. }
  split; [exact He|]. rewrite He. apply full_path_inside. exact Hdd.
Qed.

(** X8 on the name [//etc/./passwd]. *)
Lemma full_path_of_contained_witness :
  full_path_of (str_lit "/tmp/out") (str_lit "//etc/./passwd")
  = str_lit "/tmp/out/etc/./passwd" /\
  path_inside (str_lit "/tmp/out")
              (full_path_of (str_lit "/tmp/out") (str_lit "//etc/./passwd"))
  = true.
Proof.
  destruct (full_path_of_contained (str_lit "/tmp/out") (str_lit "etc/./passwd") 2)
    as [He Hin].
  - vm_compute. repeat constructor.
  - change (str_lit "//etc/./passwd")
      with (repeat SEP 2 ++ str_lit "etc/./passwd").
    split; [rewrite He; vm_compute; reflexivity | exact Hin].
Defined.

(* ===================================================================== *)
(** * Fields of a cpio header *)
(* ===================================================================== *)

(** ** Fields of hexadecimal digits *)

Lemma digit_value_range b : 0 <= digit_value b.
Proof.
  unfold digit_value. pose proof (byte_val_range b).
  repeat match goal with
  | |- context [if ?c then _ else _] => destruct c eqn:?
  end; try lia;
  repeat match goal with
  | H : (_ && _)%bool = true |- _ => apply andb_true_iff in H; destruct H
  | H : (_ <=? _) = true |- _ => apply Z.leb_le in H
  end; lia.
Qed.

Lemma hex_digit_plain b :
  is_hex_digit b = true ->
  is_space b = false /\ is_underscore b = false /\
  (byte_val b =? 43) = false /\ (byte_val b =? 45) = false /\
  (byte_val b =? 120) = false /\ (byte_val b =? 88) = false.
Proof.
  unfold is_hex_digit, digit_value, is_space, is_underscore.
  pose proof (byte_val_range b) as Hr. intros H.
  repeat match type of H with
  | context [?a <=? ?c] => destruct (Z.leb_spec a c); cbn [andb] in H
  end;
  apply Z.ltb_lt in H;
  repeat match goal with
  | |- context [?a <=? ?c] => destruct (Z.leb_spec a c)
  | |- context [?a =? ?c] => destruct (Z.eqb_spec a c)
  end; cbn [andb orb]; try lia; auto 10.
Qed.

Lemma scan_digits_hex (s : list byte) :
  Forall (fun b => is_hex_digit b = true) s ->
  forall acc,
    scan_digits 16 s false acc
    = Some (fold_left (fun a b => a * 16 + digit_value b) s acc, []).
Proof.
  induction 1 as [|b r Hb _ IH]; intros acc; [reflexivity|].
  cbn [scan_digits fold_left].
  destruct (hex_digit_plain b Hb) as (_ & -> & _).
  unfold is_hex_digit in Hb. rewrite Hb. apply IH.
Qed.

Lemma hex_value_range (s : list byte) :
  Forall (fun b => is_hex_digit b = true) s ->
  forall acc, 0 <= acc ->
    acc * 16 ^ py_len s
    <= fold_left (fun a b => a * 16 + digit_value b) s acc
    < (acc + 1) * 16 ^ py_len s.
Proof.
  unfold py_len.
  induction 1 as [|b r Hb _ IH]; intros acc Hacc.
  - simpl. lia.
  - cbn [fold_left].
    pose proof (digit_value_range b) as Hd0.
    unfold is_hex_digit in Hb. apply Z.ltb_lt in Hb.
    specialize (IH (acc * 16 + digit_value b) ltac:(lia)).
    replace (Z.of_nat (length (b :: r))) with (Z.succ (Z.of_nat (length r)))
      by (simpl length; lia).
    rewrite Z.pow_succ_r by lia.
    assert (Hp : 0 < 16 ^ Z.of_nat (length r)) by (apply Z.pow_pos_nonneg; lia).
    nia.
Qed.

(** On a field that consists of hexadecimal digits only, and of at least
    one, [int(field, 16)] returns the value of the digits in base 16. *)
Lemma py_int16_hex_digits (s : list byte) :
  s <> [] ->
  Forall (fun b => is_hex_digit b = true) s ->
  py_int16 s = Ok (hex_value s) /\ 0 <= hex_value s < 16 ^ py_len s.
Proof.
  intros Hne Hs. split.
  - unfold py_int16.
    destruct s as [|b0 r]; [congruence|].
    inversion Hs as [|? ? Hb0 Hr]; subst.
    destruct (hex_digit_plain b0 Hb0) as (Hsp & Hus & Hplus & Hminus & _).
    cbn [skip_space]. rewrite Hsp.
    cbn [strip_sign]. rewrite Hplus, Hminus.
    assert (Hpre : strip_hex_prefix (b0 :: r) = b0 :: r).
    { unfold strip_hex_prefix. destruct r as [|b1 r']; [reflexivity|].
      inversion Hr as [|? ? Hb1 _]; subst.
      destruct (hex_digit_plain b1 Hb1) as (_ & _ & _ & _ & -> & ->).
      rewrite andb_false_r. reflexivity. }
    rewrite Hpre. rewrite (scan_digits_hex (b0 :: r) Hs 0).
    rewrite Hus. cbn [length Nat.eqb skip_space is_nil].
    f_equal. unfold hex_value. lia.
  - pose proof (hex_value_range s Hs 0 ltac:(lia)) as H. unfold hex_value. lia.
Qed.

Lemma py_slice_Forall {A} (P : A -> Prop) (l : list A) (a b : Z) :
  0 <= a -> 0 <= b -> Forall P l -> Forall P (py_slice l a b).
Proof.
  intros Ha Hb Hl. rewrite py_slice_take_drop by lia.
  apply Forall_take, Forall_drop, Hl.
Qed.

(** X9. A cpio header whose 104 bytes after the magic are hexadecimal
    digits is never refused by the thirteen [int(header[a:b], 16)] of
    [extract_cpio]: each field is the value in base 16 of its 8 digits,
    at the offsets 6, 14, ..., 102, and lies in [0, 2^32); no sign, blank
    or underscore is involved. *)
Theorem parse_cpio_fields_hex (header : list byte) :
  110 <= py_len header ->
  Forall (fun b => is_hex_digit b = true) (py_slice header 6 110) ->
  exists h,
    parse_cpio_fields header = Ok h /\
    [c_inode h; c_mode h; c_uid h; c_gid h; c_nlink h; c_mtime h;
     c_filesize h; c_devmajor h; c_devminor h; c_rdevmajor h;
     c_rdevminor h; c_namesize h; c_check h]
    = map (fun a => hex_value (py_slice header a (a + 8)))
          [6; 14; 22; 30; 38; 46; 54; 62; 70; 78; 86; 94; 102] /\
    Forall (fun v => 0 <= v < 2 ^ 32)
           [c_inode h; c_mode h; c_uid h; c_gid h; c_nlink h; c_mtime h;
            c_filesize h; c_devmajor h; c_devminor h; c_rdevmajor h;
            c_rdevminor h; c_namesize h; c_check h].
Proof.
  intros Hlen Hhex.
  assert (Hf : forall a b, b = a + 8 -> 6 <= a -> b <= 110 ->
    py_int16 (py_slice header a b) = Ok (hex_value (py_slice header a b)) /\
    0 <= hex_value (py_slice header a b) < 2 ^ 32).
  { intros a b -> Ha Hb.
    assert (Hl : py_len (py_slice header a (a + 8)) = 8)
      by (rewrite py_len_slice by lia; lia).
    destruct (py_int16_hex_digits (py_slice header a (a + 8))) as [Hv Hr].
    - intros E. rewrite E in Hl. discriminate Hl.
    - replace (py_slice header a (a + 8))
        with (py_slice (py_slice header 6 (6 + 104)) (a - 6) (a - 6 + 8)).
      + apply py_slice_Forall; [lia|lia|exact Hhex].
      + rewrite py_slice_slice by lia. f_equal; lia.
    - split; [exact Hv|]. rewrite Hl in Hr. exact Hr. }
  unfold parse_cpio_fields.
  destruct (Hf 6 14 eq_refl ltac:(lia) ltac:(lia)) as [E1 R1].
  destruct (Hf 14 22 eq_refl ltac:(lia) ltac:(lia)) as [E2 R2].
  destruct (Hf 22 30 eq_refl ltac:(lia) ltac:(lia)) as [E3 R3].
  destruct (Hf 30 38 eq_refl ltac:(lia) ltac:(lia)) as [E4 R4].
  destruct (Hf 38 46 eq_refl ltac:(lia) ltac:(lia)) as [E5 R5].
  destruct (Hf 46 54 eq_refl ltac:(lia) ltac:(lia)) as [E6 R6].
  destruct (Hf 54 62 eq_refl ltac:(lia) ltac:(lia)) as [E7 R7].
  destruct (Hf 62 70 eq_refl ltac:(lia) ltac:(lia)) as [E8 R8].
  destruct (Hf 70 78 eq_refl ltac:(lia) ltac:(lia)) as [E9 R9].
  destruct (Hf 78 86 eq_refl ltac:(lia) ltac:(lia)) as [E10 R10].
  destruct (Hf 86 94 eq_refl ltac:(lia) ltac:(lia)) as [E11 R11].
  destruct (Hf 94 102 eq_refl ltac:(lia) ltac:(lia)) as [E12 R12].
  destruct (Hf 102 110 eq_refl ltac:(lia) ltac:(lia)) as [E13 R13].
  rewrite E1, E2, E3, E4, E5, E6, E7, E8, E9, E10, E11, E12, E13.
  cbn [bind]. eexists. split; [reflexivity|].
  cbn [c_inode c_mode c_uid c_gid c_nlink c_mtime c_filesize c_devmajor
       c_devminor c_rdevmajor c_rdevminor c_namesize c_check map].
  split; [reflexivity|].
  repeat (constructor; [assumption|]). constructor.
Qed.

(** X9 on the header of the directory of the sample archive. *)
Lemma parse_cpio_fields_hex_witness :
  exists h,
    parse_cpio_fields archive_no_trailer = Ok h /\
    c_mode h = 16877 /\ c_filesize h = 0 /\ c_namesize h = 4.
Proof.
  destruct (parse_cpio_fields_hex archive_no_trailer) as (h & Hh & Hv & _).
  - vm_compute. discriminate.
  - vm_compute. repeat constructor.
  - exists h. split; [exact Hh|].
    injection Hv as _ Hm _ _ _ _ Hf _ _ _ _ Hn _.
    rewrite Hm, Hf, Hn. vm_compute. auto.
Defined.

(** ** Range of the fields *)

Lemma scan_digits_bound (s : list byte) :
  forall prev acc v rest,
    0 <= acc ->
    scan_digits 16 s prev acc = Some (v, rest) ->
    0 <= v < (acc + 1) * 16 ^ py_len s.
Proof.
  unfold py_len.
  induction s as [|b r IH]; intros prev acc v rest Hacc H.
  - cbn [scan_digits] in H. destruct prev; [discriminate|].
    injection H as <- _. simpl. lia.
  - cbn [scan_digits] in H.
    replace (Z.of_nat (length (b :: r))) with (Z.succ (Z.of_nat (length r)))
      by (simpl length; lia).
    rewrite Z.pow_succ_r by lia.
    assert (Hp : 0 < 16 ^ Z.of_nat (length r)) by (apply Z.pow_pos_nonneg; lia).
    destruct (is_underscore b).
    + destruct prev; [discriminate|].
      specialize (IH _ _ _ _ Hacc H). nia.
    + destruct (Z.ltb_spec (digit_value b) 16).
      * pose proof (digit_value_range b).
        specialize (IH _ (acc * 16 + digit_value b) _ _ ltac:(lia) H). nia.
      * destruct prev; [discriminate|]. injection H as <- _. nia.
Qed.

Lemma skip_space_length s : (length (skip_space s) <= length s)%nat.
Proof.
  induction s as [|b r IH]; [simpl; lia|]. cbn [skip_space].
  destruct (is_space b); simpl; lia.
Qed.

Lemma strip_hex_prefix_length s : (length (strip_hex_prefix s) <= length s)%nat.
Proof.
  unfold strip_hex_prefix. destruct s as [|b0 [|b1 r]]; try (simpl; lia).
  destruct ((byte_val b0 =? 48) && ((byte_val b1 =? 120) || (byte_val b1 =? 88)));
    [|simpl; lia].
  destruct r as [|u r']; [simpl; lia|]. destruct (is_underscore u); simpl; lia.
Qed.

(** A literal of at most [n] bytes has a value between [-16^(n-1)] and
    [16^n], both excluded. *)
Lemma py_int16_range (s : list byte) (n : Z) (v : Z) :
  py_len s <= n -> 1 <= n ->
  py_int16 s = Ok v -> - 16 ^ (n - 1) < v < 16 ^ n.
Proof.
  unfold py_len. intros Hlen Hn. unfold py_int16.
  pose proof (skip_space_length s) as Hsk.
  destruct (strip_sign (skip_space s)) as [sign s1] eqn:Hsign.
  pose proof (strip_hex_prefix_length s1) as Hpre.
  destruct (scan_digits 16 (strip_hex_prefix s1) false 0) as [[v0 rest]|] eqn:Hscan;
    [|discriminate].
  apply scan_digits_bound in Hscan; [|lia]. unfold py_len in Hscan.
  intros H.
  assert (Hv : v = sign * v0).
  { repeat match type of H with
    | (if ?c then _ else _) = _ => destruct c; [discriminate|]
    end.
    destruct (is_nil (skip_space rest)); [|discriminate]. congruence. }
  clear H.
  assert (Hmono : forall a b, 0 <= a <= b -> 16 ^ a <= 16 ^ b).
  { intros a b Hab. apply Z.pow_le_mono_r; lia. }
  unfold strip_sign in Hsign.
  destruct (skip_space s) as [|b r] eqn:Hs0.
  - injection Hsign as <- <-.
    pose proof (Hmono (Z.of_nat (length (strip_hex_prefix []))) n ltac:(lia)).
    assert (0 < 16 ^ (n - 1)) by (apply Z.pow_pos_nonneg; lia).
    lia.
  - simpl length in Hsk.
    destruct (byte_val b =? 43); [|destruct (byte_val b =? 45)];
      injection Hsign as <- <-.
    + pose proof (Hmono (Z.of_nat (length (strip_hex_prefix r))) n ltac:(lia)).
      assert (0 < 16 ^ (n - 1)) by (apply Z.pow_pos_nonneg; lia). lia.
    + pose proof (Hmono (Z.of_nat (length (strip_hex_prefix r))) (n - 1)
                        ltac:(lia)).
      assert (0 < 16 ^ n) by (apply Z.pow_pos_nonneg; lia). lia.
    + simpl length in Hpre.
      pose proof (Hmono (Z.of_nat (length (strip_hex_prefix (b :: r)))) n
                        ltac:(simpl length in *; lia)).
      assert (0 < 16 ^ (n - 1)) by (apply Z.pow_pos_nonneg; lia). lia.
Qed.

(** X10. Whatever the 110 bytes of a cpio header hold, the fields that
    [extract_cpio] gets from them, when all thirteen are accepted, lie
    between [-16^7] and [2^32], both excluded: a mode, a file size or a
    name size can be negative, through a sign in the field, but never
    exceeds 32 bits. *)
Theorem parse_cpio_fields_range (header : list byte) (h : cpio_header) :
  parse_cpio_fields header = Ok h ->
  Forall (fun v => - 16 ^ 7 < v < 2 ^ 32)
         [c_inode h; c_mode h; c_uid h; c_gid h; c_nlink h; c_mtime h;
          c_filesize h; c_devmajor h; c_devminor h; c_rdevmajor h;
          c_rdevminor h; c_namesize h; c_check h].
Proof.
  unfold parse_cpio_fields. intros H. inv_binds H. injection H as <-.
  cbn [c_inode c_mode c_uid c_gid c_nlink c_mtime c_filesize c_devmajor
       c_devminor c_rdevmajor c_rdevminor c_namesize c_check].
  assert (Hf : forall a v, 0 <= a ->
                 py_int16 (py_slice header a (a + 8)) = Ok v ->
                 - 16 ^ 7 < v < 2 ^ 32).
  { intros a v Ha Hv.
    apply (py_int16_range _ 8) in Hv; [exact Hv| |lia].
    rewrite py_slice_take_drop by lia. unfold py_len.
    rewrite length_take. lia. }
  repeat match goal with
  | H : py_int16 (py_slice header ?a _) = Ok ?v |- Forall _ (?v :: _) =>
    constructor; [apply (Hf a v ltac:(lia) H)|]
  end.
  constructor.
Qed.

(** X10 on the header of a record with the file size [-0000001]. *)
Lemma parse_cpio_fields_range_witness :
  exists h,
    parse_cpio_fields (cpio_record "000081A4" "-0000001" "00000002" [])
    = Ok h /\ c_filesize h = -1 /\ - 16 ^ 7 < c_filesize h < 2 ^ 32.
Proof.
  destruct (parse_cpio_fields (cpio_record "000081A4" "-0000001" "00000002" []))
    as [h|x] eqn:E; [|vm_compute in E; discriminate E].
  exists h. split; [reflexivity|].
  pose proof (parse_cpio_fields_range _ h E) as HF.
  split.
  - vm_compute in E. injection E as <-. reflexivity.
  - do 6 (apply Forall_inv_tail in HF). apply Forall_inv in HF. exact HF.
Defined.

(* ===================================================================== *)
(** * Position of the next header and number of the calls *)
(* ===================================================================== *)

(** ** Position of the next header *)

(** A read ends at the end of the file or has the length asked for. *)
Lemma f_read_exact content pos n chunk pos' :
  f_read content pos n = Ok (chunk, pos') ->
  0 <= pos <= py_len content ->
  pos' = py_len content \/ (0 <= n /\ pos' = pos + n).
Proof.
  unfold f_read. intros H Hpos.
  destruct (Z.ltb_spec n (-1)); [discriminate|].
  injection H as <- <-.
  destruct (Z.ltb_spec n 0).
  - left. unfold py_slice_from.
    rewrite py_len_slice by lia. lia.
  - destruct (Z.le_gt_cases (pos + n) (py_len content)).
    + right. rewrite py_len_slice by lia. lia.
    + left. rewrite py_slice_take_drop by lia. unfold py_len in *.
      rewrite length_take, length_drop. lia.
Qed.

Lemma roundup4_0 : roundup4 0 = 0.
Proof. reflexivity. Qed.

Lemma materialize_next content pos mode filesize full_path pos' evs :
  materialize content pos mode filesize full_path = Ok (pos', evs) ->
  0 <= pos <= py_len content ->
  pos' = py_len content \/ (0 <= filesize /\ pos' = pos + roundup4 filesize).
Proof.
  unfold materialize. intros H Hpos.
  destruct (Z.eqb_spec filesize 0) as [->|Hnz].
  - rewrite roundup4_0.
    apply bind_Ok in H. destruct H as (isdir & _ & H).
    destruct isdir; [injection H as <- _; right; lia|].
    apply bind_Ok in H. destruct H as (islnk & _ & H).
    destruct islnk; [|injection H as <- _; right; lia].
    apply bind_Ok in H. destruct H as ([raw p1] & Hr1 & H).
    apply bind_Ok in H. destruct H as (lt & _ & H).
    apply bind_Ok in H. destruct H as ([pad p2] & Hr2 & H).
    injection H as <- _.
    pose proof (f_read_pos _ _ _ _ _ Hr1 Hpos) as B1.
    pose proof (f_read_exact _ _ _ _ _ Hr1 Hpos) as E1.
    pose proof (f_read_pos _ _ _ _ _ Hr2 ltac:(lia)) as B2.
    pose proof (f_read_exact _ _ _ _ _ Hr2 ltac:(lia)) as E2.
    change ((4 - 0 mod 4) mod 4) with 0 in E2. lia.
  - apply bind_Ok in H. destruct H as ([raw p1] & Hr1 & H).
    apply bind_Ok in H. destruct H as ([pad p2] & Hr2 & H).
    injection H as <- _.
    pose proof (f_read_pos _ _ _ _ _ Hr1 Hpos) as B1.
    pose proof (f_read_exact _ _ _ _ _ Hr1 Hpos) as E1.
    pose proof (f_read_pos _ _ _ _ _ Hr2 ltac:(lia)) as B2.
    pose proof (f_read_exact _ _ _ _ _ Hr2 ltac:(lia)) as E2.
    unfold roundup4. lia.
Qed.

Lemma cpio_entry_next content dest header pos pos' evs :
  cpio_entry content dest header pos = Ok (inr (pos', evs)) ->
  0 <= pos <= py_len content ->
  exists h,
    parse_cpio_fields header = Ok h /\
    (pos' = py_len content \/
     (0 <= c_namesize h /\ 0 <= c_filesize h /\
      pos' = pos + roundup4 (c_namesize h) + roundup4 (c_filesize h))).
Proof.
  unfold cpio_entry. intros H Hpos.
  apply bind_Ok in H. destruct H as (h & Hh & H). cbv zeta in H.
  exists h. split; [exact Hh|].
  apply bind_Ok in H. destruct H as ([raw p1] & Hr1 & H).
  apply bind_Ok in H. destruct H as ([pad p2] & Hr2 & H).
  apply bind_Ok in H. destruct H as (filename & _ & H).
  destruct (str_eqb filename TRAILER); [discriminate|].
  apply bind_Ok in H. destruct H as ([p3 evs3] & Hm & H).
  injection H as <- <-.
  pose proof (f_read_pos _ _ _ _ _ Hr1 Hpos) as B1.
  pose proof (f_read_exact _ _ _ _ _ Hr1 Hpos) as E1.
  pose proof (f_read_pos _ _ _ _ _ Hr2 ltac:(lia)) as B2.
  pose proof (f_read_exact _ _ _ _ _ Hr2 ltac:(lia)) as E2.
  pose proof (materialize_pos _ _ _ _ _ _ _ Hm ltac:(lia)) as B3.
  pose proof (materialize_next _ _ _ _ _ _ _ Hm ltac:(lia)) as E3.
  unfold roundup4 in *. lia.
Qed.

Lemma roundup4_mod n : roundup4 n mod 4 = 0.
Proof.
  unfold roundup4.
  pose proof (Z.mod_pos_bound n 4 ltac:(lia)).
  pose proof (Z.mod_pos_bound (4 - n mod 4) 4 ltac:(lia)).
  Z.div_mod_to_equations. lia.
Qed.

(** X11. An iteration of the loop of [extract_cpio] that goes on has read
    a whole header of 110 bytes and leaves the file at the end of the data
    or at [pos + 110 + namesize + filesize], with the name size and the
    file size both rounded up to a multiple of 4: the next header is
    looked for at a distance from the end of this header that is a
    multiple of 4, not at a multiple of 4 from the start of the archive. *)
Theorem cpio_step_next_header (content : list byte) (dest_dir : list Z)
        (pos pos' : Z) (evs : list event) :
  0 <= pos ->
  cpio_step content dest_dir pos = Continue pos' evs ->
  pos + 110 <= pos' <= py_len content /\
  exists h,
    parse_cpio_fields (py_slice content pos (pos + 110)) = Ok h /\
    (pos' = py_len content \/
     (0 <= c_namesize h /\ 0 <= c_filesize h /\
      pos' = pos + 110 + roundup4 (c_namesize h) + roundup4 (c_filesize h) /\
      (pos' - (pos + 110)) mod 4 = 0)).
Proof.
  intros Hpos Hstep.
  destruct (Z.le_gt_cases (pos + 110) (py_len content)) as [Hfit|Hshort];
    [|rewrite cpio_step_short in Hstep by lia; discriminate].
  split; [apply (cpio_step_progress _ _ _ _ _ Hstep); lia|].
  rewrite cpio_step_full in Hstep by lia.
  destruct (ascii_decode (py_slice content pos (pos + 6))); [|discriminate].
  destruct (negb (recognized_magic a)); [discriminate|].
  destruct (cpio_entry content dest_dir (py_slice content pos (pos + 110))
                       (pos + 110)) as [[w|[p e]]|] eqn:He; try discriminate.
  injection Hstep as <- <-.
  destruct (cpio_entry_next _ _ _ _ _ _ He ltac:(lia)) as (h & Hh & Hn).
  exists h. split; [exact Hh|].
  destruct Hn as [Hn|(Hns & Hfs & Hn)]; [left; exact Hn|].
  right. split; [exact Hns|]. split; [exact Hfs|]. split; [lia|].
  replace (p - (pos + 110))
    with (roundup4 (c_namesize h) + roundup4 (c_filesize h)) by lia.
  pose proof (roundup4_mod (c_namesize h)).
  pose proof (roundup4_mod (c_filesize h)).
  Z.div_mod_to_equations. lia.
Qed.

(** X11 on the first record of the sample archive: a name of 4 bytes and
    no content. *)
Lemma cpio_step_next_header_witness :
  cpio_step archive_with_symlink (str_lit "/tmp/out") 0
  = Continue 114 [Fs (Makedirs (str_lit "/tmp/out/dir"))] /\
  (114 - (0 + 110)) mod 4 = 0.
Proof.
  assert (Hs : cpio_step archive_with_symlink (str_lit "/tmp/out") 0
               = Continue 114 [Fs (Makedirs (str_lit "/tmp/out/dir"))])
    by (vm_compute; reflexivity).
  split; [exact Hs|].
  destruct (cpio_step_next_header _ _ 0 114 _ ltac:(lia) Hs)
    as (_ & h & _ & [Hend|(_ & _ & _ & Hmod)]).
  - vm_compute in Hend. discriminate Hend.
  - exact Hmod.
Defined.

(** ** Number of the calls *)

Lemma materialize_ops content pos mode filesize full_path pos' evs :
  materialize content pos mode filesize full_path = Ok (pos', evs) ->
  (length (fs_ops evs) <= 2)%nat.
Proof.
  unfold materialize. intros H.
  repeat match type of H with
  | (if ?c then _ else _) = _ => destruct c
  | bind _ _ = Ok _ => apply bind_Ok in H; destruct H as (? & ? & H)
  | (let '(_, _) := ?p in _) = _ => destruct p
  end; injection H as _ <-; simpl; lia.
Qed.

Lemma cpio_step_ops content dest pos :
  match cpio_step content dest pos with
  | Continue _ evs | Break _ evs | Abort _ evs => (length (fs_ops evs) <= 2)%nat
  end.
Proof.
  unfold cpio_step.
  destruct (f_read content pos 110) as [[header p1]|]; [|simpl; lia].
  destruct (py_len header <? 110); [simpl; lia|].
  destruct (ascii_decode (py_slice header 0 6)); [|simpl; lia].
  destruct (negb _); [simpl; lia|].
  destruct (cpio_entry content dest header p1) as [[w|[p e]]|] eqn:He;
    try (simpl; lia).
  unfold cpio_entry in He.
  repeat match type of He with
  | (if ?c then _ else _) = _ => destruct c; [discriminate|]
  | bind _ _ = Ok _ => apply bind_Ok in He; destruct He as (? & ? & He); cbv zeta in He
  | (let '(_, _) := ?p in _) = _ => destruct p
  end.
  injection He as ->.
  eapply materialize_ops. eassumption.
Qed.

Lemma cpio_loop_ops (fuel : nat) :
  forall content dest pos tr,
    0 <= pos <= py_len content ->
    match cpio_loop fuel content dest pos tr with
    | Stopped _ tr' | LoopRaised _ tr' =>
      55 * Z.of_nat (length (fs_ops tr'))
      <= 55 * Z.of_nat (length (fs_ops tr)) + (py_len content - pos)
    | OutOfFuel => True
    end.
Proof.
  induction fuel as [|fuel IH]; intros content dest pos tr Hpos; [exact I|].
  cbn [cpio_loop].
  pose proof (cpio_step_ops content dest pos) as Hops.
  destruct (cpio_step content dest pos) as [pos' evs|why evs|e evs] eqn:Hs.
  - pose proof (cpio_step_progress _ _ _ _ _ Hs Hpos) as Hp.
    specialize (IH content dest pos' (tr ++ evs) ltac:(lia)).
    destruct (cpio_loop fuel content dest pos' (tr ++ evs)); try exact I;
      rewrite fs_ops_app, length_app in IH; lia.
  - destruct (Z.le_gt_cases (pos + 110) (py_len content)) as [Hfit|Hshort].
    + rewrite fs_ops_app, length_app. lia.
    + rewrite cpio_step_short in Hs by lia. injection Hs as <- <-.
      rewrite app_nil_r. lia.
  - unfold cpio_step in Hs.
    assert (evs = []) as ->.
    { destruct (f_read content pos 110) as [[header p1]|];
        [|injection Hs as _ <-; reflexivity].
      destruct (py_len header <? 110); [discriminate|].
      destruct (ascii_decode (py_slice header 0 6));
        [|injection Hs as _ <-; reflexivity].
      destruct (negb _); [discriminate|].
      destruct (cpio_entry content dest header p1) as [[w|[p e']]|];
        try discriminate. injection Hs as _ <-. reflexivity. }
    rewrite app_nil_r. lia.
Qed.

(** X12. Extraction cannot be made to issue more calls than its input has
    bytes for: on an archive that is not gzipped, [extract_cpio] ends, and
    the directories, files and symlinks it creates below the destination
    directory number at most one for every 55 bytes of the archive. *)
Theorem extract_cpio_ops_bound (gzip_decompress : list byte -> option (list byte))
        (raw : list byte) (dest_dir : list Z) :
  py_slice raw 0 2 <> GZIP_MAGIC ->
  match extract_cpio gzip_decompress (Some raw) dest_dir with
  | Returned _ tr | Raised _ tr =>
    exists rest,
      fs_ops tr = Makedirs dest_dir :: rest /\
      55 * Z.of_nat (length rest) <= py_len raw
  | Diverged => False
  end.
Proof.
  intros Hgz. unfold extract_cpio.
  destruct (bytes_eqb (py_slice raw 0 2) GZIP_MAGIC) eqn:E;
    [apply bytes_eqb_eq in E; contradiction|].
  unfold extract_cpio_data.
  pose proof (cpio_loop_total raw dest_dir [Fs (Makedirs dest_dir)]) as Htot.
  pose proof (cpio_loop_trace (cpio_fuel raw) raw dest_dir 0
                              [Fs (Makedirs dest_dir)]) as Htr.
  pose proof (cpio_loop_ops (cpio_fuel raw) raw dest_dir 0
                [Fs (Makedirs dest_dir)]
                ltac:(pose proof (py_len_nonneg raw); lia)) as Hops.
  destruct (cpio_loop (cpio_fuel raw) raw dest_dir 0 [Fs (Makedirs dest_dir)])
    as [why tr|x tr|]; [| |congruence].
  - destruct Htr as [evs ->].
    exists (fs_ops evs ++ fs_ops [Log (Info_ExtractedCpio dest_dir)]).
    rewrite !fs_ops_app. split; [reflexivity|].
    rewrite fs_ops_app, length_app in Hops. cbn [fs_ops flat_map app length] in *.
    rewrite app_nil_r. lia.
  - destruct Htr as [evs ->]. exists (fs_ops evs).
    rewrite fs_ops_app. split; [reflexivity|].
    rewrite fs_ops_app, length_app in Hops. cbn [fs_ops flat_map app length] in *.
    lia.
Qed.

(** X12 on the sample archive with a directory, a file and a link. *)
Lemma extract_cpio_ops_bound_witness :
  exists tr rest,
    extract_cpio no_gzip (Some archive_with_symlink) (str_lit "/tmp/out")
    = Returned tt tr /\
    fs_ops tr = Makedirs (str_lit "/tmp/out") :: rest /\
    55 * Z.of_nat (length rest) <= py_len archive_with_symlink.
Proof.
  pose proof (extract_cpio_ops_bound no_gzip archive_with_symlink
                                     (str_lit "/tmp/out")) as H.
  destruct (extract_cpio no_gzip (Some archive_with_symlink) (str_lit "/tmp/out"))
    as [[] tr|x tr|] eqn:E; try (vm_compute in E; discriminate E).
  destruct H as (rest & Hops & Hb); [vm_compute; discriminate|].
  exists tr, rest. split; [reflexivity|]. split; [exact Hops|].
  exact Hb.
Defined.

(* ===================================================================== *)
(** * Bytes and files that the patcher changes *)
(* ===================================================================== *)

(** ** The bytes that the patcher changes *)

(** Writing [new] over an occurrence of [old] from which it differs at
    the index [d] only sets one byte. *)
Lemma replace_at_one_byte (old new s : list byte) (i d : nat) (b : byte) :
  occurs_at old s i -> old <> [] -> length new = length old ->
  new !! d = Some b ->
  (forall k, k <> d -> new !! k = old !! k) ->
  replace_at s i new = <[(i + d)%nat := b]> s.
Proof.
  intros Hocc Hne Hlen Hd Hsame.
  pose proof (occurs_at_bound old s i Hne Hocc) as Hb.
  pose proof (lookup_lt_Some _ _ _ Hd) as Hdl.
  apply list_eq. intros k.
  destruct (Nat.lt_ge_cases k i) as [Hlo|Hge].
  - rewrite lookup_replace_at_outside by lia.
    rewrite list_lookup_insert_ne by lia. reflexivity.
  - destruct (Nat.lt_ge_cases k (i + length new)) as [Hin|Hhi].
    + replace k with (i + (k - i)%nat)%nat by lia.
      rewrite lookup_replace_at_inside by lia.
      destruct (Nat.eq_dec (k - i)%nat d) as [Heq|Hnd].
      * rewrite Heq. rewrite list_lookup_insert_eq by lia. exact Hd.
      * rewrite list_lookup_insert_ne by lia.
        rewrite (Hsame _ Hnd). symmetry.
        apply lookup_occurs_at; [exact Hocc|lia].
    + rewrite lookup_replace_at_outside by lia.
      rewrite list_lookup_insert_ne by lia. reflexivity.
Qed.

Lemma pattern1_one_byte (s : list byte) (i : nat) :
  occurs_at pattern1_old s i ->
  replace_at s i pattern1_new = <[(i + 4)%nat := x00]> s.
Proof.
  intros Hocc.
  apply (replace_at_one_byte pattern1_old); try assumption; try reflexivity;
    try discriminate.
  intros k Hk. do 6 (destruct k as [|k]; [reflexivity || lia|]). reflexivity.
Qed.

Lemma pattern2_one_byte (s : list byte) (j : nat) :
  occurs_at pattern2_old s j ->
  replace_at s j pattern2_new = <[(j + 0)%nat := x00]> s.
Proof.
  intros Hocc.
  apply (replace_at_one_byte pattern2_old); try assumption; try reflexivity;
    try discriminate.
  intros k Hk. do 4 (destruct k as [|k]; [reflexivity || lia|]). reflexivity.
Qed.

(** X13. The patch clears at most two bytes and changes nothing else: the
    patched blob is the original with the fifth byte of the last
    occurrence of pattern 1, which is 0x40, set to 0 and with the first
    byte of the first occurrence of pattern 2 after it, which is 0x20, set
    to 0; the two bytes are different bytes of the blob. *)
Theorem patch_data_clears_two_bytes (data : list byte) :
  exists o1 o2 : option nat,
    new_data (patch_data data) = clear_byte o2 0 (clear_byte o1 4 data) /\
    match o1 with
    | Some i => last_occurrence pattern1_old data i /\
                data !! (i + 4)%nat = Some x40
    | None => forall i, ~ occurs_at pattern1_old data i
    end /\
    match o2 with
    | Some j => first_occurrence_from pattern2_old data (cursor_of o1) j /\
                data !! j = Some x20 /\
                (forall i, o1 = Some i -> (i + 4 < j)%nat)
    | None => forall j, (cursor_of o1 <= j)%nat -> ~ occurs_at pattern2_old data j
    end.
Proof.
  destruct (patch_data_spec data) as (o1 & o2 & H1 & H2 & Hnew & _).
  exists o1, o2. rewrite Hnew.
  assert (Hmid : replace_opt o1 pattern1_new data = clear_byte o1 4 data).
  { destruct o1 as [i|]; [|reflexivity]. cbn [replace_opt clear_byte].
    apply pattern1_one_byte. apply H1. }
  rewrite Hmid. split; [|split].
  - destruct o2 as [j|]; [|reflexivity]. cbn [replace_opt clear_byte].
    apply pattern2_one_byte.
    destruct H2 as (Hc & Hocc & _).
    destruct o1 as [i|]; [|exact Hocc]. cbn [clear_byte].
    unfold occurs_at in *.
    rewrite drop_insert_lt by (simpl in Hc; lia). exact Hocc.
  - destruct o1 as [i|]; [|exact H1]. split; [exact H1|].
    apply (lookup_occurs_at pattern1_old data i 4); [apply H1|simpl; lia].
  - destruct o2 as [j|]; [|exact H2]. split; [exact H2|]. split.
    + destruct H2 as (_ & Hocc & _).
      pose proof (lookup_occurs_at pattern2_old data j 0 Hocc) as Hl.
      rewrite Nat.add_0_r in Hl. apply Hl. simpl. lia.
    + intros i ->. destruct H2 as (Hc & _). simpl in Hc. lia.
Qed.



(* ===================================================================== *)
(** * Text fields *)
(* ===================================================================== *)

(** ** The text that the decoder yields *)

Lemma lor_shiftl_add x n y :
  0 <= n -> 0 <= y < 2 ^ n -> Z.lor (Z.shiftl x n) y = x * 2 ^ n + y.
Proof.
  intros Hn Hy.
  assert (Hland : Z.land (Z.shiftl x n) y = 0).
  { apply Z.bits_inj'. intros k Hk. rewrite Z.land_spec, Z.bits_0.
    destruct (Z.lt_ge_cases k n).
    - rewrite Z.shiftl_spec_low by lia. reflexivity.
    - rewrite <- (Z.mod_small y (2 ^ n)) by lia.
      rewrite Z.mod_pow2_bits_high by lia. apply andb_false_r. }
  rewrite <- Z.lxor_lor by exact Hland.
  rewrite <- Z.add_nocarry_lxor by exact Hland.
  rewrite Z.shiftl_mul_pow2 by lia. reflexivity.
Qed.

Lemma land_63 a : Z.land a 63 = a mod 64.
Proof. apply (Z.land_ones a 6). lia. Qed.

Lemma land_31 a : Z.land a 31 = a mod 32.
Proof. apply (Z.land_ones a 5). lia. Qed.

Lemma land_15 a : Z.land a 15 = a mod 16.
Proof. apply (Z.land_ones a 4). lia. Qed.

Lemma land_7 a : Z.land a 7 = a mod 8.
Proof. apply (Z.land_ones a 3). lia. Qed.

Lemma two_byte_scalar ch v1 :
  194 <= ch < 224 -> 128 <= v1 < 192 ->
  is_scalar (Z.lor (Z.shiftl (Z.land ch 31) 6) (Z.land v1 63)).
Proof.
  intros Hc H1.
  rewrite land_31, land_63.
  pose proof (Z.mod_pos_bound v1 64 ltac:(lia)).
  rewrite lor_shiftl_add by (change (2 ^ 6) with 64; lia).
  unfold is_scalar. left. change (2 ^ 6) with 64.
  Z.div_mod_to_equations. lia.
Qed.

Lemma three_byte_scalar ch v1 v2 :
  224 <= ch < 240 -> 128 <= v1 < 192 -> 128 <= v2 < 192 ->
  (if v1 <? 160 then ch =? 224 else ch =? 237) = false ->
  is_scalar (Z.lor (Z.shiftl (Z.land ch 15) 12)
               (Z.lor (Z.shiftl (Z.land v1 63) 6) (Z.land v2 63))).
Proof.
  intros Hc H1 H2 Hx.
  rewrite land_15, !land_63.
  pose proof (Z.mod_pos_bound v2 64 ltac:(lia)).
  pose proof (Z.mod_pos_bound v1 64 ltac:(lia)).
  rewrite (lor_shiftl_add (v1 mod 64)) by (change (2 ^ 6) with 64; lia).
  rewrite lor_shiftl_add by (change (2 ^ 12) with 4096; change (2 ^ 6) with 64; lia).
  unfold is_scalar.
  change (2 ^ 12) with 4096; change (2 ^ 6) with 64.
  destruct (Z.ltb_spec v1 160); destruct (Z.eqb_spec ch 224);
    destruct (Z.eqb_spec ch 237); try discriminate;
    Z.div_mod_to_equations; lia.
Qed.

Lemma four_byte_scalar ch v1 v2 v3 :
  240 <= ch < 245 -> 128 <= v1 < 192 -> 128 <= v2 < 192 -> 128 <= v3 < 192 ->
  (if v1 <? 144 then ch =? 240 else ch =? 244) = false ->
  is_scalar (Z.lor (Z.shiftl (Z.land ch 7) 18)
               (Z.lor (Z.shiftl (Z.land v1 63) 12)
                  (Z.lor (Z.shiftl (Z.land v2 63) 6) (Z.land v3 63)))).
Proof.
  intros Hc H1 H2 H3 Hx.
  rewrite land_7, !land_63.
  pose proof (Z.mod_pos_bound v3 64 ltac:(lia)).
  pose proof (Z.mod_pos_bound v2 64 ltac:(lia)).
  pose proof (Z.mod_pos_bound v1 64 ltac:(lia)).
  rewrite (lor_shiftl_add (v2 mod 64)) by (change (2 ^ 6) with 64; lia).
  rewrite (lor_shiftl_add (v1 mod 64)) by (change (2 ^ 12) with 4096; change (2 ^ 6) with 64; lia).
  rewrite lor_shiftl_add
    by (change (2 ^ 18) with 262144; change (2 ^ 12) with 4096;
        change (2 ^ 6) with 64; lia).
  unfold is_scalar.
  change (2 ^ 18) with 262144; change (2 ^ 12) with 4096;
    change (2 ^ 6) with 64.
  destruct (Z.ltb_spec v1 144); destruct (Z.eqb_spec ch 240);
    destruct (Z.eqb_spec ch 244); try discriminate;
    Z.div_mod_to_equations; lia.
Qed.

Lemma on_error_Ok_inv h k s :
  on_error h k = Ok s ->
  exists s', k = Ok s' /\ (s = s' \/ s = 65533 :: s').
Proof.
  destruct h; simpl; [discriminate| |].
  - intros ->. eauto.
  - destruct k; simpl; [intros [= <-]; eauto | discriminate].
Qed.

Lemma is_continuation_range b :
  is_continuation b = true -> 128 <= byte_val b < 192.
Proof. unfold is_continuation. lia. Qed.

Ltac decode_emit IH H :=
  apply emit_Ok_inv in H; destruct H as (? & H & ->);
  apply IH in H;
  [destruct H as [? ?]; split;
   [constructor; [|assumption] | cbn [length] in *; lia]
  | cbn [length] in *; lia].

Ltac decode_error IH H Hrep :=
  apply on_error_Ok_inv in H; destruct H as (? & H & [-> | ->]);
  (first
     [ injection H as <-; split;
       [repeat (constructor; [exact Hrep|]); constructor | cbn [length]; lia]
     | apply IH in H;
       [destruct H as [? ?]; split;
        [repeat (constructor; [exact Hrep|]); assumption
        | cbn [length] in *; lia]
       | cbn [length] in *; lia] ]).

Lemma utf8_decode_text_aux (h : errors) (n : nat) :
  forall bs s, (length bs <= n)%nat -> utf8_decode h bs = Ok s ->
    Forall is_scalar s /\ (length s <= length bs)%nat.
Proof.
  assert (Hrep : is_scalar 65533) by (right; lia).
  induction n as [|n IH]; intros bs s Hn H.
  - destruct bs; [|simpl in Hn; lia]. injection H as <-. split; [constructor|simpl; lia].
  - destruct bs as [|b0 r0]; [injection H as <-; split; [constructor|simpl; lia]|].
    cbn [utf8_decode] in H. cbv zeta in H.
    pose proof (byte_val_range b0) as Hb0.
    cbn [length] in *.
    destruct (Z.ltb_spec (byte_val b0) 128).
    { decode_emit IH H. left. lia. }
    destruct (Z.ltb_spec (byte_val b0) 194).
    { decode_error IH H Hrep. }
    destruct (Z.ltb_spec (byte_val b0) 224).
    { destruct r0 as [|b1 r1]; [decode_error IH H Hrep|].
      destruct (is_continuation b1) eqn:E1; [|decode_error IH H Hrep].
      apply is_continuation_range in E1.
      decode_emit IH H. apply two_byte_scalar; lia. }
    destruct (Z.ltb_spec (byte_val b0) 240).
    { destruct r0 as [|b1 r1]; [decode_error IH H Hrep|].
      destruct (is_continuation b1) eqn:E1; cbn [negb orb] in H;
        [|decode_error IH H Hrep].
      apply is_continuation_range in E1.
      destruct (if byte_val b1 <? 160 then byte_val b0 =? 224
                else byte_val b0 =? 237) eqn:Ex; [decode_error IH H Hrep|].
      destruct r1 as [|b2 r2]; [decode_error IH H Hrep|].
      destruct (is_continuation b2) eqn:E2; [|decode_error IH H Hrep].
      apply is_continuation_range in E2.
      decode_emit IH H. apply three_byte_scalar; (lia || assumption). }
    destruct (Z.ltb_spec (byte_val b0) 245).
    { destruct r0 as [|b1 r1]; [decode_error IH H Hrep|].
      destruct (is_continuation b1) eqn:E1; cbn [negb orb] in H;
        [|decode_error IH H Hrep].
      apply is_continuation_range in E1.
      destruct (if byte_val b1 <? 144 then byte_val b0 =? 240
                else byte_val b0 =? 244) eqn:Ex; [decode_error IH H Hrep|].
      destruct r1 as [|b2 r2]; [decode_error IH H Hrep|].
      destruct (is_continuation b2) eqn:E2; cbn [negb] in H;
        [|decode_error IH H Hrep].
      apply is_continuation_range in E2.
      destruct r2 as [|b3 r3]; [decode_error IH H Hrep|].
      destruct (is_continuation b3) eqn:E3; [|decode_error IH H Hrep].
      apply is_continuation_range in E3.
      decode_emit IH H. apply four_byte_scalar; (lia || assumption). }
    decode_error IH H Hrep.
Qed.

Lemma utf8_decode_text (h : errors) (bs : list byte) (s : list Z) :
  utf8_decode h bs = Ok s ->
  Forall is_scalar s /\ (length s <= length bs)%nat.
Proof. apply (utf8_decode_text_aux h (length bs)). lia. Qed.

Lemma utf8_decode_ascii (h : errors) (bs : list byte) :
  Forall (fun b => byte_val b < 128) bs ->
  utf8_decode h bs = Ok (map byte_val bs).
Proof.
  induction 1 as [|b r Hb _ IH]; [reflexivity|].
  cbn [utf8_decode]. cbv zeta.
  destruct (Z.ltb_spec (byte_val b) 128); [|lia].
  rewrite IH. reflexivity.
Qed.

Lemma rstrip_length c bs : (length (rstrip c bs) <= length bs)%nat.
Proof.
  destruct (rstrip_spec c bs) as (k & Hk & _).
  rewrite Hk at 2. rewrite length_app. lia.
Qed.

Lemma py_len_slice_at_most {A} (l : list A) (a b : Z) :
  0 <= a <= b -> py_len (py_slice l a b) <= b - a.
Proof.
  intros H. rewrite py_slice_take_drop by lia. unfold py_len.
  rewrite length_take, length_drop. lia.
Qed.

Lemma text_field_bound (region : list byte) (s : list Z) (n : Z) :
  py_len region <= n ->
  utf8_decode Ignore (rstrip NUL region) = Ok s ->
  py_len s <= n /\ Forall is_scalar s.
Proof.
  intros Hlen H. destruct (utf8_decode_text _ _ _ H) as [Hs Hl].
  pose proof (rstrip_length NUL region). unfold py_len in *. split; [lia|exact Hs].
Qed.

Lemma get_ramdisk_entries_members (h : VendorBootHeader)
      (es : list VendorRamdiskEntry) :
  0 <= table_offset h <= py_len (data h) ->
  get_ramdisk_entries h = Ok es ->
  forall e, elem_of e es ->
    exists a, VendorRamdiskEntry_init (py_slice (data h) a (a + 76)) = Ok e.
Proof.
  intros Hoff H e Hin. unfold get_ramdisk_entries in H.
  destruct (vendor_ramdisk_table_num_entries h =? 0);
    [injection H as <-; apply not_elem_of_nil in Hin; destruct Hin|].
  unfold VENDOR_RAMDISK_NAME_SIZE, BOOT_ID_SIZE in H.
  cbv zeta in H. change (4 + 4 + 4 + 32 + 32) with 76 in H.
  set (n := Z.to_nat (vendor_ramdisk_table_num_entries h)) in *.
  destruct (Z.le_gt_cases (table_offset h + (0 + Z.of_nat n) * 76)
                          (py_len (data h))) as [Hfit|Hcut].
  - destruct (get_ramdisk_entries_loop_ok h n 0 [] ltac:(lia) ltac:(lia) Hfit)
      as (es' & Hes & _ & Hall).
    rewrite Hes in H. injection H as <-. cbn [app] in Hin.
    apply list_elem_of_lookup in Hin.
    destruct Hin as [k Hk]. eexists. apply (Hall k e Hk).
  - destruct (get_ramdisk_entries_loop_truncated h n 0 [] ltac:(lia) ltac:(lia)
                ltac:(lia) Hcut) as (j & _ & Hr).
    rewrite Hr in H. discriminate H.
Qed.

(** X15. The texts that [parse_vendor_boot] returns are bounded and are
    valid Unicode, whatever bytes the image holds: the command line has at
    most 2048 characters, the product name at most 64 and the name of
    every ramdisk entry at most 32, and none of them holds a surrogate or
    a code point above U+10FFFF. *)
Theorem parse_vendor_boot_texts (buf d : list byte) (h : VendorBootHeader)
        (es : list VendorRamdiskEntry) :
  parse_vendor_boot (Some buf) = Ok (h, es, d) ->
  py_len (cmdline h) <= 2048 /\ Forall is_scalar (cmdline h) /\
  py_len (product_name h) <= 64 /\ Forall is_scalar (product_name h) /\
  Forall (fun e => py_len (name e) <= 32 /\ Forall is_scalar (name e)) es.
Proof.
  unfold parse_vendor_boot. intros H.
  apply bind_Ok in H. destruct H as (h' & Hh & H).
  apply bind_Ok in H. destruct H as (es' & Hes & H).
  injection H as -> -> _.
  destruct (VendorBootHeader_init_Ok buf h Hh)
    as (Hd & Ho & Hl & _ & _ & Hc & Hp & _).
  destruct (text_field_bound _ _ 2048 (py_len_slice_at_most buf 28 2076 ltac:(lia)) Hc)
    as [Hc1 Hc2].
  destruct (text_field_bound _ _ 64 (py_len_slice_at_most buf 2080 2144 ltac:(lia)) Hp)
    as [Hp1 Hp2].
  repeat (split; [assumption|]).
  apply Forall_forall. intros e He.
  destruct (get_ramdisk_entries_members h es ltac:(rewrite Hd, Ho; lia) Hes e He)
    as [a Ha].
  destruct (VendorRamdiskEntry_init_Ok _ _ Ha) as (_ & _ & _ & Hn & _).
  apply (text_field_bound _ _ 32) in Hn; [exact Hn|].
  apply (py_len_slice_at_most _ 12 44). lia.
Qed.

(** X15 on the image with the ill-formed byte 0xFF in its command line. *)
Lemma parse_vendor_boot_texts_witness :
  exists h es,
    parse_vendor_boot (Some image_bad_cmdline) = Ok (h, es, image_bad_cmdline) /\
    py_len (cmdline h) <= 2048 /\ Forall is_scalar (cmdline h).
Proof.
  destruct (parse_vendor_boot (Some image_bad_cmdline)) as [[[h es] d]|x] eqn:E;
    [|vm_compute in E; discriminate E].
  assert (Hd : d = image_bad_cmdline).
  { unfold parse_vendor_boot in E.
    destruct (VendorBootHeader_init image_bad_cmdline) as [v|]; [|discriminate E].
    cbn [bind] in E. destruct (get_ramdisk_entries v); [|discriminate E].
    cbn [bind] in E. injection E as _ _ <-. reflexivity. }
  subst d. exists h, es. split; [reflexivity|].
  destruct (parse_vendor_boot_texts _ _ _ _ E) as (Hc & Hs & _).
  split; assumption.
Defined.

Lemma last_map_val (l : list byte) :
  last (map byte_val l) = option_map byte_val (last l).
Proof.
  induction l as [|a r IH]; [reflexivity|].
  destruct r as [|b r]; [reflexivity|]. exact IH.
Qed.

Lemma ascii_check (l : list byte) :
  forallb (fun b => byte_val b <? 128) l = true ->
  Forall (fun b => byte_val b < 128) l.
Proof.
  induction l as [|a r IH]; cbn [forallb]; intros H; constructor;
    apply andb_prop in H; [lia|apply IH, H].
Qed.

(** X16. A text field that holds ASCII only is read back byte for byte:
    for an accepted header whose command line region (2048 bytes at 28)
    has no byte above 0x7F, the region is [cmdline] followed by NUL bytes
    only, and [cmdline] does not end with NUL; likewise for the product
    name (64 bytes at 2080). *)
Theorem header_ascii_fields_exact (buf : list byte) (h : VendorBootHeader) :
  VendorBootHeader_init buf = Ok h ->
  (Forall (fun b => byte_val b < 128) (py_slice buf 28 2076) ->
   exists k, map byte_val (py_slice buf 28 2076) = cmdline h ++ repeat 0 k /\
             last (cmdline h) <> Some 0) /\
  (Forall (fun b => byte_val b < 128) (py_slice buf 2080 2144) ->
   exists k, map byte_val (py_slice buf 2080 2144)
             = product_name h ++ repeat 0 k /\
             last (product_name h) <> Some 0).
Proof.
  intros Hh.
  destruct (VendorBootHeader_init_Ok buf h Hh)
    as (_ & _ & _ & _ & _ & Hc & Hp & _).
  assert (Hfield : forall region s,
    utf8_decode Ignore (rstrip NUL region) = Ok s ->
    Forall (fun b => byte_val b < 128) region ->
    exists k, map byte_val region = s ++ repeat 0 k /\ last s <> Some 0).
  { intros region s Hdec Hascii.
    destruct (rstrip_spec NUL region) as (k & Hk & Hlast).
    assert (Ha : Forall (fun b => byte_val b < 128) (rstrip NUL region)).
    { rewrite Hk in Hascii. apply Forall_app in Hascii. apply Hascii. }
    rewrite (utf8_decode_ascii Ignore _ Ha) in Hdec. injection Hdec as <-.
    exists k. split.
    - rewrite Hk at 1. rewrite map_app. f_equal.
      clear. induction k; [reflexivity|]. simpl. f_equal. assumption.
    - rewrite last_map_val. intros Hl.
      destruct (last (rstrip NUL region)) as [b|] eqn:El; [|discriminate].
      apply Hlast. f_equal. cbn [option_map] in Hl. injection Hl as Hl.
      destruct b; try (vm_compute in Hl; discriminate Hl). reflexivity. }
  split; intros Hascii; eapply Hfield; eassumption.
Qed.

(** X16 on the header of the sample image. *)
Lemma header_ascii_fields_exact_witness :
  exists h k,
    VendorBootHeader_init image_two_recovery = Ok h /\
    map byte_val (py_slice image_two_recovery 28 2076)
    = cmdline h ++ repeat 0 k /\
    last (cmdline h) <> Some 0.
Proof.
  destruct (VendorBootHeader_init image_two_recovery) as [h|x] eqn:E;
    [|vm_compute in E; discriminate E].
  destruct (header_ascii_fields_exact image_two_recovery h E) as [Hc _].
  destruct Hc as (k & Hk & Hl).
  - apply ascii_check. vm_compute. reflexivity.
  - exists h, k. split; [reflexivity|]. split; assumption.
Defined.

(* ===================================================================== *)
(** * Property files *)
(* ===================================================================== *)

(** ** White space at the ends of a string *)

Lemma lstrip_ws_blank ws s : blank ws -> lstrip_ws (ws ++ s) = lstrip_ws s.
Proof.
  induction 1 as [|c ws Hc _ IH]; [reflexivity|].
  cbn [app lstrip_ws]. rewrite Hc. exact IH.
Qed.

Lemma lstrip_ws_id s :
  (forall c, head s = Some c -> isspace c = false) -> lstrip_ws s = s.
Proof.
  destruct s as [|c r]; [reflexivity|]. intros H. cbn [lstrip_ws].
  rewrite (H c eq_refl). reflexivity.
Qed.

Lemma lstrip_ws_suffix s : exists ws, s = ws ++ lstrip_ws s /\ blank ws.
Proof.
  induction s as [|c r (ws & Hr & Hws)]; [exists []; split; [reflexivity|constructor]|].
  cbn [lstrip_ws]. destruct (isspace c) eqn:Hc.
  - exists (c :: ws). split; [cbn [app]; f_equal; exact Hr|constructor; assumption].
  - exists []. split; [reflexivity|constructor].
Qed.

Lemma lstrip_ws_head s c : head (lstrip_ws s) = Some c -> isspace c = false.
Proof.
  induction s as [|x r IH]; [discriminate|]. cbn [lstrip_ws].
  destruct (isspace x) eqn:Hx; [exact IH|]. intros [= <-]. exact Hx.
Qed.

Lemma rstrip_ws_cons c s :
  rstrip_ws (c :: s)
  = if isspace c && is_nil (rstrip_ws s) then [] else c :: rstrip_ws s.
Proof. reflexivity. Qed.

Lemma rstrip_ws_blank_nil ws : blank ws -> rstrip_ws ws = [].
Proof.
  induction 1 as [|c ws Hc _ IH]; [reflexivity|].
  rewrite rstrip_ws_cons, IH, Hc. reflexivity.
Qed.

Lemma rstrip_ws_blank s ws : blank ws -> rstrip_ws (s ++ ws) = rstrip_ws s.
Proof.
  intros Hws. induction s as [|c r IH]; [apply rstrip_ws_blank_nil, Hws|].
  cbn [app]. rewrite !rstrip_ws_cons, IH. reflexivity.
Qed.

Lemma rstrip_ws_prefix s : exists ws, s = rstrip_ws s ++ ws /\ blank ws.
Proof.
  induction s as [|c r (ws & Hr & Hws)]; [exists []; split; [reflexivity|constructor]|].
  rewrite rstrip_ws_cons.
  destruct (isspace c) eqn:Hc; destruct (rstrip_ws r) as [|x t] eqn:Ht;
    cbn [andb is_nil].
  - exists (c :: ws). split; [cbn [app] in *; f_equal; exact Hr|constructor; assumption].
  - exists ws. cbn [app]. split; [f_equal; exact Hr|exact Hws].
  - exists ws. cbn [app]. split; [f_equal; exact Hr|exact Hws].
  - exists ws. cbn [app]. split; [f_equal; exact Hr|exact Hws].
Qed.

Lemma rstrip_ws_last s c : last (rstrip_ws s) = Some c -> isspace c = false.
Proof.
  induction s as [|x r IH]; [discriminate|]. rewrite rstrip_ws_cons.
  destruct (isspace x) eqn:Hx; destruct (rstrip_ws r) as [|y t] eqn:Ht;
    cbn [andb is_nil]; try discriminate.
  - exact IH.
  - intros [= <-]. exact Hx.
  - exact IH.
Qed.

Lemma rstrip_ws_id s :
  (forall c, last s = Some c -> isspace c = false) -> rstrip_ws s = s.
Proof.
  intros H. destruct (rstrip_ws_prefix s) as (ws & Hs & Hws).
  destruct ws as [|w ws' _] using rev_ind; [rewrite app_nil_r in Hs; congruence|].
  exfalso. rewrite Hs, app_assoc, last_snoc in H.
  apply Forall_app in Hws. destruct Hws as [_ Hw].
  apply Forall_cons in Hw. destruct Hw as [Hw _].
  specialize (H w eq_refl). congruence.
Qed.

Lemma rstrip_ws_head s c :
  head s = Some c -> isspace c = false -> head (rstrip_ws s) = Some c.
Proof.
  destruct s as [|x r]; [discriminate|]. intros [= ->] Hc.
  rewrite rstrip_ws_cons, Hc. reflexivity.
Qed.

Lemma str_strip_stripped s : stripped (str_strip s).
Proof.
  unfold stripped, str_strip. split; [|apply rstrip_ws_last].
  intros c Hc.
  destruct (rstrip_ws_prefix (lstrip_ws s)) as (ws & Hs & _).
  apply (lstrip_ws_head s). rewrite Hs.
  destruct (rstrip_ws (lstrip_ws s)); [discriminate|exact Hc].
Qed.

Lemma str_strip_id s : stripped s -> str_strip s = s.
Proof.
  intros [Hh Hl]. unfold str_strip. rewrite (lstrip_ws_id s Hh).
  apply rstrip_ws_id, Hl.
Qed.

Lemma str_strip_blank_l ws s : blank ws -> str_strip (ws ++ s) = str_strip s.
Proof. intros H. unfold str_strip. rewrite lstrip_ws_blank by exact H. reflexivity. Qed.

Lemma str_strip_blank_r s ws :
  s <> [] -> (forall c, head s = Some c -> isspace c = false) -> blank ws ->
  str_strip (s ++ ws) = str_strip s.
Proof.
  intros Hne Hh Hws. unfold str_strip.
  rewrite (lstrip_ws_id s Hh).
  rewrite lstrip_ws_id.
  - apply rstrip_ws_blank, Hws.
  - destruct s; [congruence|exact Hh].
Qed.

Lemma lstrip_ws_Forall (P : Z -> Prop) s : Forall P s -> Forall P (lstrip_ws s).
Proof.
  intros H. destruct (lstrip_ws_suffix s) as (ws & Hs & _).
  rewrite Hs in H. apply Forall_app in H. apply H.
Qed.

Lemma rstrip_ws_Forall (P : Z -> Prop) s : Forall P s -> Forall P (rstrip_ws s).
Proof.
  intros H. destruct (rstrip_ws_prefix s) as (ws & Hs & _).
  rewrite Hs in H. apply Forall_app in H. apply H.
Qed.

Lemma str_strip_Forall (P : Z -> Prop) s : Forall P s -> Forall P (str_strip s).
Proof. intros H. apply rstrip_ws_Forall, lstrip_ws_Forall, H. Qed.

(** ** The first occurrence of a character *)

Lemma split_first_Some c s a b :
  split_first c s = Some (a, b) ->
  s = a ++ c :: b /\ Forall (fun x => x <> c) a.
Proof.
  revert a. induction s as [|x r IH]; intros a; [discriminate|].
  cbn [split_first]. destruct (Z.eqb_spec x c) as [->|Hx].
  - intros [= <- <-]. split; [reflexivity|constructor].
  - destruct (split_first c r) as [[a' b']|]; [|discriminate].
    intros [= <- <-]. destruct (IH a' eq_refl) as [-> Ha].
    split; [reflexivity|constructor; assumption].
Qed.

Lemma split_first_app c a b :
  Forall (fun x => x <> c) a -> split_first c (a ++ c :: b) = Some (a, b).
Proof.
  induction 1 as [|x a Hx _ IH]; cbn [app split_first].
  - rewrite Z.eqb_refl. reflexivity.
  - destruct (Z.eqb_spec x c); [contradiction|]. rewrite IH. reflexivity.
Qed.

Lemma split_first_None c s :
  split_first c s = None -> Forall (fun x => x <> c) s.
Proof.
  induction s as [|x r IH]; [constructor|]. cbn [split_first].
  destruct (Z.eqb_spec x c); [discriminate|].
  destruct (split_first c r) as [[a b]|]; [discriminate|].
  intros _. constructor; [assumption|apply IH; reflexivity].
Qed.

(** ** Lines *)

Lemma translate_newlines_no_CR s :
  Forall (fun c => c <> CR) (translate_newlines s).
Proof.
  assert (H : forall s,
    Forall (fun c => c <> CR) (translate_newlines s) /\
    forall d, Forall (fun c => c <> CR) (translate_newlines (d :: s))).
  { clear s. induction s as [|x r [IH1 IH2]].
    - split; [constructor|]. intros d. cbn [translate_newlines].
      destruct (Z.eqb_spec d CR); repeat constructor; [discriminate|assumption].
    - split; [apply IH2|]. intros d.
      change (translate_newlines (d :: x :: r))
        with (if d =? CR
              then LF :: (if x =? LF then translate_newlines r
                          else translate_newlines (x :: r))
              else d :: translate_newlines (x :: r)).
      destruct (Z.eqb_spec d CR).
      + constructor; [discriminate|]. destruct (x =? LF); [exact IH1|apply IH2].
      + constructor; [assumption|apply IH2]. }
  apply H.
Qed.

Lemma text_lines_are_lines s :
  Forall (fun c => c <> CR) s -> Forall is_line (text_lines s).
Proof.
  induction 1 as [|c r Hc Hr IH]; [constructor|].
  cbn [text_lines]. destruct (Z.eqb_spec c LF) as [->|Hlf].
  - constructor; [|exact IH]. split; [repeat constructor; discriminate|].
    intros a b Hab. destruct a as [|x a]; [injection Hab as <-; reflexivity|].
    injection Hab as _ Hab. destruct a; discriminate.
  - destruct (text_lines r) as [|l ls].
    + constructor; [|constructor]. split; [repeat constructor; assumption|].
      intros a b Hab. destruct a as [|x a]; [injection Hab as ? _; contradiction|].
      injection Hab as _ Hab. destruct a; discriminate.
    + apply Forall_cons in IH. destruct IH as [[Hl1 Hl2] Hls].
      constructor; [|exact Hls]. split; [constructor; assumption|].
      intros a b Hab. destruct a as [|x a]; [injection Hab as ? _; contradiction|].
      injection Hab as _ Hab. apply (Hl2 a b Hab).
Qed.

Lemma str_strip_infix s :
  exists ws1 ws2, s = ws1 ++ str_strip s ++ ws2 /\ blank ws1 /\ blank ws2.
Proof.
  destruct (lstrip_ws_suffix s) as (ws1 & H1 & Hb1).
  destruct (rstrip_ws_prefix (lstrip_ws s)) as (ws2 & H2 & Hb2).
  exists ws1, ws2. split; [|split; assumption].
  unfold str_strip. rewrite <- H2. exact H1.
Qed.

Lemma isspace_LF : isspace LF = true.
Proof. reflexivity. Qed.

(** A stripped line holds no line end. *)
Lemma str_strip_line l :
  is_line l -> Forall (fun c => c <> LF /\ c <> CR) (str_strip l).
Proof.
  intros [Hcr Hlf].
  destruct (str_strip_infix l) as (ws1 & ws2 & Hl & _ & _).
  pose proof (str_strip_stripped l) as [_ Hlast].
  set (m := str_strip l) in *.
  apply Forall_forall. intros c Hc. split.
  - intros ->. apply list_elem_of_split in Hc. destruct Hc as (m1 & m2 & Hm).
    assert (Hb : m2 ++ ws2 = []).
    { apply (Hlf (ws1 ++ m1)). rewrite Hl, Hm. rewrite <- !app_assoc. reflexivity. }
    apply app_eq_nil in Hb. destruct Hb as [-> _].
    specialize (Hlast LF). rewrite Hm, last_snoc in Hlast.
    specialize (Hlast eq_refl). rewrite isspace_LF in Hlast. discriminate.
  - assert (Hm : Forall (fun c => c <> CR) m).
    { rewrite Hl in Hcr. apply Forall_app in Hcr. destruct Hcr as [_ Hcr].
      apply Forall_app in Hcr. apply Hcr. }
    rewrite Forall_forall in Hm. apply Hm, Hc.
Qed.

(** ** What a line adds *)

Lemma prop_line_shape (m : gmap (list Z) (list Z)) (l : list Z) :
  is_line l ->
  (forall k v, m !! k = Some v -> prop_shape k v) ->
  forall k v, prop_line m l !! k = Some v -> prop_shape k v.
Proof.
  intros Hl Hm k v. unfold prop_line. cbv zeta.
  pose proof (str_strip_line l Hl) as Hends.
  pose proof (str_strip_stripped l) as [Hhead _].
  set (line := str_strip l) in *.
  destruct (is_nil line || str_startswith [HASH] line) eqn:Hskip; [apply Hm|].
  destruct (split_first EQUALS line) as [[a b]|] eqn:Hsplit; [|apply Hm].
  destruct (split_first_Some _ _ _ _ Hsplit) as [Hline Ha].
  intros Hk. apply lookup_insert_Some in Hk.
  destruct Hk as [[<- <-]|[_ Hk]]; [|exact (Hm k v Hk)].
  rewrite Hline in Hends. apply Forall_app in Hends. destruct Hends as [Hea Heb].
  apply Forall_cons in Heb. destruct Heb as [_ Heb].
  split; [apply str_strip_stripped|]. split; [apply str_strip_stripped|].
  split; [|split].
  - apply str_strip_Forall. rewrite Forall_forall in *.
    intros c Hc. specialize (Ha c Hc). specialize (Hea c Hc). tauto.
  - apply str_strip_Forall. exact Heb.
  - destruct a as [|x a']; [discriminate|].
    rewrite Hline in Hskip, Hhead. cbn [app is_nil orb str_startswith] in Hskip.
    specialize (Hhead x eq_refl).
    unfold str_strip. rewrite lstrip_ws_id by (intros c [= <-]; exact Hhead).
    rewrite (rstrip_ws_head (x :: a') x eq_refl Hhead).
    intros [= ->]. rewrite Z.eqb_refl in Hskip. discriminate Hskip.
Qed.

Lemma fold_prop_line_shape (ls : list (list Z)) :
  Forall is_line ls ->
  forall m, (forall k v, m !! k = Some v -> prop_shape k v) ->
    forall k v, fold_left prop_line ls m !! k = Some v -> prop_shape k v.
Proof.
  induction 1 as [|l ls Hl _ IH]; intros m Hm; [exact Hm|].
  cbn [fold_left]. apply IH. apply prop_line_shape; assumption.
Qed.

(** X17. [parse_prop_file] returns for every file, whatever its bytes,
    and what it returns is tidy: no name and no value has white space at
    its ends or holds a line end, no name holds [=], and no name starts
    with [#]. *)
Theorem parse_prop_file_shape (prop_path : option (list byte)) :
  exists props,
    parse_prop_file prop_path = Ok props /\
    forall k v, props !! k = Some v -> prop_shape k v.
Proof.
  destruct prop_path as [content|]; cbn [parse_prop_file].
  - destruct (utf8_decode_ignore_total content) as [text ->]. cbn [bind].
    eexists. split; [reflexivity|].
    apply fold_prop_line_shape.
    + apply text_lines_are_lines, translate_newlines_no_CR.
    + intros k v Hk. rewrite lookup_empty in Hk. discriminate.
  - exists ∅. split; [reflexivity|].
    intros k v Hk. rewrite lookup_empty in Hk. discriminate.
Qed.

Lemma blank_not_equals ws : blank ws -> Forall (fun c => c <> EQUALS) ws.
Proof.
  unfold blank. intros H. eapply Forall_impl; [exact H|].
  intros c Hc ->. discriminate Hc.
Qed.

Lemma stripped_ends x mid y :
  isspace x = false -> isspace y = false -> stripped (x :: mid ++ [y]).
Proof.
  intros Hx Hy. split.
  - intros c [= <-]. exact Hx.
  - intros c Hc. rewrite app_comm_cons, last_snoc in Hc.
    injection Hc as <-. exact Hy.
Qed.

Ltac same_list :=
  repeat (progress (cbn [app]; rewrite <- ?app_assoc)); reflexivity.

(** What is left of an assignment with blanks once it is stripped. *)
Lemma str_strip_assignment (k v ws1 ws2 ws3 ws4 : list Z) :
  k <> [] -> stripped k -> stripped v ->
  blank ws1 -> blank ws3 -> blank ws4 ->
  exists tail,
    str_strip (ws1 ++ k ++ ws2 ++ EQUALS :: ws3 ++ v ++ ws4)
    = (k ++ ws2) ++ EQUALS :: tail /\ str_strip tail = v.
Proof.
  intros Hne Hk Hv H1 H3 H4.
  destruct k as [|x k']; [congruence|].
  assert (Hx : isspace x = false) by (apply (proj1 Hk); reflexivity).
  rewrite str_strip_blank_l by exact H1.
  destruct v as [|y v' _] using rev_ind.
  - exists []. split; [|reflexivity].
    assert (E : (x :: k') ++ ws2 ++ EQUALS :: ws3 ++ [] ++ ws4
                = (x :: (k' ++ ws2) ++ [EQUALS]) ++ (ws3 ++ ws4)) by same_list.
    rewrite E. clear E.
    rewrite str_strip_blank_r;
      [|discriminate|intros c [= <-]; exact Hx|apply Forall_app; split; assumption].
    rewrite str_strip_id by (apply stripped_ends; [exact Hx|reflexivity]).
    same_list.
  - exists (ws3 ++ v' ++ [y]). split.
    + assert (Hy : isspace y = false) by (apply (proj2 Hv); apply last_snoc).
      assert (E : (x :: k') ++ ws2 ++ EQUALS :: ws3 ++ (v' ++ [y]) ++ ws4
                  = (x :: (k' ++ ws2 ++ EQUALS :: ws3 ++ v') ++ [y]) ++ ws4)
        by same_list.
      rewrite E. clear E.
      rewrite str_strip_blank_r; [|discriminate|intros c [= <-]; exact Hx|exact H4].
      rewrite str_strip_id by (apply stripped_ends; assumption).
      same_list.
    + rewrite (str_strip_blank_l ws3 _ H3). apply str_strip_id, Hv.
Qed.

(** A line whose stripped text is a name, blanks, [=] and a rest sets the
    name to the stripped rest. *)
Lemma prop_line_stripped (props : gmap (list Z) (list Z))
      (line k ws2 tail : list Z) :
  str_strip line = (k ++ ws2) ++ EQUALS :: tail ->
  k <> [] -> stripped k -> Forall (fun c => c <> EQUALS) k ->
  head k <> Some HASH -> blank ws2 ->
  prop_line props line = <[k := str_strip tail]> props.
Proof.
  intros Hline Hne Hk Heq Hhash H2.
  destruct k as [|x k']; [congruence|].
  assert (Hx : isspace x = false) by (apply (proj1 Hk); reflexivity).
  unfold prop_line. cbv zeta. rewrite Hline.
  cbn [app is_nil orb str_startswith].
  assert (Hxh : (HASH =? x) = false).
  { destruct (Z.eqb_spec HASH x) as [E|]; [|reflexivity].
    exfalso. apply Hhash. rewrite <- E. reflexivity. }
  rewrite Hxh. cbn [andb].
  change (x :: (k' ++ ws2) ++ EQUALS :: tail)
    with (((x :: k') ++ ws2) ++ EQUALS :: tail).
  rewrite split_first_app
    by (apply Forall_app; split; [exact Heq|apply blank_not_equals, H2]).
  rewrite str_strip_blank_r; [|discriminate|intros c [= <-]; exact Hx|exact H2].
  rewrite (str_strip_id _ Hk).
  reflexivity.
Qed.

(** X18. Blanks around the name and around the value of an assignment do
    not count: a line made of a name, [=] and a value, with any white
    space before and after each of them, sets exactly that name to that
    value. The name is not empty, has no [=] and does not start with [#];
    the value may be empty and may hold [=]. *)
Theorem prop_line_blanks (props : gmap (list Z) (list Z))
        (k v ws1 ws2 ws3 ws4 : list Z) :
  k <> [] -> stripped k -> Forall (fun c => c <> EQUALS) k ->
  head k <> Some HASH -> stripped v ->
  blank ws1 -> blank ws2 -> blank ws3 -> blank ws4 ->
  prop_line props (ws1 ++ k ++ ws2 ++ EQUALS :: ws3 ++ v ++ ws4)
  = <[k := v]> props.
Proof.
  intros Hne Hk Heq Hhash Hv H1 H2 H3 H4.
  destruct (str_strip_assignment k v ws1 ws2 ws3 ws4 Hne Hk Hv H1 H3 H4)
    as (tail & Hline & Htail).
  rewrite (prop_line_stripped props _ k ws2 tail Hline Hne Hk Heq Hhash H2).
  rewrite Htail. reflexivity.
Qed.

(** X18 on the line [  ro.product.device = X6885 ]. *)
Lemma prop_line_blanks_witness :
  prop_line ∅ (str_lit "  ro.product.device = X6885 ")
  = <[str_lit "ro.product.device" := str_lit "X6885"]> ∅.
Proof.
  refine (prop_line_blanks ∅ (str_lit "ro.product.device") (str_lit "X6885")
            (str_lit "  ") (str_lit " ") (str_lit " ") (str_lit " ")
            _ _ _ _ _ _ _ _ _).
  - discriminate.
  - split; intros c Hc; vm_compute in Hc; injection Hc as <-; reflexivity.
  - vm_compute. repeat (constructor; [discriminate|]). constructor.
  - discriminate.
  - split; intros c Hc; vm_compute in Hc; injection Hc as <-; reflexivity.
  - vm_compute. repeat (constructor; [reflexivity|]). constructor.
  - vm_compute. repeat (constructor; [reflexivity|]). constructor.
  - vm_compute. repeat (constructor; [reflexivity|]). constructor.
  - vm_compute. repeat (constructor; [reflexivity|]). constructor.
Defined.

(** ** A line added to a file *)

Ltac close_with IH r t st Ht Hst :=
  let sr := fresh "sr" in
  let Hr := fresh "Hr" in
  let Hrt := fresh "Hrt" in
  destruct (IH r t st ltac:(cbn [length] in *; lia) Ht Hst) as (sr & Hr & Hrt);
  cbn [app] in Hrt; cbn [on_error]; rewrite Hr, Hrt;
  eexists; split; reflexivity.

Ltac close_end t st Ht Hst :=
  let c1 := fresh "c" in
  let t1 := fresh "t" in
  destruct t as [|c1 t1];
  [ injection Hst as <-; exists []; split; reflexivity
  | rewrite ?(Ht c1 t1 eq_refl); cbn [negb orb on_error]; rewrite Hst;
    exists []; split; reflexivity ].

Lemma utf8_decode_ignore_app_aux (n : nat) :
  forall a t st, (length a <= n)%nat ->
    (forall b1 r1, t = b1 :: r1 -> is_continuation b1 = false) ->
    utf8_decode Ignore t = Ok st ->
    exists sa, utf8_decode Ignore a = Ok sa /\
               utf8_decode Ignore (a ++ t) = Ok (sa ++ st).
Proof.
  induction n as [|n IH]; intros a t st Hn Ht Hst.
  - destruct a; [|simpl in Hn; lia]. exists []. split; [reflexivity|exact Hst].
  - destruct a as [|b0 r0]; [exists []; split; [reflexivity|exact Hst]|].
    cbn [app utf8_decode]. cbv zeta.
    destruct (byte_val b0 <? 128); [close_with IH r0 t st Ht Hst|].
    destruct (byte_val b0 <? 194); [close_with IH r0 t st Ht Hst|].
    destruct (byte_val b0 <? 224).
    { destruct r0 as [|b1 r1]; cbn [app]; [close_end t st Ht Hst|].
      destruct (is_continuation b1);
        [close_with IH r1 t st Ht Hst|close_with IH (b1 :: r1) t st Ht Hst]. }
    destruct (byte_val b0 <? 240).
    { destruct r0 as [|b1 r1]; cbn [app]; [close_end t st Ht Hst|].
      destruct (negb (is_continuation b1)
                || (if byte_val b1 <? 160 then byte_val b0 =? 224
                    else byte_val b0 =? 237));
        [close_with IH (b1 :: r1) t st Ht Hst|].
      destruct r1 as [|b2 r2]; cbn [app]; [close_end t st Ht Hst|].
      destruct (is_continuation b2);
        [close_with IH r2 t st Ht Hst|close_with IH (b2 :: r2) t st Ht Hst]. }
    destruct (byte_val b0 <? 245).
    { destruct r0 as [|b1 r1]; cbn [app]; [close_end t st Ht Hst|].
      destruct (negb (is_continuation b1)
                || (if byte_val b1 <? 144 then byte_val b0 =? 240
                    else byte_val b0 =? 244));
        [close_with IH (b1 :: r1) t st Ht Hst|].
      destruct r1 as [|b2 r2]; cbn [app]; [close_end t st Ht Hst|].
      destruct (negb (is_continuation b2));
        [close_with IH (b2 :: r2) t st Ht Hst|].
      destruct r2 as [|b3 r3]; cbn [app]; [close_end t st Ht Hst|].
      destruct (is_continuation b3);
        [close_with IH r3 t st Ht Hst|close_with IH (b3 :: r3) t st Ht Hst]. }
    close_with IH r0 t st Ht Hst.
Qed.

Lemma utf8_decode_ignore_app (a t : list byte) (st : list Z) :
  (forall b1 r1, t = b1 :: r1 -> byte_val b1 < 128) ->
  utf8_decode Ignore t = Ok st ->
  exists sa, utf8_decode Ignore a = Ok sa /\
             utf8_decode Ignore (a ++ t) = Ok (sa ++ st).
Proof.
  intros Ht. apply (utf8_decode_ignore_app_aux (length a)); [lia|].
  intros b1 r1 E. specialize (Ht b1 r1 E). unfold is_continuation.
  destruct (Z.leb_spec 128 (byte_val b1)); [lia|reflexivity].
Qed.

Lemma byte_val_byte_of c : 0 <= c < 256 -> byte_val (byte_of c) = c.
Proof.
  intros Hc. unfold byte_val, byte_of. rewrite Z.mod_small by lia.
  destruct (Byte.of_N (Z.to_N c)) as [b|] eqn:E.
  - apply Byte.to_of_N in E. rewrite E. lia.
  - pose proof (Byte.to_of_N_option_map (Z.to_N c)) as H. rewrite E in H.
    destruct (N.leb_spec (Z.to_N c) 255); [discriminate H|lia].
Qed.

Lemma utf8_decode_ascii_text (s : list Z) :
  Forall (fun c => 0 <= c < 128) s ->
  utf8_decode Ignore (encode_ascii s) = Ok s.
Proof.
  induction 1 as [|c r Hc _ IH]; [reflexivity|].
  cbn [encode_ascii map utf8_decode]. cbv zeta.
  rewrite byte_val_byte_of by lia.
  destruct (Z.ltb_spec c 128); [|lia].
  fold (encode_ascii r). rewrite IH. reflexivity.
Qed.

Lemma translate_newlines_id s :
  Forall (fun c => c <> CR) s -> translate_newlines s = s.
Proof.
  induction 1 as [|c r Hc _ IH]; [reflexivity|].
  cbn [translate_newlines]. destruct (Z.eqb_spec c CR); [contradiction|].
  rewrite IH. reflexivity.
Qed.

Lemma translate_newlines_cons d s :
  translate_newlines (d :: s)
  = if d =? CR
    then LF :: match s with
               | x :: r => if x =? LF then translate_newlines r
                           else translate_newlines s
               | [] => []
               end
    else d :: translate_newlines s.
Proof. destruct s; reflexivity. Qed.

Lemma translate_newlines_app_LF a l :
  translate_newlines (a ++ LF :: l)
  = translate_newlines (a ++ [LF]) ++ translate_newlines l.
Proof.
  assert (H : forall a,
    translate_newlines (a ++ LF :: l)
    = translate_newlines (a ++ [LF]) ++ translate_newlines l /\
    forall d, translate_newlines (d :: a ++ LF :: l)
              = translate_newlines (d :: a ++ [LF]) ++ translate_newlines l).
  { clear a. induction a as [|x r [IH1 IH2]].
    - split; [reflexivity|]. intros d. cbn [app].
      rewrite !translate_newlines_cons.
      destruct (d =? CR); reflexivity.
    - split; [apply IH2|]. intros d. cbn [app].
      rewrite (translate_newlines_cons d (x :: r ++ LF :: l)).
      rewrite (translate_newlines_cons d (x :: r ++ [LF])).
      destruct (d =? CR).
      + destruct (x =? LF); cbn [app]; f_equal; [exact IH1|apply IH2].
      + cbn [app]. f_equal. apply IH2. }
  apply H.
Qed.

Lemma translate_newlines_snoc_LF a :
  exists b, translate_newlines (a ++ [LF]) = b ++ [LF].
Proof.
  assert (H : forall a,
    (exists b, translate_newlines (a ++ [LF]) = b ++ [LF]) /\
    forall d, exists b, translate_newlines (d :: a ++ [LF]) = b ++ [LF]).
  { clear a. induction a as [|x r [IH1 IH2]].
    - split; [exists []; reflexivity|]. intros d. cbn [app].
      rewrite translate_newlines_cons.
      destruct (d =? CR); [exists []; reflexivity|exists [d]; reflexivity].
    - split; [apply IH2|]. intros d. cbn [app].
      rewrite (translate_newlines_cons d (x :: r ++ [LF])).
      destruct (d =? CR).
      + destruct (x =? LF).
        * destruct IH1 as [b ->]. exists (LF :: b). reflexivity.
        * destruct (IH2 x) as [b Hb]. cbn [app] in Hb. rewrite Hb.
          exists (LF :: b). reflexivity.
      + destruct (IH2 x) as [b Hb]. cbn [app] in Hb. rewrite Hb.
        exists (d :: b). reflexivity. }
  apply H.
Qed.

Lemma text_lines_nil s : text_lines s = [] -> s = [].
Proof.
  destruct s as [|c r]; [reflexivity|]. cbn [text_lines].
  destruct (c =? LF); [discriminate|].
  destruct (text_lines r); discriminate.
Qed.

Lemma text_lines_app b y :
  text_lines ((b ++ [LF]) ++ y) = text_lines (b ++ [LF]) ++ text_lines y.
Proof.
  induction b as [|c b IH].
  - cbn [app text_lines]. rewrite Z.eqb_refl. reflexivity.
  - change (text_lines (((c :: b) ++ [LF]) ++ y))
      with (if c =? LF then [LF] :: text_lines ((b ++ [LF]) ++ y)
            else match text_lines ((b ++ [LF]) ++ y) with
                 | [] => [[c]]
                 | l :: ls => (c :: l) :: ls
                 end).
    change (text_lines ((c :: b) ++ [LF]))
      with (if c =? LF then [LF] :: text_lines (b ++ [LF])
            else match text_lines (b ++ [LF]) with
                 | [] => [[c]]
                 | l :: ls => (c :: l) :: ls
                 end).
    rewrite IH.
    destruct (c =? LF); [reflexivity|].
    destruct (text_lines (b ++ [LF])) as [|l ls] eqn:E; [|reflexivity].
    apply text_lines_nil in E. destruct b; discriminate.
Qed.

Lemma text_lines_single l :
  Forall (fun c => c <> LF) l -> text_lines (l ++ [LF]) = [l ++ [LF]].
Proof.
  induction 1 as [|c r Hc _ IH].
  - cbn [app text_lines]. rewrite Z.eqb_refl. reflexivity.
  - cbn [app text_lines]. destruct (Z.eqb_spec c LF); [contradiction|].
    rewrite IH. reflexivity.
Qed.

Lemma text_lines_append (sa body : list Z) :
  sa = [] \/ (exists sp, sa = sp ++ [LF]) ->
  Forall (fun c => c <> LF /\ c <> CR) body ->
  text_lines (translate_newlines (sa ++ body ++ [LF]))
  = text_lines (translate_newlines sa) ++ [body ++ [LF]].
Proof.
  intros Hsa Hbody.
  assert (Hid : translate_newlines (body ++ [LF]) = body ++ [LF]).
  { apply translate_newlines_id. apply Forall_app. split.
    - eapply Forall_impl; [exact Hbody|]. intros c Hc. apply Hc.
    - repeat constructor. discriminate. }
  assert (Hone : text_lines (body ++ [LF]) = [body ++ [LF]]).
  { apply text_lines_single. eapply Forall_impl; [exact Hbody|].
    intros c Hc. apply Hc. }
  destruct Hsa as [->|[sp ->]].
  - cbn [app translate_newlines text_lines]. rewrite Hid. exact Hone.
  - rewrite <- app_assoc. cbn [app].
    rewrite translate_newlines_app_LF, Hid.
    destruct (translate_newlines_snoc_LF sp) as [b ->].
    rewrite text_lines_app, Hone. reflexivity.
Qed.

Lemma encode_ascii_head (s : list Z) :
  Forall (fun c => 0 <= c < 128) s ->
  forall b1 r1, encode_ascii s = b1 :: r1 -> byte_val b1 < 128.
Proof.
  intros Hs b1 r1 E. destruct Hs as [|c r Hc _]; [discriminate|].
  injection E as <- _. rewrite byte_val_byte_of; lia.
Qed.

(** X19. An assignment added at the end of a property file takes effect
    and changes nothing else: for a file that is empty or ends with a
    line feed, and a line [name=value] of ASCII where the name and the
    value have no white space at their ends, the name is not empty, has no
    [=] and does not start with [#], the file with that line added is
    parsed to the properties of the file with [name] set to [value],
    whatever the file holds, also bytes that are no UTF-8. *)
Theorem parse_prop_file_append (prefix : list byte) (k v : list Z) :
  prefix = [] \/ last prefix = Some x0a ->
  k <> [] -> plain k -> Forall (fun c => c <> EQUALS) k ->
  head k <> Some HASH -> plain v ->
  parse_prop_file
    (Some (prefix ++ encode_ascii k ++ [x3d] ++ encode_ascii v ++ [x0a]))
  = do props <- parse_prop_file (Some prefix); Ok (<[k := v]> props).
Proof.
  intros Hprefix Hne [Hk Hka] Heq Hhash [Hv Hva].
  set (body := k ++ EQUALS :: v).
  assert (Hbytes : encode_ascii k ++ [x3d] ++ encode_ascii v ++ [x0a]
                   = encode_ascii (body ++ [LF])).
  { unfold body, encode_ascii. rewrite !map_app. cbn [map].
    rewrite <- app_assoc. reflexivity. }
  assert (Hbody : Forall (fun c => 0 <= c < 128 /\ c <> LF /\ c <> CR) body).
  { unfold body. apply Forall_app. split; [exact Hka|].
    constructor; [|exact Hva]. repeat split; (lia || discriminate). }
  assert (Hascii : Forall (fun c => 0 <= c < 128) (body ++ [LF])).
  { apply Forall_app. split.
    - eapply Forall_impl; [exact Hbody|]. intros c Hc. apply Hc.
    - repeat constructor; (lia || discriminate). }
  rewrite Hbytes. cbn [parse_prop_file].
  destruct (utf8_decode_ignore_app prefix (encode_ascii (body ++ [LF]))
              (body ++ [LF]) (encode_ascii_head _ Hascii)
              (utf8_decode_ascii_text _ Hascii)) as (sa & Hsa & Hall).
  rewrite Hall, Hsa. cbn [bind]. f_equal.
  assert (Hends : sa = [] \/ (exists sp, sa = sp ++ [LF])).
  { destruct Hprefix as [->|Hlast].
    - left. injection Hsa as <-. reflexivity.
    - right. apply last_Some in Hlast. destruct Hlast as [p ->].
      destruct (utf8_decode_ignore_app p [x0a] [LF]) as (sp & Hsp & Hp).
      + intros b1 r1 [= <- _]. reflexivity.
      + reflexivity.
      + rewrite Hp in Hsa. injection Hsa as <-. exists sp. reflexivity. }
  rewrite text_lines_append.
  - rewrite fold_left_app. cbn [fold_left].
    unfold body. rewrite <- app_assoc. cbn [app].
    destruct (str_strip_assignment k v [] [] [] [LF] Hne Hk Hv)
      as (tail & Hline & Htail);
      [constructor|constructor|repeat constructor|].
    cbn [app] in Hline.
    rewrite (prop_line_stripped _ _ k [] tail Hline Hne Hk Heq Hhash);
      [|constructor].
    rewrite Htail. reflexivity.
  - exact Hends.
  - eapply Forall_impl; [exact Hbody|]. intros c (_ & H1 & H2).
    split; assumption.
Qed.

(** X19 on a file of one line, to which the line [ro.x=a=b c] is added. *)
Lemma parse_prop_file_append_witness :
  parse_prop_file
    (Some ((bytes_lit "a=1" ++ [x0a]) ++ encode_ascii (str_lit "ro.x")
           ++ [x3d] ++ encode_ascii (str_lit "a=b c") ++ [x0a]))
  = do props <- parse_prop_file (Some (bytes_lit "a=1" ++ [x0a]));
    Ok (<[str_lit "ro.x" := str_lit "a=b c"]> props).
Proof.
  apply parse_prop_file_append.
  - right. reflexivity.
  - discriminate.
  - split.
    + split; intros c Hc; vm_compute in Hc; injection Hc as <-; reflexivity.
    + vm_compute. repeat (constructor; [repeat split; (lia || discriminate)|]).
      constructor.
  - vm_compute. repeat (constructor; [discriminate|]). constructor.
  - discriminate.
  - split.
    + split; intros c Hc; vm_compute in Hc; injection Hc as <-; reflexivity.
    + vm_compute. repeat (constructor; [repeat split; (lia || discriminate)|]).
      constructor.
Defined.

(* ===================================================================== *)
(** * Collected properties *)
(* ===================================================================== *)

(** ** The files that collect_all_props reads *)

(** The two names of the test are names that end with [.prop]. *)
Lemma is_prop_name_endswith file :
  is_prop_name file = str_endswith (str_lit ".prop") file.
Proof.
  unfold is_prop_name.
  destruct (str_endswith (str_lit ".prop") file) eqn:E; [reflexivity|].
  cbn [orb].
  destruct (str_eqb file (str_lit "build.prop")) eqn:E1.
  { apply str_eqb_true in E1. subst file. vm_compute in E. discriminate E. }
  destruct (str_eqb file (str_lit "default.prop")) eqn:E2; [|reflexivity].
  apply str_eqb_true in E2. subst file. vm_compute in E. discriminate E.
Qed.

Lemma parse_prop_file_total (f : option (list byte)) :
  exists props, parse_prop_file f = Ok props.
Proof.
  destruct f as [content|]; cbn [parse_prop_file]; [|eauto].
  destruct (utf8_decode_ignore_total content) as [text ->]. cbn [bind]. eauto.
Qed.

Lemma last_value_app read k (a b : list (list Z)) :
  last_value read k (a ++ b)
  = match last_value read k b with
    | Some v => Some v
    | None => last_value read k a
    end.
Proof.
  induction a as [|p a IH]; cbn [app last_value].
  - destruct (last_value read k b); reflexivity.
  - rewrite IH. destruct (last_value read k b); reflexivity.
Qed.

Lemma lookup_update (props acc : gmap (list Z) (list Z)) (k : list Z) :
  (props ∪ acc) !! k
  = match props !! k with
    | Some v => Some v
    | None => acc !! k
    end.
Proof.
  rewrite lookup_union.
  destruct (props !! k), (acc !! k); reflexivity.
Qed.

Lemma collect_files_lookup read root (files : list (list Z)) :
  forall acc, exists m,
    collect_files read root files acc = Ok m /\
    forall k, m !! k
      = match last_value read k
                (map (os_path_join root)
                     (List.filter (str_endswith (str_lit ".prop")) files)) with
        | Some v => Some v
        | None => acc !! k
        end.
Proof.
  induction files as [|file rest IH]; intros acc.
  - exists acc. split; [reflexivity|]. intros k. reflexivity.
  - cbn [collect_files List.filter]. rewrite is_prop_name_endswith.
    destruct (str_endswith (str_lit ".prop") file).
    + destruct (parse_prop_file_total (read (os_path_join root file)))
        as [props Hp].
      cbv zeta. rewrite Hp. cbn [bind].
      destruct (IH (props ∪ acc)) as (m & Hm & Hk).
      exists m. split; [exact Hm|]. intros k. rewrite Hk.
      cbn [map last_value]. rewrite Hp, lookup_update.
      destruct (last_value read k _); reflexivity.
    + apply IH.
Qed.

Lemma collect_walk_lookup read (walk : list (list Z * list (list Z))) :
  forall acc, exists m,
    collect_walk read walk acc = Ok m /\
    forall k, m !! k
      = match last_value read k (prop_paths walk) with
        | Some v => Some v
        | None => acc !! k
        end.
Proof.
  induction walk as [|[root files] rest IH]; intros acc.
  - exists acc. split; [reflexivity|]. intros k. reflexivity.
  - cbn [collect_walk].
    destruct (collect_files_lookup read root files acc) as (m1 & H1 & Hk1).
    rewrite H1. cbn [bind].
    destruct (IH m1) as (m & Hm & Hk).
    exists m. split; [exact Hm|]. intros k. rewrite Hk, Hk1.
    unfold prop_paths. cbn [flat_map fst snd]. rewrite last_value_app.
    fold (prop_paths rest).
    destruct (last_value read k (prop_paths rest)); reflexivity.
Qed.

(** X20. [collect_all_props] returns for every tree, and the value it
    gives to a name is the one of the last file, in the order of the
    walk, that defines the name, among the files whose name ends with
    [.prop]: the two names [build.prop] and [default.prop] of the test
    add no file, a later file overrides an earlier one, and a path that
    is no regular file adds nothing. The record logged holds the number
    of the names. *)
Theorem collect_all_props_lookup (read : list Z -> option (list byte))
        (walk : list (list Z * list (list Z))) :
  exists all_props,
    collect_all_props read (Some walk)
    = Ok (all_props,
          [Info_CollectedProperties (Z.of_nat (base.size all_props))]) /\
    (forall k, all_props !! k = last_value read k (prop_paths walk)) /\
    (forall file, is_prop_name file = str_endswith (str_lit ".prop") file).
Proof.
  cbn [collect_all_props].
  destruct (collect_walk_lookup read walk ∅) as (m & Hm & Hk).
  rewrite Hm. cbn [bind]. exists m. split; [reflexivity|].
  split; [|exact is_prop_name_endswith].
  intros k. rewrite Hk, lookup_empty.
  destruct (last_value read k (prop_paths walk)); reflexivity.
Qed.

(* ===================================================================== *)
(** * Device naming *)
(* ===================================================================== *)

(** ** The names that _post_extract sets *)

Lemma nonempty_Some a s : nonempty a = Some s -> a = Some s /\ s <> [].
Proof.
  destruct a as [[|c r]|]; cbn [nonempty]; try discriminate.
  intros [= <-]. split; [reflexivity|discriminate].
Qed.

Lemma first_nonempty_Some l s : first_nonempty l = Some s -> s <> [].
Proof.
  induction l as [|a r IH]; cbn [first_nonempty]; [discriminate|].
  destruct (nonempty a) eqn:E; [|exact IH].
  intros [= <-]. apply (nonempty_Some _ _ E).
Qed.

Lemma nonempty_first_nonempty l : nonempty (first_nonempty l) = first_nonempty l.
Proof.
  destruct (first_nonempty l) as [s|] eqn:E; [|reflexivity].
  apply first_nonempty_Some in E. destruct s; [congruence|reflexivity].
Qed.

Lemma nonempty_idem a : nonempty (nonempty a) = nonempty a.
Proof. destruct a as [[|c r]|]; reflexivity. Qed.

Lemma find_device_name_spec manual props header_props :
  snd (find_device_name manual props header_props)
  = match or_else manual (device_of_props props) with
    | Some d => inr (Some d)
    | None =>
      match header_props with
      | None => inl AttributeError_header_props
      | Some hp => inr (nonempty (hp !! str_lit "device"))
      end
    end.
Proof.
  unfold find_device_name, or_else, device_of_props.
  destruct (nonempty manual) as [name|]; [reflexivity|]. cbn [snd].
  rewrite nonempty_first_nonempty.
  destruct (first_nonempty _); [reflexivity|].
  destruct header_props; reflexivity.
Qed.

Lemma find_device_name_log manual props header_props :
  fst (find_device_name manual props header_props)
  = match nonempty manual with
    | Some name => [Info_ManualDeviceName name]
    | None => []
    end.
Proof. unfold find_device_name. destruct (nonempty manual); reflexivity. Qed.

Lemma or_else_Some a b d : or_else a b = Some d -> d <> [].
Proof.
  unfold or_else. destruct (nonempty a) as [s|] eqn:E.
  - intros [= <-]. apply (nonempty_Some _ _ E).
  - intros H. apply (nonempty_Some _ _ H).
Qed.

Lemma find_device_name_nonempty manual props header_props d :
  snd (find_device_name manual props header_props) = inr (Some d) -> d <> [].
Proof.
  rewrite find_device_name_spec.
  destruct (or_else manual (device_of_props props)) as [d'|] eqn:E.
  - intros [= <-]. apply (or_else_Some _ _ _ E).
  - destruct header_props as [hp|]; [|discriminate].
    intros [= H]. apply (nonempty_Some _ _ H).
Qed.

Lemma find_board_name_spec props header_props :
  find_board_name props header_props
  = match board_of_props props with
    | Some b => inr b
    | None =>
      match header_props with
      | None => inl AttributeError_header_props
      | Some hp => inr match nonempty (hp !! str_lit "board") with
                       | Some s => s
                       | None => str_lit "mt6789"
                       end
      end
    end.
Proof.
  unfold find_board_name, board_of_props.
  destruct (first_nonempty _); [reflexivity|].
  destruct header_props; reflexivity.
Qed.

Lemma find_board_name_nonempty props header_props b :
  find_board_name props header_props = inr b -> b <> [].
Proof.
  rewrite find_board_name_spec.
  destruct (board_of_props props) as [b'|] eqn:E.
  - intros [= <-]. apply (first_nonempty_Some _ _ E).
  - destruct header_props as [hp|]; [|discriminate].
    intros [= <-].
    destruct (nonempty (hp !! str_lit "board")) as [s|] eqn:Hv;
      [apply (nonempty_Some _ _ Hv)|discriminate].
Qed.

Lemma find_device_name_directory manual props hp :
  snd (find_device_name manual props (Some hp))
  = inr (or_else manual (or_else (device_of_props props)
                                 (hp !! str_lit "device"))).
Proof.
  rewrite find_device_name_spec. unfold or_else, device_of_props.
  rewrite nonempty_first_nonempty.
  destruct (nonempty manual); [reflexivity|].
  destruct (first_nonempty _) as [d|] eqn:E.
  - apply first_nonempty_Some in E. destruct d; [congruence|reflexivity].
  - rewrite nonempty_idem. reflexivity.
Qed.

Lemma find_board_name_directory props hp :
  find_board_name props (Some hp)
  = inr match or_else (board_of_props props) (hp !! str_lit "board") with
        | Some b => b
        | None => str_lit "mt6789"
        end.
Proof.
  rewrite find_board_name_spec. unfold or_else, board_of_props.
  rewrite nonempty_first_nonempty.
  destruct (first_nonempty _); reflexivity.
Qed.

Lemma detect_platform_mtk b :
  b <> [] ->
  detect_platform (Some b) = str_lit "mtk"
  <-> str_startswith (str_lit "mt") b = true.
Proof.
  intros Hb. destruct b as [|c r]; [congruence|].
  unfold detect_platform. cbv zeta.
  destruct (str_startswith (str_lit "mt") (c :: r)).
  - split; reflexivity.
  - destruct (str_startswith (str_lit "sdm") (c :: r)
              || str_startswith (str_lit "sm") (c :: r));
      split; discriminate.
Qed.

Section Naming.

Variable str_lower : list Z -> list Z.

(** The outcome of the naming from those of its two searches. *)
Lemma post_extract_naming_snd manual props header_props :
  snd (post_extract_naming str_lower manual props header_props)
  = match snd (find_device_name manual props header_props) with
    | inl e => inl e
    | inr None => inl (SystemExit 1)
    | inr (Some d) =>
      match find_board_name props header_props with
      | inl e => inl e
      | inr b =>
        inr {| device_name := d;
               codename := match split_first DASH d with
                           | Some (_, after) => after
                           | None => d
                           end;
               board_name := b;
               manufacturer := find_manufacturer str_lower props d;
               platform := detect_platform (Some b);
               arch := match props !! str_lit "ro.product.cpu.abi" with
                       | Some s => s
                       | None => str_lit "arm64-v8a"
                       end |}
      end
    end.
Proof.
  unfold post_extract_naming.
  destruct (find_device_name manual props header_props) as [log1 [e|[d|]]];
    cbn [snd]; try reflexivity.
  destruct (find_board_name props header_props); reflexivity.
Qed.

(** X21. On an image the attribute [header_props] is never set, so the
    naming ends with an AttributeError unless the properties of the
    ramdisk give a board ([ro.board.platform] or [ro.product.board]) and
    a device name is given on the command line or by the properties: a
    name on the command line does not help when the board is missing,
    and the exit with the message that asks for [--device-name] is never
    reached. *)
Theorem post_extract_naming_image_mode
        (manual : option (list Z)) (props : gmap (list Z) (list Z)) :
  let r := snd (post_extract_naming str_lower manual props None) in
  (forall code, r <> inl (SystemExit code)) /\
  (r = inl AttributeError_header_props <->
   or_else manual (device_of_props props) = None
   \/ board_of_props props = None) /\
  (forall d b,
     or_else manual (device_of_props props) = Some d ->
     board_of_props props = Some b ->
     exists n, r = inr n /\ device_name n = d /\ board_name n = b).
Proof.
  cbv zeta. rewrite post_extract_naming_snd, find_device_name_spec,
    find_board_name_spec.
  destruct (or_else manual (device_of_props props)) as [d|];
    destruct (board_of_props props) as [b|].
  - split; [discriminate|]. split.
    + split; [discriminate|]. intros [H|H]; discriminate H.
    + intros d' b' [= <-] [= <-]. eexists. split; [reflexivity|].
      split; reflexivity.
  - split; [discriminate|]. split; [|discriminate].
    split; [auto|reflexivity].
  - split; [discriminate|]. split; [|discriminate].
    split; [auto|reflexivity].
  - split; [discriminate|]. split; [|discriminate].
    split; [auto|reflexivity].
Qed.

(** X22. On an unpacked directory the naming never fails for a missing
    attribute: it exits with status 1, after the error record, exactly
    when no device name is found on the command line, in the properties
    or under [device] in the header file; otherwise the device name is
    the first of these that is not empty, in that order, and the board is
    the first that is not empty of the properties, the entry [board] of
    the header file and [mt6789], for which the platform is [mtk]. *)
Theorem post_extract_naming_directory_mode
        (manual : option (list Z)) (props hp : gmap (list Z) (list Z)) :
  let r := post_extract_naming str_lower manual props (Some hp) in
  match or_else manual (or_else (device_of_props props)
                                (hp !! str_lit "device")) with
  | None => r = ([Error_NoDeviceName], inl (SystemExit 1))
  | Some d =>
    exists n,
      snd r = inr n /\ device_name n = d /\ d <> [] /\
      board_name n
      = match or_else (board_of_props props) (hp !! str_lit "board") with
        | Some b => b
        | None => str_lit "mt6789"
        end /\
      (or_else (board_of_props props) (hp !! str_lit "board") = None ->
       platform n = str_lit "mtk")
  end.
Proof.
  cbv zeta.
  pose proof (find_device_name_directory manual props hp) as Hdev.
  pose proof (find_device_name_log manual props (Some hp)) as Hlog.
  pose proof (post_extract_naming_snd manual props (Some hp)) as Hsnd.
  rewrite Hdev, find_board_name_directory in Hsnd.
  destruct (or_else manual (or_else (device_of_props props)
                                    (hp !! str_lit "device")))
    as [d|] eqn:Hd.
  - eexists. split; [exact Hsnd|]. cbn [device_name board_name platform].
    split; [reflexivity|]. split; [apply (or_else_Some _ _ _ Hd)|].
    split; [reflexivity|]. intros ->. reflexivity.
  - assert (Hman : nonempty manual = None).
    { unfold or_else in Hd. destruct (nonempty manual); [discriminate|reflexivity]. }
    rewrite Hman in Hlog.
    unfold post_extract_naming.
    destruct (find_device_name manual props (Some hp)) as [log1 found].
    cbn [fst snd] in *. subst log1 found. reflexivity.
Qed.

(** X23. When the naming returns, the device name and the board are not
    empty. A device name with a dash is [brand-codename], cut at its first
    dash: the code name is what follows it, and the manufacturer, when no
    property gives one, is the brand in lower case; the brand, the dash and
    the code name put together give the device name again. A device name
    without a dash is its own code name, with [transsion] as
    manufacturer. A manufacturer given by the properties wins, and the
    platform is [mtk] exactly for a board that starts with [mt]. *)
Theorem post_extract_naming_names
        (manual : option (list Z)) (props : gmap (list Z) (list Z))
        (header_props : option (gmap (list Z) (list Z)))
        (log : list post_log) (n : naming) :
  post_extract_naming str_lower manual props header_props = (log, inr n) ->
  device_name n <> [] /\ board_name n <> [] /\
  (In DASH (device_name n) ->
   exists brand,
     device_name n = brand ++ DASH :: codename n /\ ~ In DASH brand /\
     (manufacturer_of_props props = None ->
      manufacturer n = str_lower brand)) /\
  (~ In DASH (device_name n) ->
   codename n = device_name n /\
   (manufacturer_of_props props = None ->
    manufacturer n = str_lower (str_lit "transsion"))) /\
  (forall m, manufacturer_of_props props = Some m ->
             manufacturer n = str_lower m) /\
  (platform n = str_lit "mtk"
   <-> str_startswith (str_lit "mt") (board_name n) = true).
Proof.
  intros H.
  pose proof (post_extract_naming_snd manual props header_props) as Hsnd.
  rewrite H in Hsnd. cbn [snd] in Hsnd.
  destruct (snd (find_device_name manual props header_props))
    as [e|[d|]] eqn:Hdev; try discriminate Hsnd.
  destruct (find_board_name props header_props) as [e|b] eqn:Hboard;
    [discriminate Hsnd|].
  injection Hsnd as ->.
  cbn [device_name codename board_name manufacturer platform].
  pose proof (find_device_name_nonempty _ _ _ _ Hdev) as Hd.
  pose proof (find_board_name_nonempty _ _ _ Hboard) as Hb.
  unfold find_manufacturer. fold (manufacturer_of_props props).
  split; [exact Hd|]. split; [exact Hb|].
  split; [|split; [|split]].
  - intros Hin.
    destruct (split_first DASH d) as [[before after]|] eqn:Hs.
    + destruct (split_first_Some _ _ _ _ Hs) as [Heq Hno].
      exists before. split; [exact Heq|]. split.
      * intros Hb'. rewrite Forall_forall in Hno.
        apply (Hno DASH); [apply list_elem_of_In; exact Hb'|reflexivity].
      * intros ->. reflexivity.
    + exfalso. apply split_first_None in Hs. rewrite Forall_forall in Hs.
      apply (Hs DASH); [apply list_elem_of_In; exact Hin|reflexivity].
  - intros Hnot.
    destruct (split_first DASH d) as [[before after]|] eqn:Hs.
    + exfalso. apply Hnot. destruct (split_first_Some _ _ _ _ Hs) as [-> _].
      apply in_or_app. right. left. reflexivity.
    + split; [reflexivity|]. intros ->. reflexivity.
  - intros m ->. reflexivity.
  - apply detect_platform_mtk, Hb.
Qed.

End Naming.

(** X23 on the name [Infinix-X6885] given on the command line, with a
    board from the properties. *)
Lemma post_extract_naming_names_witness :
  exists log n,
    post_extract_naming ascii_lower (Some (str_lit "Infinix-X6885"))
      {[ str_lit "ro.board.platform" := str_lit "mt6833" ]} None
    = (log, inr n) /\
    device_name n = str_lit "Infinix" ++ DASH :: codename n /\
    manufacturer n = str_lit "infinix" /\
    platform n = str_lit "mtk".
Proof.
  destruct (post_extract_naming ascii_lower (Some (str_lit "Infinix-X6885"))
              {[ str_lit "ro.board.platform" := str_lit "mt6833" ]} None)
    as [log [e|n]] eqn:E; [vm_compute in E; discriminate E|].
  exists log, n. split; [reflexivity|].
  destruct (post_extract_naming_names ascii_lower _ _ _ _ _ E)
    as (_ & _ & _ & _ & _ & Hp).
  vm_compute in E. injection E as _ <-.
  split; [reflexivity|]. split; [reflexivity|].
  apply Hp. reflexivity.
Defined.

(* ===================================================================== *)
(** * Gzip *)
(* ===================================================================== *)

(** ** Archives compressed with gzip *)



Section Gzip.

Variable gzip_decompress : list byte -> option (list byte).







End Gzip.


